(** * Streaming response normalisation of [src/app/api/chat/route.js]

    A shallow embedding of [createParser], of the transform it is plugged
    into, and of the [POST] handler, together with the platform functions
    they call (TextDecoder, TextEncoder, String.prototype methods,
    JSON.parse, property reads and the abstract operations ToBoolean and
    ToString), followed by the properties of the streaming layer. *)

From Stdlib Require Import List NArith ZArith String Ascii Bool Lia.
From Stdlib Require Import DecimalString.
Import ListNotations.

Set Implicit Arguments.
Set Warnings "-register-all".

(* ================================================================== *)
(** * ECMAScript strings *)
(* ================================================================== *)

(** An ECMAScript string is a sequence of 16-bit code units; a network
    chunk (Uint8Array) is a sequence of octets. *)
Definition codeunit := N.
Definition jsstring := list codeunit.
Definition octet := N.
Definition bytes := list octet.

Module JSString.

Open Scope N_scope.

(** A source literal.  The apostrophe stands for the double quote in
    [json_lit], so that JSON texts can be written inline. *)
Definition lit (s : string) : jsstring :=
  map N_of_ascii (list_ascii_of_string s).

Definition json_lit (s : string) : jsstring :=
  map (fun c => if c =? 39 then 34 else c) (lit s).

(** [a === b] on two strings. *)
Fixpoint strict_eq (a b : jsstring) : bool :=
  match a, b with
  | [], [] => true
  | x :: a', y :: b' => (x =? y) && strict_eq a' b'
  | _, _ => false
  end.

(** WhiteSpace and LineTerminator code points, the set removed by
    String.prototype.trim. *)
Definition is_white_space (c : codeunit) : bool :=
  (c =? 0x09) || (c =? 0x0A) || (c =? 0x0B) || (c =? 0x0C) || (c =? 0x0D)
  || (c =? 0x20) || (c =? 0xA0) || (c =? 0x1680)
  || ((0x2000 <=? c) && (c <=? 0x200A))
  || (c =? 0x2028) || (c =? 0x2029) || (c =? 0x202F) || (c =? 0x205F)
  || (c =? 0x3000) || (c =? 0xFEFF).

Fixpoint trimStart (s : jsstring) : jsstring :=
  match s with
  | [] => []
  | c :: s' => if is_white_space c then trimStart s' else s
  end.

Fixpoint trimEnd (s : jsstring) : jsstring :=
  match s with
  | [] => []
  | c :: s' =>
      match trimEnd s' with
      | [] => if is_white_space c then [] else [c]
      | t => c :: t
      end
  end.

(** [s.trim()] *)
Definition trim (s : jsstring) : jsstring := trimEnd (trimStart s).

(** [s.startsWith(p)] *)
Fixpoint startsWith (s p : jsstring) : bool :=
  match p, s with
  | [], _ => true
  | x :: p', y :: s' => (x =? y) && startsWith s' p'
  | _ :: _, [] => false
  end.

(** [s.slice(n)] for a non-negative [n]. *)
Definition slice (n : nat) (s : jsstring) : jsstring := skipn n s.

Definition LF : codeunit := 0x0A.

(** [s.split("\n")]: the segments between line feeds; never empty. *)
Fixpoint split_lines (s : jsstring) : list jsstring :=
  match s with
  | [] => [[]]
  | c :: s' =>
      let segs := split_lines s' in
      if c =? LF then [] :: segs
      else match segs with
           | [] => [[c]]
           | seg :: segs' => (c :: seg) :: segs'
           end
  end.

(** [a.pop()]: the removed last element ([None] for undefined on an empty
    array) and the array as it is left. *)
Fixpoint pop (A : Type) (a : list A) : option A * list A :=
  match a with
  | [] => (None, [])
  | x :: a' =>
      match a' with
      | [] => (Some x, [])
      | _ => let (r, rest) := pop a' in (r, x :: rest)
      end
  end.

End JSString.

(* ================================================================== *)
(** * Encoding: TextDecoder and TextEncoder (WHATWG Encoding) *)
(* ================================================================== *)

Module Encoding.

Open Scope N_scope.

(** State of the UTF-8 decoder algorithm. *)
Record utf8_decoder := {
  code_point : N;
  bytes_seen : N;
  bytes_needed : N;
  lower_boundary : N;
  upper_boundary : N
}.

Definition utf8_initial : utf8_decoder :=
  {| code_point := 0; bytes_seen := 0; bytes_needed := 0;
     lower_boundary := 0x80; upper_boundary := 0xBF |}.

Definition REPLACEMENT : N := 0xFFFD.

(** A byte read while no sequence is pending. *)
Definition utf8_lead (b : octet) : utf8_decoder * list N :=
  if b <=? 0x7F then (utf8_initial, [b])
  else if (0xC2 <=? b) && (b <=? 0xDF) then
    ({| code_point := N.land b 0x1F; bytes_seen := 0; bytes_needed := 1;
        lower_boundary := 0x80; upper_boundary := 0xBF |}, [])
  else if (0xE0 <=? b) && (b <=? 0xEF) then
    ({| code_point := N.land b 0xF; bytes_seen := 0; bytes_needed := 2;
        lower_boundary := if b =? 0xE0 then 0xA0 else 0x80;
        upper_boundary := if b =? 0xED then 0x9F else 0xBF |}, [])
  else if (0xF0 <=? b) && (b <=? 0xF4) then
    ({| code_point := N.land b 0x7; bytes_seen := 0; bytes_needed := 3;
        lower_boundary := if b =? 0xF0 then 0x90 else 0x80;
        upper_boundary := if b =? 0xF4 then 0x8F else 0xBF |}, [])
  else (utf8_initial, [REPLACEMENT]).

(** The handler of the UTF-8 decoder for one byte, in replacement error
    mode (the decoder is not fatal): the code points it emits.  A byte that
    breaks a pending sequence yields U+FFFD and is then read again. *)
Definition utf8_handler (d : utf8_decoder) (b : octet)
  : utf8_decoder * list N :=
  if bytes_needed d =? 0 then utf8_lead b
  else if (b <? lower_boundary d) || (upper_boundary d <? b) then
    let (d', out) := utf8_lead b in (d', REPLACEMENT :: out)
  else
    let cp := N.lor (N.shiftl (code_point d) 6) (N.land b 0x3F) in
    let seen := bytes_seen d + 1 in
    if seen =? bytes_needed d then (utf8_initial, [cp])
    else ({| code_point := cp; bytes_seen := seen;
             bytes_needed := bytes_needed d;
             lower_boundary := 0x80; upper_boundary := 0xBF |}, []).

(** A [TextDecoder] object for UTF-8 with the default options (not fatal,
    BOM not ignored), used with [{ stream: true }] on every call, so that
    nothing is reset or flushed between calls. *)
Record TextDecoder := {
  decoder : utf8_decoder;
  BOM_seen : bool
}.

Definition new_TextDecoder : TextDecoder :=
  {| decoder := utf8_initial; BOM_seen := false |}.

(** A code point as UTF-16 code units. *)
Definition utf16_units (cp : N) : jsstring :=
  if cp <? 0x10000 then [cp]
  else [0xD800 + N.shiftr (cp - 0x10000) 10;
        0xDC00 + N.land (cp - 0x10000) 0x3FF].

(** Serialising the decoded code points: the first one is dropped when it
    is the byte order mark. *)
Fixpoint serialize (bom_seen : bool) (cps : list N) : bool * jsstring :=
  match cps with
  | [] => (bom_seen, [])
  | cp :: cps' =>
      if negb bom_seen && (cp =? 0xFEFF) then serialize true cps'
      else let (f, s) := serialize true cps' in (f, utf16_units cp ++ s)
  end.

Definition decode_byte (t : TextDecoder) (b : octet) : TextDecoder * jsstring :=
  let (d, cps) := utf8_handler (decoder t) b in
  let (f, s) := serialize (BOM_seen t) cps in
  ({| decoder := d; BOM_seen := f |}, s).

(** [textDecoder.decode(chunk, { stream: true })] *)
Fixpoint decode (t : TextDecoder) (chunk : bytes) : TextDecoder * jsstring :=
  match chunk with
  | [] => (t, [])
  | b :: chunk' =>
      let (t1, s1) := decode_byte t b in
      let (t2, s2) := decode t1 chunk' in
      (t2, s1 ++ s2)
  end.

Definition is_high_surrogate (c : codeunit) : bool :=
  (0xD800 <=? c) && (c <=? 0xDBFF).
Definition is_low_surrogate (c : codeunit) : bool :=
  (0xDC00 <=? c) && (c <=? 0xDFFF).

(** Conversion to a sequence of scalar values (USVString): surrogate pairs
    are combined and lone surrogates replaced by U+FFFD. *)
Fixpoint scalar_values (s : jsstring) : list N :=
  match s with
  | [] => []
  | c :: s' =>
      if is_high_surrogate c then
        match s' with
        | d :: s'' =>
            if is_low_surrogate d
            then (0x10000 + N.shiftl (c - 0xD800) 10 + (d - 0xDC00))
                   :: scalar_values s''
            else REPLACEMENT :: scalar_values s'
        | [] => [REPLACEMENT]
        end
      else if is_low_surrogate c then REPLACEMENT :: scalar_values s'
      else c :: scalar_values s'
  end.

Definition utf8_encode_scalar (cp : N) : bytes :=
  if cp <=? 0x7F then [cp]
  else if cp <=? 0x7FF then
    [0xC0 + N.shiftr cp 6; 0x80 + N.land cp 0x3F]
  else if cp <=? 0xFFFF then
    [0xE0 + N.shiftr cp 12; 0x80 + N.land (N.shiftr cp 6) 0x3F;
     0x80 + N.land cp 0x3F]
  else
    [0xF0 + N.shiftr cp 18; 0x80 + N.land (N.shiftr cp 12) 0x3F;
     0x80 + N.land (N.shiftr cp 6) 0x3F; 0x80 + N.land cp 0x3F].

(** [new TextEncoder().encode(s)] on a string. *)
Definition encode (s : jsstring) : bytes :=
  flat_map utf8_encode_scalar (scalar_values s).

(** A Unicode scalar value: a code point that is not a surrogate. *)
Definition is_scalar (cp : N) : bool :=
  (cp <? 0xD800) || ((0xDFFF <? cp) && (cp <? 0x110000)).

(** A string of 16-bit code units in which every surrogate is part of a
    pair, and one that does not start with the byte order mark. *)
Fixpoint well_formed (s : jsstring) : bool :=
  match s with
  | [] => true
  | c :: s' =>
      if is_high_surrogate c then
        match s' with
        | d :: s'' => is_low_surrogate d && well_formed s''
        | [] => false
        end
      else negb (is_low_surrogate c) && (c <? 0x10000) && well_formed s'
  end.

Definition no_BOM (s : jsstring) : bool :=
  match s with
  | c :: _ => negb (c =? 0xFEFF)
  | [] => true
  end.

(** The decoder state inside a sequence. *)
Definition pending (cp seen needed lo hi : N) : utf8_decoder :=
  {| code_point := cp; bytes_seen := seen; bytes_needed := needed;
     lower_boundary := lo; upper_boundary := hi |}.

End Encoding.

(* ================================================================== *)
(** * Number values *)
(* ================================================================== *)

Module Float64.

Open Scope Z_scope.

(** The Number values a JSON text can denote: IEEE 754 binary64 without
    NaN.  [Finite neg m e] is [m * 2^e] with [0 < m < 2^53] and
    [-1074 <= e <= 971], [m >= 2^52] unless [e = -1074]. *)
Inductive float64 :=
| Zero (neg : bool)
| Infinity (neg : bool)
| Finite (neg : bool) (m e : Z).

Definition eqb (x y : float64) : bool :=
  match x, y with
  | Zero a, Zero b => Bool.eqb a b
  | Infinity a, Infinity b => Bool.eqb a b
  | Finite a m e, Finite b m' e' => Bool.eqb a b && (m =? m') && (e =? e')
  | _, _ => false
  end.

(** Numerator and denominator of [(p / q) / 2^e]. *)
Definition scaled (p q e : Z) : Z * Z :=
  if 0 <=? e then (p, q * 2 ^ e) else (p * 2 ^ (- e), q).

Definition round_half_even (num den : Z) : Z :=
  let m := num / den in
  let r := num mod den in
  if 2 * r <? den then m
  else if den <? 2 * r then m + 1
  else if Z.even m then m else m + 1.

(** The Number value for the positive rational [p / q]: round to nearest,
    ties to even, overflow to infinity. *)
Definition round_ratio (neg : bool) (p q : Z) : float64 :=
  let e0 := Z.max (-1074) (Z.log2 p - Z.log2 q - 53) in
  let (n0, d0) := scaled p q e0 in
  let e := if 2 ^ 53 <=? n0 / d0 then e0 + 1 else e0 in
  let (n, d) := scaled p q e in
  let m := round_half_even n d in
  if m =? 0 then Zero neg
  else
    let (m', e') := if m =? 2 ^ 53 then (2 ^ 52, e + 1) else (m, e) in
    if 971 <? e' then Infinity neg else Finite neg m' e'.

(** The Number value for the decimal [m * 10^e10], [m >= 0]. *)
Definition of_decimal (neg : bool) (m e10 : Z) : float64 :=
  if m =? 0 then Zero neg
  else if 0 <=? e10 then round_ratio neg (m * 10 ^ e10) 1
  else round_ratio neg m (10 ^ (- e10)).

Definition decimal_digits (n : Z) : jsstring :=
  JSString.lit (NilEmpty.string_of_uint (N.to_uint (Z.to_N n))).

Definition zeros (n : Z) : jsstring := repeat (48%N) (Z.to_nat n).

(** The shortest digit string [s] (with [k] digits) and exponent [n] such
    that [s * 10^(n-k)] denotes the value, as Number::toString asks for;
    [D] has [L] digits and the value is [D * 10^t]. *)
Fixpoint shortest (fuel : nat) (k : Z) (m e D L t : Z) : Z * Z * Z :=
  match fuel with
  | O => (D, L, L + t)
  | S fuel' =>
      if L <=? k then (D, L, L + t)
      else
        let u := 10 ^ (L - k) in
        let lo := D / u in
        let hi := lo + 1 in
        let ok s := eqb (of_decimal false s (t + L - k)) (Finite false m e) in
        let pick_hi := if hi =? 10 ^ k then (10 ^ (k - 1), k, L + t + 1)
                       else (hi, k, L + t) in
        let pick_lo := (lo, k, L + t) in
        match ok lo, ok hi with
        | true, true =>
            let dlo := D - lo * u in
            let dhi := hi * u - D in
            if dlo <? dhi then pick_lo
            else if dhi <? dlo then pick_hi
            else if Z.even lo then pick_lo else pick_hi
        | true, false => pick_lo
        | false, true => pick_hi
        | false, false => shortest fuel' (k + 1) m e D L t
        end
  end.

Definition positive_to_string (m e : Z) : jsstring :=
  let D := if 0 <=? e then m * 2 ^ e else m * 5 ^ (- e) in
  let t := Z.min e 0 in
  let L := Z.of_nat (List.length (decimal_digits D)) in
  let '(s, k, n) := shortest 17 1 m e D L t in
  let ds := decimal_digits s in
  if (-5 <=? n) && (n <=? 21) then
    if k <=? n then ds ++ zeros (n - k)
    else if 0 <? n then
      firstn (Z.to_nat n) ds ++ JSString.lit "." ++ skipn (Z.to_nat n) ds
    else JSString.lit "0." ++ zeros (- n) ++ ds
  else
    let ex := n - 1 in
    let sign := if 0 <=? ex then JSString.lit "+" else JSString.lit "-" in
    let mant := if k =? 1 then ds
                else firstn 1 ds ++ JSString.lit "." ++ skipn 1 ds in
    mant ++ JSString.lit "e" ++ sign ++ decimal_digits (Z.abs ex).

(** Number::toString(x) in radix 10. *)
Definition to_string (x : float64) : jsstring :=
  match x with
  | Zero _ => JSString.lit "0"
  | Infinity neg =>
      if neg then JSString.lit "-Infinity" else JSString.lit "Infinity"
  | Finite neg m e =>
      (if neg then JSString.lit "-" else []) ++ positive_to_string m e
  end.

(** ToBoolean on a Number. *)
Definition truthy (x : float64) : bool :=
  match x with Zero _ => false | _ => true end.

Definition of_Z (n : Z) : float64 :=
  if n <? 0 then of_decimal true (- n) 0 else of_decimal false n 0.

End Float64.

(* ================================================================== *)
(** * Language values, completions and abstract operations *)
(* ================================================================== *)

Inductive error_kind := TypeError | SyntaxError.

(** A thrown value: an error raised by the language or the platform, whose
    message text is defined by the engine, or an [Error] instance with the
    given [name] and [message]. *)
Inductive exn :=
| EngineError (k : error_kind)
| ErrorObject (name message : jsstring).

Inductive completion (A : Type) :=
| Normal (a : A)
| Throw (e : exn).
Arguments Normal {A} a.
Arguments Throw {A} e.

(** The values JSON.parse can produce, and [undefined]. *)
Inductive value :=
| VUndefined
| VNull
| VBoolean (b : bool)
| VNumber (x : Float64.float64)
| VString (s : jsstring)
| VObject (props : list (jsstring * value))
| VArray (elems : list value).

Module JSValue.

Import JSString.

Definition nullish (v : value) : bool :=
  match v with VUndefined | VNull => true | _ => false end.

(** ToBoolean *)
Definition ToBoolean (v : value) : bool :=
  match v with
  | VUndefined | VNull => false
  | VBoolean b => b
  | VNumber x => Float64.truthy x
  | VString s => match s with [] => false | _ => true end
  | VObject _ | VArray _ => true
  end.

(** The own data property [k] of an object built by JSON.parse: of several
    members with the same name the last one is kept. *)
Fixpoint own_property (props : list (jsstring * value)) (k : jsstring)
  : option value :=
  match props with
  | [] => None
  | (k', v) :: props' =>
      match own_property props' k with
      | Some w => Some w
      | None => if strict_eq k' k then Some v else None
      end
  end.

(** A property key: [Name s] for [v.s], where [s] is [length] or a name
    that the built-in prototypes do not define (every name the source
    reads is one), and [Index i] for [v[i]]. *)
Inductive property_key :=
| Name (s : jsstring)
| Index (i : N).

Definition key_string (k : property_key) : jsstring :=
  match k with
  | Name s => s
  | Index i => Float64.decimal_digits (Z.of_N i)
  end.

(** A named property of a string or an array with [len] elements. *)
Definition length_or_undefined (n : jsstring) (len : nat) : value :=
  if strict_eq n (lit "length")
  then VNumber (Float64.of_Z (Z.of_nat len))
  else VUndefined.

(** The property read [v[k]]. *)
Definition Get (v : value) (k : property_key) : completion value :=
  match v with
  | VUndefined | VNull => Throw (EngineError TypeError)
  | VBoolean _ | VNumber _ => Normal VUndefined
  | VString s =>
      match k with
      | Index i =>
          match nth_error s (N.to_nat i) with
          | Some c => Normal (VString [c])
          | None => Normal VUndefined
          end
      | Name n => Normal (length_or_undefined n (List.length s))
      end
  | VArray elems =>
      match k with
      | Index i =>
          match nth_error elems (N.to_nat i) with
          | Some e => Normal e
          | None => Normal VUndefined
          end
      | Name n => Normal (length_or_undefined n (List.length elems))
      end
  | VObject props =>
      match own_property props (key_string k) with
      | Some w => Normal w
      | None => Normal VUndefined
      end
  end.

(** ToString.  An object whose own [toString] member hides
    Object.prototype.toString has no callable conversion left and the
    conversion throws; an array is joined with commas. *)
Fixpoint ToString (v : value) : completion jsstring :=
  match v with
  | VUndefined => Normal (lit "undefined")
  | VNull => Normal (lit "null")
  | VBoolean b => Normal (if b then lit "true" else lit "false")
  | VNumber x => Normal (Float64.to_string x)
  | VString s => Normal s
  | VObject props =>
      match own_property props (lit "toString") with
      | Some _ => Throw (EngineError TypeError)
      | None => Normal (lit "[object Object]")
      end
  | VArray elems =>
      let element e := if nullish e then Normal [] else ToString e in
      (fix join (l : list value) : completion jsstring :=
         match l with
         | [] => Normal []
         | e :: l' =>
             match element e with
             | Throw x => Throw x
             | Normal s =>
                 match l' with
                 | [] => Normal s
                 | _ =>
                     match join l' with
                     | Throw x => Throw x
                     | Normal r => Normal (s ++ lit "," ++ r)
                     end
                 end
             end
         end) elems
  end.

End JSValue.

(* ================================================================== *)
(** * JSON.parse *)
(* ================================================================== *)

Module JSON.

Import JSString.
Open Scope N_scope.

Inductive result (A : Type) :=
| Ok (a : A) (rest : jsstring)
| SyntaxErr
| OutOfFuel.
Arguments Ok {A} a rest.
Arguments SyntaxErr {A}.
Arguments OutOfFuel {A}.

Definition ch (a : ascii) : codeunit := N_of_ascii a.

(** JSON white space: tab, line feed, carriage return, space. *)
Definition is_ws (c : codeunit) : bool :=
  (c =? 0x09) || (c =? 0x0A) || (c =? 0x0D) || (c =? 0x20).

Fixpoint skip_ws (s : jsstring) : jsstring :=
  match s with
  | [] => []
  | c :: s' => if is_ws c then skip_ws s' else s
  end.

Definition is_digit (c : codeunit) : bool := (48 <=? c) && (c <=? 57).

Definition hex_value (c : codeunit) : option N :=
  if is_digit c then Some (c - 48)
  else if (65 <=? c) && (c <=? 70) then Some (c - 55)
  else if (97 <=? c) && (c <=? 102) then Some (c - 87)
  else None.

Definition hex4 (a b c d : codeunit) : option codeunit :=
  match hex_value a, hex_value b, hex_value c, hex_value d with
  | Some x, Some y, Some z, Some w => Some (((x * 16 + y) * 16 + z) * 16 + w)
  | _, _, _, _ => None
  end.

(** The character denoted by a single-character escape. *)
Definition simple_escape (c : codeunit) : option codeunit :=
  if c =? 34 then Some 34          (* quotation mark *)
  else if c =? 92 then Some 92     (* reverse solidus *)
  else if c =? 47 then Some 47     (* solidus *)
  else if c =? 98 then Some 8      (* b *)
  else if c =? 102 then Some 12    (* f *)
  else if c =? 110 then Some 10    (* n *)
  else if c =? 114 then Some 13    (* r *)
  else if c =? 116 then Some 9     (* t *)
  else None.

(** The characters of a string after its opening quotation mark: the
    string value and the text after the closing quotation mark. *)
Fixpoint parse_string_chars (s : jsstring) : option (jsstring * jsstring) :=
  match s with
  | [] => None
  | c :: s' =>
      if c =? 34 then Some ([], s')
      else if c =? 92 then
        match s' with
        | [] => None
        | e :: s'' =>
            if e =? 117 then
              match s'' with
              | h1 :: h2 :: h3 :: h4 :: s3 =>
                  match hex4 h1 h2 h3 h4, parse_string_chars s3 with
                  | Some u, Some (t, r) => Some (u :: t, r)
                  | _, _ => None
                  end
              | _ => None
              end
            else
              match simple_escape e, parse_string_chars s'' with
              | Some u, Some (t, r) => Some (u :: t, r)
              | _, _ => None
              end
        end
      else if c <? 0x20 then None
      else
        match parse_string_chars s' with
        | Some (t, r) => Some (c :: t, r)
        | None => None
        end
  end.

(** The longest prefix of digits and what follows it. *)
Fixpoint span_digits (s : jsstring) : jsstring * jsstring :=
  match s with
  | [] => ([], [])
  | c :: s' =>
      if is_digit c then let (ds, r) := span_digits s' in (c :: ds, r)
      else ([], s)
  end.

Definition digits_value (ds : jsstring) : Z :=
  fold_left (fun acc c => (acc * 10 + Z.of_N (c - 48))%Z) ds 0%Z.

(** The integer part: a single zero, or a nonzero digit and more digits. *)
Definition parse_int (s : jsstring) : option (jsstring * jsstring) :=
  match s with
  | [] => None
  | c :: s' =>
      if c =? 48 then Some ([c], s')
      else if is_digit c then let (ds, r) := span_digits s' in Some (c :: ds, r)
      else None
  end.

Definition parse_frac (s : jsstring) : option (jsstring * jsstring) :=
  match s with
  | c :: s' =>
      if c =? 46 then
        match span_digits s' with
        | ([], _) => None
        | (ds, r) => Some (ds, r)
        end
      else Some ([], s)
  | [] => Some ([], s)
  end.

Definition parse_exp (s : jsstring) : option (Z * jsstring) :=
  match s with
  | c :: s' =>
      if (c =? 101) || (c =? 69) then
        let (neg, s1) :=
          match s' with
          | g :: s'' =>
              if g =? 45 then (true, s'')
              else if g =? 43 then (false, s'') else (false, s')
          | [] => (false, s')
          end in
        match span_digits s1 with
        | ([], _) => None
        | (ds, r) =>
            Some ((if neg then - digits_value ds else digits_value ds)%Z, r)
        end
      else Some (0%Z, s)
  | [] => Some (0%Z, s)
  end.

(** A JSON number and its Number value. *)
Definition parse_number (s : jsstring) : option (Float64.float64 * jsstring) :=
  let (neg, s0) :=
    match s with
    | c :: s' => if c =? 45 then (true, s') else (false, s)
    | [] => (false, s)
    end in
  match parse_int s0 with
  | None => None
  | Some (ip, s1) =>
      match parse_frac s1 with
      | None => None
      | Some (fp, s2) =>
          match parse_exp s2 with
          | None => None
          | Some (ex, s3) =>
              Some (Float64.of_decimal neg (digits_value (ip ++ fp))
                      (ex - Z.of_nat (List.length fp))%Z, s3)
          end
      end
  end.

Definition keyword (s : jsstring) (w : string) (v : value) : result value :=
  if startsWith s (lit w) then Ok v (skipn (String.length w) s)
  else SyntaxErr.

(** A JSON value with the white space before it; the elements of an array
    after its opening bracket; the members of an object after its opening
    brace.  Every call uses up one unit of [fuel]. *)
Fixpoint parse_value (fuel : nat) (s : jsstring) : result value :=
  match fuel with
  | O => OutOfFuel
  | S fuel' =>
      match skip_ws s with
      | [] => SyntaxErr
      | c :: s' =>
          if c =? 123 then                         (* left brace *)
            match skip_ws s' with
            | [] => SyntaxErr
            | c2 :: s2 =>
                if c2 =? 125 then Ok (VObject []) s2
                else parse_members fuel' [] s'
            end
          else if c =? 91 then                     (* left bracket *)
            match skip_ws s' with
            | [] => SyntaxErr
            | c2 :: s2 =>
                if c2 =? 93 then Ok (VArray []) s2
                else parse_elements fuel' [] s'
            end
          else if c =? 34 then
            match parse_string_chars s' with
            | Some (t, r) => Ok (VString t) r
            | None => SyntaxErr
            end
          else if c =? 116 then keyword (c :: s') "true" (VBoolean true)
          else if c =? 102 then keyword (c :: s') "false" (VBoolean false)
          else if c =? 110 then keyword (c :: s') "null" VNull
          else if (c =? 45) || is_digit c then
            match parse_number (c :: s') with
            | Some (x, r) => Ok (VNumber x) r
            | None => SyntaxErr
            end
          else SyntaxErr
      end
  end

with parse_elements (fuel : nat) (acc : list value) (s : jsstring)
  : result value :=
  match fuel with
  | O => OutOfFuel
  | S fuel' =>
      match parse_value fuel' s with
      | Ok v r =>
          match skip_ws r with
          | [] => SyntaxErr
          | c :: r' =>
              if c =? 44 then parse_elements fuel' (v :: acc) r'
              else if c =? 93 then Ok (VArray (rev (v :: acc))) r'
              else SyntaxErr
          end
      | SyntaxErr => SyntaxErr
      | OutOfFuel => OutOfFuel
      end
  end

with parse_members (fuel : nat) (acc : list (jsstring * value)) (s : jsstring)
  : result value :=
  match fuel with
  | O => OutOfFuel
  | S fuel' =>
      match skip_ws s with
      | [] => SyntaxErr
      | q :: s1 =>
          if q =? 34 then
            match parse_string_chars s1 with
            | None => SyntaxErr
            | Some (k, r) =>
                match skip_ws r with
                | [] => SyntaxErr
                | c :: r1 =>
                    if c =? 58 then
                      match parse_value fuel' r1 with
                      | Ok v r2 =>
                          match skip_ws r2 with
                          | [] => SyntaxErr
                          | d :: r3 =>
                              if d =? 44
                              then parse_members fuel' ((k, v) :: acc) r3
                              else if d =? 125
                              then Ok (VObject (rev ((k, v) :: acc))) r3
                              else SyntaxErr
                          end
                      | SyntaxErr => SyntaxErr
                      | OutOfFuel => OutOfFuel
                      end
                    else SyntaxErr
                end
            end
          else SyntaxErr
      end
  end.

(** Enough fuel for a text: two units for each code unit and one more. *)
Definition fuel_for (text : jsstring) : nat := S (2 * List.length text).

(** [JSON.parse(text)]: the value, or a SyntaxError.  The fuel always
    suffices ([JSON_parse_total] below). *)
Definition parse (text : jsstring) : completion value :=
  match parse_value (fuel_for text) text with
  | Ok v rest =>
      match skip_ws rest with
      | [] => Normal v
      | _ :: _ => Throw (EngineError SyntaxError)
      end
  | SyntaxErr | OutOfFuel => Throw (EngineError SyntaxError)
  end.

End JSON.

(* ================================================================== *)
(** * src/app/api/chat/route.js: the stream parser *)
(* ================================================================== *)

Module Route.

Import JSString JSValue.

(** What the code does to its surroundings, in the order it does it. *)
Inductive log_arg :=
| LogString (s : jsstring)
| LogError (e : exn).

Inductive effect :=
| Enqueue (chunk : bytes)               (* controller.enqueue(chunk) *)
| ConsoleError (args : list log_arg).   (* console.error(...args) *)

(** The store of one parser: the [buffer] variable that the closure
    captures, the [textDecoder] object it was given, and the effects so
    far on the controller and the console. *)
Record world := {
  buffer : jsstring;
  textDecoder : Encoding.TextDecoder;
  effects : list effect
}.

(** Computations that read and write the store and may throw. *)
Definition M (A : Type) : Type := world -> completion A * world.

Definition ret (A : Type) (a : A) : M A := fun w => (Normal a, w).

Definition bind (A B : Type) (m : M A) (k : A -> M B) : M B :=
  fun w =>
    match m w with
    | (Normal a, w') => k a w'
    | (Throw e, w') => (Throw e, w')
    end.

Definition lift (A : Type) (c : completion A) : M A := fun w => (c, w).

(** [try { body } catch (error) { handler }] *)
Definition try_catch (A : Type) (body : M A) (handler : exn -> M A) : M A :=
  fun w =>
    match body w with
    | (Normal a, w') => (Normal a, w')
    | (Throw e, w') => handler e w'
    end.

Declare Scope js_scope.
Delimit Scope js_scope with js.
Notation "x <- m ;; k" := (bind m (fun x => k))
  (at level 61, m at next level, right associativity) : js_scope.
Notation "m ;; k" := (bind m (fun _ => k))
  (at level 61, right associativity) : js_scope.

(** The same sequencing for expressions that only compute. *)
Definition and_then (A B : Type) (c : completion A) (k : A -> completion B)
  : completion B :=
  match c with
  | Normal a => k a
  | Throw e => Throw e
  end.

(** [base?.k]: undefined when [base] is null or undefined. *)
Definition optional_get (base : completion value) (k : property_key)
  : completion value :=
  and_then base (fun b => if nullish b then Normal VUndefined else Get b k).

(** [a || b]; [b] is evaluated only when [a] is falsy. *)
Definition logical_or (a : completion value) (b : completion value)
  : completion value :=
  and_then a (fun v => if ToBoolean v then Normal v else b).

(** [data.choices?.[0]?.delta?.content] *)
Definition choices_0_delta_content (data : value) : completion value :=
  optional_get
    (optional_get
       (optional_get (Get data (Name (lit "choices"))) (Index 0))
       (Name (lit "delta")))
    (Name (lit "content")).

(** [data.message?.content] *)
Definition message_content (data : value) : completion value :=
  optional_get (Get data (Name (lit "message"))) (Name (lit "content")).

(** [data.response] *)
Definition response (data : value) : completion value :=
  Get data (Name (lit "response")).

(** [data.choices?.[0]?.delta?.content || data.message?.content ||
     data.response || (the empty string)] *)
Definition content_of (data : value) : completion value :=
  logical_or
    (logical_or
       (logical_or (choices_0_delta_content data) (message_content data))
       (response data))
    (Normal (VString [])).

(** [new TextEncoder().encode(content)]: the argument is converted to a
    string first. *)
Definition TextEncoder_encode (content : value) : completion bytes :=
  and_then (ToString content) (fun s => Normal (Encoding.encode s)).

(** The controller is taken to accept every chunk. *)
Definition controller_enqueue (chunk : bytes) : M unit :=
  fun w => (Normal tt,
            {| buffer := buffer w; textDecoder := textDecoder w;
               effects := effects w ++ [Enqueue chunk] |}).

Definition console_error (args : list log_arg) : M unit :=
  fun w => (Normal tt,
            {| buffer := buffer w; textDecoder := textDecoder w;
               effects := effects w ++ [ConsoleError args] |}).

Definition get_buffer : M jsstring := fun w => (Normal (buffer w), w).

Definition set_buffer (b : jsstring) : M unit :=
  fun w => (Normal tt,
            {| buffer := b; textDecoder := textDecoder w;
               effects := effects w |}).

(** [textDecoder.decode(chunk, { stream: true })] *)
Definition textDecoder_decode (chunk : bytes) : M jsstring :=
  fun w =>
    let (t, s) := Encoding.decode (textDecoder w) chunk in
    (Normal s, {| buffer := buffer w; textDecoder := t;
                  effects := effects w |}).

Definition DONE : jsstring := lit "data: [DONE]".
Definition data_prefix : jsstring := lit "data: ".

Open Scope js_scope.

(** The body of the [try] block for one data line. *)
Definition try_body (trimmedLine : jsstring) : M unit :=
  data <- lift (JSON.parse (slice 6 trimmedLine)) ;;
  content <- lift (content_of data) ;;
  if ToBoolean content then
    chunk <- lift (TextEncoder_encode content) ;;
    controller_enqueue chunk
  else ret tt.

Definition catch_handler (trimmedLine : jsstring) (error : exn) : M unit :=
  console_error [LogString (lit "Error parsing SSE message:");
                 LogString trimmedLine] ;;
  console_error [LogString (lit "Parse error:"); LogError error].

(** [for (const line of lines) { ... }]; the [return] inside the loop ends
    the call of [parse]. *)
Fixpoint for_lines (lines : list jsstring) : M unit :=
  match lines with
  | [] => ret tt
  | line :: lines' =>
      let trimmedLine := trim line in
      match trimmedLine with
      | [] => for_lines lines'                                (* continue *)
      | _ :: _ =>
          if strict_eq trimmedLine DONE then ret tt           (* return *)
          else
            (if startsWith trimmedLine data_prefix
             then try_catch (try_body trimmedLine) (catch_handler trimmedLine)
             else ret tt) ;;
            for_lines lines'
      end
  end.

(** [lines.pop()], or the empty string when that is falsy, and the array
    as [pop] leaves it. *)
Definition pop_or_empty (lines : list jsstring) : jsstring * list jsstring :=
  match pop lines with
  | (Some ((_ :: _) as l), rest) => (l, rest)
  | (_, rest) => ([], rest)
  end.

(** The function [parse] that [createParser] returns. *)
Definition parse (chunk : bytes) : M unit :=
  text <- textDecoder_decode chunk ;;
  old <- get_buffer ;;
  set_buffer (old ++ text) ;;
  b <- get_buffer ;;
  let lines := split_lines b in
  let (last_line, lines) := pop_or_empty lines in
  set_buffer last_line ;;
  for_lines lines.

(** [createParser(textDecoder, controller)]: the store the returned
    closure starts from. *)
Definition createParser (textDecoder : Encoding.TextDecoder) : world :=
  {| buffer := []; textDecoder := textDecoder; effects := [] |}.

(** The transform stream of [POST]: [start] creates the parser and
    [transform] hands it every chunk, in order. *)
Fixpoint transform (chunks : list bytes) : M unit :=
  match chunks with
  | [] => ret tt
  | chunk :: chunks' => parse chunk ;; transform chunks'
  end.

Definition pipeThrough (body : list bytes) : completion unit * world :=
  transform body (createParser Encoding.new_TextDecoder).

(** The chunks enqueued on the controller: the content deltas. *)
Fixpoint enqueued (es : list effect) : list bytes :=
  match es with
  | [] => []
  | Enqueue chunk :: es' => chunk :: enqueued es'
  | ConsoleError _ :: es' => enqueued es'
  end.

Definition deltas (body : list bytes) : list bytes :=
  enqueued (effects (snd (pipeThrough body))).

Close Scope js_scope.

(** ** What a call of [parse] amounts to *)

(** The effects of the [try] statement on a data line. *)
Definition frame_effects (trimmedLine : jsstring) : list effect :=
  match
    and_then (JSON.parse (slice 6 trimmedLine)) (fun data =>
    and_then (content_of data) (fun content =>
    if ToBoolean content
    then and_then (TextEncoder_encode content)
                  (fun chunk => Normal [Enqueue chunk])
    else Normal []))
  with
  | Normal es => es
  | Throw error =>
      [ConsoleError [LogString (lit "Error parsing SSE message:");
                     LogString trimmedLine];
       ConsoleError [LogString (lit "Parse error:"); LogError error]]
  end.

(** The two calls of the [catch] block. *)
Definition logged (trimmedLine : jsstring) (error : exn) : list effect :=
  [ConsoleError [LogString (lit "Error parsing SSE message:");
                 LogString trimmedLine];
   ConsoleError [LogString (lit "Parse error:"); LogError error]].

Definition is_DONE (line : jsstring) : bool := strict_eq (trim line) DONE.

(** The effects of one pass of the loop body on a line other than the
    sentinel. *)
Definition line_effects (line : jsstring) : list effect :=
  let trimmedLine := trim line in
  match trimmedLine with
  | [] => []
  | _ :: _ =>
      if startsWith trimmedLine data_prefix then frame_effects trimmedLine
      else []
  end.

(** The effects of the loop on an array of lines. *)
Fixpoint lines_effects (lines : list jsstring) : list effect :=
  match lines with
  | [] => []
  | line :: lines' =>
      if is_DONE line then []
      else line_effects line ++ lines_effects lines'
  end.

(** The lines before and after the first sentinel line. *)
Fixpoint before_DONE (lines : list jsstring) : list jsstring :=
  match lines with
  | [] => []
  | line :: lines' => if is_DONE line then [] else line :: before_DONE lines'
  end.

Fixpoint after_DONE (lines : list jsstring) : list jsstring :=
  match lines with
  | [] => []
  | line :: lines' => if is_DONE line then lines' else after_DONE lines'
  end.

(** The content deltas of a line. *)
Definition line_deltas (line : jsstring) : list bytes :=
  enqueued (line_effects line).

Definition LF_free (s : jsstring) : bool :=
  forallb (fun c => negb (N.eqb c LF)) s.

(** The complete lines of [cur ++ s], where [cur] holds no line feed, and
    the segment after the last line feed. *)
Fixpoint scan (cur s : jsstring) : list jsstring * jsstring :=
  match s with
  | [] => ([], cur)
  | c :: s' =>
      if N.eqb c LF then let (ls, r) := scan [] s' in (cur :: ls, r)
      else scan (cur ++ [c]) s'
  end.

(** The array [lines] that a call of [parse] hands to its loop. *)
Definition dispatched (w : world) (chunk : bytes) : list jsstring :=
  snd (pop_or_empty
         (split_lines (buffer w ++ snd (Encoding.decode (textDecoder w) chunk)))).

(** The text that a byte stream decodes to, read from its start. *)
Definition decoded (stream : bytes) : jsstring :=
  snd (Encoding.decode Encoding.new_TextDecoder stream).

(** The store with further effects recorded. *)
Definition add_effects (w : world) (es : list effect) : world :=
  {| buffer := buffer w; textDecoder := textDecoder w;
     effects := effects w ++ es |}.

(** The texts that the chunks decode to, one after the other. *)
Fixpoint decode_chunks (t : Encoding.TextDecoder) (chunks : list bytes)
  : list jsstring :=
  match chunks with
  | [] => []
  | chunk :: chunks' =>
      snd (Encoding.decode t chunk)
      :: decode_chunks (fst (Encoding.decode t chunk)) chunks'
  end.

(** The effects of the calls of [parse] that receive these texts, the
    first one with [cur] in the buffer. *)
Fixpoint feed_effects (cur : jsstring) (texts : list jsstring) : list effect :=
  match texts with
  | [] => []
  | text :: texts' =>
      lines_effects (fst (scan cur text))
      ++ feed_effects (snd (scan cur text)) texts'
  end.

(** A line that yields no content delta. *)
Definition silent (line : jsstring) : bool :=
  match line_deltas line with
  | [] => true
  | _ :: _ => false
  end.

(** ** Streams of frames *)

(** Lines, each ended by a line feed. *)
Definition unlines (lines : list jsstring) : jsstring :=
  flat_map (fun l => l ++ [LF]) lines.

(** A data frame on the wire: the [data: ] line and the blank line that
    ends the event. *)
Definition frame (payload : jsstring) : jsstring :=
  data_prefix ++ payload ++ [LF; LF].

(** Data frames followed by the terminal sentinel. *)
Definition serialize (payloads : list jsstring) : jsstring :=
  flat_map frame payloads ++ DONE ++ [LF; LF].

(** The lines of a sequence of data frames. *)
Definition frame_lines (payloads : list jsstring) : list jsstring :=
  flat_map (fun p => [data_prefix ++ p; []]) payloads.

(** The line of the malformed-frame scenario. *)
Definition malformed_line : jsstring := lit "data: {not valid json".

(** The value of a streamed object of the local inference server with
    nothing but its content, [{ message: { content: c } }]. *)
Definition message_object (c : jsstring) : value :=
  VObject [(lit "message", VObject [(lit "content", VString c)])].

(** A value in the shape of the local inference server: [message.content]
    is the string [c], whatever further members there are ([model],
    [done], a [role] in the message, ...), and [c] is the content it has:
    the first choice has no delta content and, when [c] is empty, there
    is no response text either. *)
Definition message_shaped (data : value) (c : jsstring) : Prop :=
  message_content data = Normal (VString c)
  /\ (exists a, choices_0_delta_content data = Normal a /\ ToBoolean a = false)
  /\ (c = [] -> exists r, response data = Normal r /\ ToBoolean r = false).

(** A line of newline-delimited JSON that holds such an object: the line
    has no white space at its end and is a JSON text for it. *)
Definition message_line (o c : jsstring) : Prop :=
  LF_free o = true /\ trimEnd o = o
  /\ exists data, JSON.parse o = Normal data /\ message_shaped data c.

(** The delta for a content string: none for the empty string. *)
Definition content_delta (c : jsstring) : list bytes :=
  match c with
  | [] => []
  | _ :: _ => [Encoding.encode c]
  end.

(** The fallback order in the words of the specification: of the first
    choice's delta content, the message content and the response text, the
    first one that is not empty, if there is one. *)
Definition first_non_empty (a b c : value) : option value :=
  if ToBoolean a then Some a
  else if ToBoolean b then Some b
  else if ToBoolean c then Some c
  else None.

(** The content deltas of the data line with this payload. *)
Definition payload_deltas (payload : jsstring) : list bytes :=
  line_deltas (data_prefix ++ payload).

(** The characters a JSON value can start with. *)
Definition value_start (c : codeunit) : bool :=
  N.eqb c 123 || N.eqb c 91 || N.eqb c 34 || N.eqb c 116 || N.eqb c 102
  || N.eqb c 110 || N.eqb c 45 || JSON.is_digit c.

(** A payload that stays on its line and whose line is not the sentinel. *)
Definition valid_payload (payload : jsstring) : bool :=
  LF_free payload && negb (is_DONE (data_prefix ++ payload)).

(** The text content that the frame with this payload carries: its payload,
    as [parse] cuts it from the line, is a JSON text whose content is a
    non-empty string. *)
Definition frame_content (payload : jsstring) : option jsstring :=
  match JSON.parse (slice 6 (trim (data_prefix ++ payload))) with
  | Normal data =>
      match content_of data with
      | Normal (VString ((_ :: _) as c)) => Some c
      | _ => None
      end
  | Throw _ => None
  end.

Definition carries (payload content : jsstring) : bool :=
  LF_free payload &&
  match frame_content payload with
  | Some c => strict_eq c content
  | None => false
  end.

(** ** The [POST] handler *)

(** The body of the request as [req.json()] delivers it: [messages] is an
    array; the other fields are passed on as they are. *)
Record request := {
  messages : list value;
  model : value;
  temperature : value;
  contextWindow : value;
  systemPrompt : value;
  stream : value
}.

(** What [fetch] is called with: the URL, the Authorization header when
    one is set, and the object that JSON.stringify turns into the body. *)
Record fetch_request := {
  url : jsstring;
  authorization : option jsstring;
  fetch_body : value
}.

(** The response of an upstream server: [response.ok], what
    [response.text()] and [response.json()] settle to, and the chunks that
    [response.body] delivers ([None] for a null body). *)
Record upstream_response := {
  ok : bool;
  text : completion jsstring;
  json : completion value;
  body : option (list bytes)
}.

(** What the handler returns: [NextResponse.json(body, { status })], or a
    [StreamingTextResponse] with the chunks its stream delivers. *)
Inductive http_response :=
| NextResponse_json (body : value) (status : N)
| StreamingTextResponse (chunks : list bytes).

(** [x || d] on an environment variable. *)
Definition or_default (x : option jsstring) (d : jsstring) : jsstring :=
  match x with
  | Some ((_ :: _) as s) => s
  | _ => d
  end.

(** An environment variable inside a template literal. *)
Definition interpolate (x : option jsstring) : jsstring :=
  match x with
  | Some s => s
  | None => lit "undefined"
  end.

Section Handler.

(** [process.env]; the message text of the errors that the engine raises;
    the settlement of [req.json()]; and [fetch].  Console output of the
    handler is left out. *)
Variable env : jsstring -> option jsstring.
Variable engine_message : error_kind -> jsstring.
Variable req_json : completion request.
Variable fetch : fetch_request -> completion upstream_response.

(** The fields of [CONFIG] (config/constants.js) that the handler reads. *)
Definition API_BASE_URL : jsstring :=
  or_default (env (lit "NEXT_PUBLIC_API_BASE_URL")) (lit "http://localhost:11434").

Definition CONTEXT_INJECTION : bool :=
  match env (lit "NEXT_PUBLIC_CONTEXT_INJECTION") with
  | Some s => strict_eq s (lit "true")
  | None => false
  end.

Definition SEMANTIC_SEARCH_API : jsstring :=
  or_default (env (lit "NEXT_PUBLIC_SEMANTIC_SEARCH_API"))
             (lit "http://localhost:8000/search").

Definition new_Error (message : jsstring) : exn :=
  ErrorObject (lit "Error") message.

Definition performSemanticSearch (query : value) : value :=
  match
    and_then (fetch {| url := SEMANTIC_SEARCH_API; authorization := None;
                       fetch_body := VObject [(lit "query", query)] |})
      (fun response =>
         if negb (ok response)
         then Throw (new_Error (lit "Semantic search failed"))
         else and_then (json response) (fun data =>
              logical_or (Get data (Name (lit "context")))
                         (Normal (VString []))))
  with
  | Normal context => context
  | Throw _ => VString []
  end.

Definition message (role : string) (content : value) : value :=
  VObject [(lit "role", VString (lit role)); (lit "content", content)].

(** [messages[messages.length - 1]] *)
Definition last_message (messages : list value) : value :=
  last messages VUndefined.

Definition provider : jsstring :=
  or_default (env (lit "NEXT_PUBLIC_DEFAULT_PROVIDER")) (lit "ollama").

Definition ollama_url : jsstring :=
  API_BASE_URL ++ lit "/v1/chat/completions".

Definition cf_url : jsstring :=
  lit "https://gateway.ai.cloudflare.com/v1/"
  ++ interpolate (env (lit "CLOUDFLARE_ACCOUNT_ID"))
  ++ lit "/openai-compatability/workers-ai/v1/chat/completions".

(** The URL of the chat completion call. *)
Definition upstream_url : jsstring :=
  if strict_eq provider (lit "ollama") then ollama_url else cf_url.

Definition chat_body (r : request) (finalMessages : list value) : value :=
  VObject [(lit "model", model r);
           (lit "messages", VArray finalMessages);
           (lit "stream", stream r);
           (lit "temperature", temperature r);
           (lit "max_tokens", contextWindow r)].

(** The [try] block of [POST]. *)
Definition POST_try : completion http_response :=
  and_then req_json (fun r =>
  and_then
    (if CONTEXT_INJECTION
     then and_then (Get (last_message (messages r)) (Name (lit "content")))
            (fun lastUserMessage => Normal (performSemanticSearch lastUserMessage))
     else Normal (VString []))
    (fun additionalContext =>
  and_then
    (if ToBoolean additionalContext
     then and_then (ToString additionalContext) (fun c =>
          Normal (removelast (messages r)
                  ++ [message "system" (VString (lit "Additional context: " ++ c));
                      last_message (messages r)]))
     else Normal (messages r))
    (fun contextEnhancedMessages =>
  let finalMessages :=
    if ToBoolean (systemPrompt r)
    then message "system" (systemPrompt r) :: contextEnhancedMessages
    else contextEnhancedMessages in
  if strict_eq provider (lit "ollama") then
    and_then (fetch {| url := ollama_url; authorization := None;
                       fetch_body := chat_body r finalMessages |})
      (fun response =>
         if negb (ok response) then
           and_then (text response) (fun errorData =>
           Throw (new_Error (lit "Ollama API error: " ++ errorData)))
         else if ToBoolean (stream r) then
           match body response with
           | None => Throw (EngineError TypeError)
           | Some chunks => Normal (StreamingTextResponse (deltas chunks))
           end
         else
           and_then (json response) (fun data =>
           and_then (Get data (Name (lit "message"))) (fun m =>
           and_then (Get m (Name (lit "content"))) (fun c =>
           Normal (NextResponse_json (VObject [(lit "content", c)]) 200)))))
  else
    and_then (fetch {| url := cf_url;
                       authorization :=
                         Some (lit "Bearer "
                               ++ interpolate (env (lit "CLOUDFLARE_BEARER_TOKEN")));
                       fetch_body := chat_body r finalMessages |})
      (fun response =>
         if negb (ok response) then
           and_then (text response) (fun errorData =>
           Throw (new_Error (lit "Cloudflare API error: " ++ errorData)))
         else if ToBoolean (stream r) then
           match body response with
           | None => Throw (EngineError TypeError)
           | Some chunks => Normal (StreamingTextResponse (deltas chunks))
           end
         else
           and_then (json response) (fun data =>
           and_then (Get data (Name (lit "choices"))) (fun cs =>
           and_then (Get cs (Index 0)) (fun c0 =>
           and_then (Get c0 (Name (lit "message"))) (fun m =>
           and_then (Get m (Name (lit "content"))) (fun c =>
           Normal (NextResponse_json (VObject [(lit "content", c)]) 200)))))))))).

(** [error.message] and [error.name] *)
Definition error_message (error : exn) : jsstring :=
  match error with
  | EngineError k => engine_message k
  | ErrorObject _ m => m
  end.

Definition error_name (error : exn) : jsstring :=
  match error with
  | EngineError TypeError => lit "TypeError"
  | EngineError SyntaxError => lit "SyntaxError"
  | ErrorObject n _ => n
  end.

(** [error.toString()] (Error.prototype.toString) *)
Definition error_toString (error : exn) : jsstring :=
  match error_name error, error_message error with
  | [], m => m
  | n, [] => n
  | n, m => n ++ lit ": " ++ m
  end.

(** [error.message || "An unexpected error occurred"] *)
Definition message_or_default (error : exn) : jsstring :=
  match error_message error with
  | [] => lit "An unexpected error occurred"
  | m => m
  end.

Definition POST : http_response :=
  match POST_try with
  | Normal response => response
  | Throw error =>
      NextResponse_json
        (VObject [(lit "error", VString (message_or_default error));
                  (lit "details", VString (error_toString error))])
        500
  end.

End Handler.

End Route.

(* ================================================================== *)
(** * src/app/api/chat/route.js: transformCloudflareStream *)
(* ================================================================== *)

Module Cloudflare.

Import JSString JSValue Route.

(** The stream that is read: the chunks that [reader.read()] delivers and
    how the reading ends, with [done] ([None]) or with a rejection.  The
    stream is taken to be unlocked, so that [getReader()] succeeds, and
    the reader of the result is taken not to cancel it. *)
Record source := {
  reads : list bytes;
  ending : option exn
}.

(** The state of the readable stream behind the controller. *)
Inductive stream_state :=
| Readable
| Closed
| Errored (e : exn).

Inductive cf_effect :=
| CfEnqueue (chunk : bytes)              (* controller.enqueue(chunk) *)
| CfConsoleError (args : list log_arg)   (* console.error(...args) *)
| CfError (e : exn)                      (* controller.error(e) *)
| CfClose.                               (* controller.close() *)

(** The store of one call of [start]: the [textDecoder] object, the state
    of the stream, and the effects so far. *)
Record cf_world := {
  cf_textDecoder : Encoding.TextDecoder;
  cf_state : stream_state;
  cf_effects : list cf_effect
}.

Definition C (A : Type) : Type := cf_world -> completion A * cf_world.

Definition cf_ret (A : Type) (a : A) : C A := fun w => (Normal a, w).

Definition cf_bind (A B : Type) (m : C A) (k : A -> C B) : C B :=
  fun w =>
    match m w with
    | (Normal a, w') => k a w'
    | (Throw e, w') => (Throw e, w')
    end.

Definition cf_lift (A : Type) (c : completion A) : C A := fun w => (c, w).

(** [try { body } catch (error) { handler }] *)
Definition cf_try_catch (A : Type) (body : C A) (handler : exn -> C A) : C A :=
  fun w =>
    match body w with
    | (Normal a, w') => (Normal a, w')
    | (Throw e, w') => handler e w'
    end.

(** [try { body } finally { final }]: a throw of [final] replaces the
    completion of [body]. *)
Definition cf_try_finally (A : Type) (body : C A) (final : C unit) : C A :=
  fun w =>
    match body w with
    | (r, w') =>
        match final w' with
        | (Normal _, w'') => (r, w'')
        | (Throw e, w'') => (Throw e, w'')
        end
    end.

Definition record (e : cf_effect) (w : cf_world) : cf_world :=
  {| cf_textDecoder := cf_textDecoder w; cf_state := cf_state w;
     cf_effects := cf_effects w ++ [e] |}.

Definition set_state (s : stream_state) (w : cf_world) : cf_world :=
  {| cf_textDecoder := cf_textDecoder w; cf_state := s;
     cf_effects := cf_effects w |}.

(** [controller.enqueue(chunk)]: a TypeError unless the stream is
    readable. *)
Definition cf_enqueue (chunk : bytes) : C unit :=
  fun w =>
    match cf_state w with
    | Readable => (Normal tt, record (CfEnqueue chunk) w)
    | _ => (Throw (EngineError TypeError), w)
    end.

(** [controller.error(e)]: nothing unless the stream is readable. *)
Definition cf_error (e : exn) : C unit :=
  fun w =>
    match cf_state w with
    | Readable => (Normal tt, set_state (Errored e) (record (CfError e) w))
    | _ => (Normal tt, w)
    end.

(** [controller.close()]: a TypeError unless the stream is readable. *)
Definition cf_close : C unit :=
  fun w =>
    match cf_state w with
    | Readable => (Normal tt, set_state Closed (record CfClose w))
    | _ => (Throw (EngineError TypeError), w)
    end.

Definition cf_console_error (args : list log_arg) : C unit :=
  fun w => (Normal tt, record (CfConsoleError args) w).

(** [textDecoder.decode(value, { stream: true })] *)
Definition cf_decode (value : bytes) : C jsstring :=
  fun w =>
    let (t, s) := Encoding.decode (cf_textDecoder w) value in
    (Normal s, {| cf_textDecoder := t; cf_state := cf_state w;
                  cf_effects := cf_effects w |}).

(** [parsed.choices?.[0]?.delta?.content || (the empty string)] *)
Definition cf_content_of (parsed : value) : completion value :=
  logical_or (choices_0_delta_content parsed) (Normal (VString [])).

(** The inner [try] block and its [catch]. *)
Definition cf_try_body (data : jsstring) : C unit :=
  cf_bind (cf_lift (JSON.parse data)) (fun parsed =>
  cf_bind (cf_lift (cf_content_of parsed)) (fun content =>
  if ToBoolean content then
    cf_bind (cf_lift (TextEncoder_encode content)) (fun chunk =>
    cf_enqueue chunk)
  else cf_ret tt)).

Definition cf_catch_handler (error : exn) : C unit :=
  cf_console_error [LogString (lit "Error parsing SSE data:"); LogError error].

(** [for (const line of lines) { ... }] *)
Fixpoint cf_for_lines (lines : list jsstring) : C unit :=
  match lines with
  | [] => cf_ret tt
  | line :: lines' =>
      if startsWith line data_prefix then
        let data := slice 6 line in
        if strict_eq data (lit "[DONE]") then cf_for_lines lines'   (* continue *)
        else
          cf_bind (cf_try_catch (cf_try_body data) cf_catch_handler)
                  (fun _ => cf_for_lines lines')
      else cf_for_lines lines'
  end.

(** [chunk.split("\n").filter((line) => line.trim())] *)
Definition non_blank_lines (chunk : jsstring) : list jsstring :=
  filter (fun line => match trim line with [] => false | _ :: _ => true end)
         (split_lines chunk).

(** The [while (true)] loop over the reads. *)
Fixpoint cf_read_loop (reads : list bytes) (ending : option exn) : C unit :=
  match reads with
  | [] =>
      match ending with
      | None => cf_ret tt                       (* done: break *)
      | Some e => cf_lift (Throw e)             (* reader.read() rejects *)
      end
  | value :: reads' =>
      cf_bind (cf_decode value) (fun chunk =>
      cf_bind (cf_for_lines (non_blank_lines chunk)) (fun _ =>
      cf_read_loop reads' ending))
  end.

(** [start(controller)] *)
Definition start (stream : source) : C unit :=
  cf_try_finally
    (cf_try_catch
       (cf_read_loop (reads stream) (ending stream))
       (fun error =>
          cf_bind (cf_console_error
                     [LogString (lit "Error processing stream:"); LogError error])
                  (fun _ => cf_error error)))
    cf_close.

(** [transformCloudflareStream(stream)]: how [start] completes and the
    store it leaves. *)
Definition transformCloudflareStream (stream : source)
  : completion unit * cf_world :=
  start stream {| cf_textDecoder := Encoding.new_TextDecoder;
                  cf_state := Readable; cf_effects := [] |}.

(** The chunks that reach the readable side. *)
Fixpoint cf_enqueued (es : list cf_effect) : list bytes :=
  match es with
  | [] => []
  | CfEnqueue chunk :: es' => chunk :: cf_enqueued es'
  | _ :: es' => cf_enqueued es'
  end.

Definition cf_deltas (stream : source) : list bytes :=
  cf_enqueued (cf_effects (snd (transformCloudflareStream stream))).

(** ** What the loop amounts to on a readable stream *)

Definition cf_frame_effects (data : jsstring) : list cf_effect :=
  match
    and_then (JSON.parse data) (fun parsed =>
    and_then (cf_content_of parsed) (fun content =>
    if ToBoolean content
    then and_then (TextEncoder_encode content)
                  (fun chunk => Normal [CfEnqueue chunk])
    else Normal []))
  with
  | Normal es => es
  | Throw error =>
      [CfConsoleError [LogString (lit "Error parsing SSE data:");
                       LogError error]]
  end.

Definition cf_line_effects (line : jsstring) : list cf_effect :=
  if startsWith line data_prefix then
    if strict_eq (slice 6 line) (lit "[DONE]") then []
    else cf_frame_effects (slice 6 line)
  else [].

Definition cf_text_effects (chunk : jsstring) : list cf_effect :=
  flat_map cf_line_effects (non_blank_lines chunk).

Definition cf_line_deltas (line : jsstring) : list bytes :=
  cf_enqueued (cf_line_effects line).

End Cloudflare.

(* ================================================================== *)
(** * src/app/api/models/route.js and config/constants.js *)
(* ================================================================== *)

Module Models.

Import JSString JSValue Route.

(** [CONFIG.DEFAULT_MODELS] *)
Definition DEFAULT_MODELS : list jsstring :=
  [lit "@cf/deepseek-ai/deepseek-r1-distill-qwen-32b";
   lit "@cf/meta/llama-2-7b-chat-int8";
   lit "@cf/mistral/mistral-7b-instruct-v0.1";
   lit "deepseek-r1:latest";
   lit "@cf/meta/llama-3.3-70b-instruct-fp8-fast";
   lit "mistral:latest"].

Definition default_models_response : http_response :=
  NextResponse_json (VArray (map VString DEFAULT_MODELS)) 200.

(** [f] on every element in order, up to the first throw. *)
Fixpoint map_elements (f : value -> completion value) (elems : list value)
  : completion (list value) :=
  match elems with
  | [] => Normal []
  | e :: elems' =>
      and_then (f e) (fun x =>
      and_then (map_elements f elems') (fun xs => Normal (x :: xs)))
  end.

(** [v.map(f)]: only an array has the method; on null and undefined the
    property read throws, on the other values the call does. *)
Definition Array_map (v : value) (f : value -> completion value)
  : completion value :=
  match v with
  | VArray elems => and_then (map_elements f elems) (fun xs => Normal (VArray xs))
  | _ => Throw (EngineError TypeError)
  end.

Section ModelsHandler.

Variable env : jsstring -> option jsstring.
Variable fetch : fetch_request -> completion upstream_response.

(** [fetch(`${CONFIG.API_BASE_URL}/api/tags`)], a call without options. *)
Definition tags_request : fetch_request :=
  {| url := API_BASE_URL env ++ lit "/api/tags"; authorization := None;
     fetch_body := VUndefined |}.

(** The [try] block of [GET]; console output is left out. *)
Definition GET_try : completion http_response :=
  if strict_eq (provider env) (lit "ollama") then
    and_then (fetch tags_request) (fun response =>
    if negb (ok response)
    then Throw (new_Error (lit "Failed to fetch models from Ollama"))
    else
      and_then (json response) (fun data =>
      and_then (Get data (Name (lit "models"))) (fun ms =>
      and_then (Array_map ms (fun model => Get model (Name (lit "name"))))
        (fun models => Normal (NextResponse_json models 200)))))
  else Normal default_models_response.

Definition GET : http_response :=
  match GET_try with
  | Normal response => response
  | Throw _ => default_models_response
  end.

End ModelsHandler.

End Models.

(* ================================================================== *)
(** * src/app/api/chat/route.js: the steps of POST *)
(* ================================================================== *)

Module Chat.

Import JSString JSValue Route.

Section Steps.

Variable env : jsstring -> option jsstring.
Variable fetch : fetch_request -> completion upstream_response.

(** The request of [performSemanticSearch]. *)
Definition search_request (query : value) : fetch_request :=
  {| url := SEMANTIC_SEARCH_API env; authorization := None;
     fetch_body := VObject [(lit "query", query)] |}.

(** [additionalContext] after the first [if] of the handler. *)
Definition additionalContext_of (r : request) : completion value :=
  if CONTEXT_INJECTION env
  then and_then (Get (last_message (messages r)) (Name (lit "content")))
         (fun lastUserMessage =>
            Normal (performSemanticSearch env fetch lastUserMessage))
  else Normal (VString []).

(** The message that carries the context. *)
Definition context_message (c : jsstring) : value :=
  message "system" (VString (lit "Additional context: " ++ c)).

(** [contextEnhancedMessages] *)
Definition contextEnhancedMessages (r : request) (additionalContext : value)
  : completion (list value) :=
  if ToBoolean additionalContext
  then and_then (ToString additionalContext) (fun c =>
       Normal (removelast (messages r)
               ++ [context_message c; last_message (messages r)]))
  else Normal (messages r).

(** [finalMessages] *)
Definition finalMessages (r : request) (enhanced : list value) : list value :=
  if ToBoolean (systemPrompt r)
  then message "system" (systemPrompt r) :: enhanced
  else enhanced.

(** The chat completion call of the provider in force. *)
Definition upstream_request (r : request) (final : list value) : fetch_request :=
  if strict_eq (provider env) (lit "ollama") then
    {| url := ollama_url env; authorization := None;
       fetch_body := chat_body r final |}
  else
    {| url := cf_url env;
       authorization :=
         Some (lit "Bearer "
               ++ interpolate (env (lit "CLOUDFLARE_BEARER_TOKEN")));
       fetch_body := chat_body r final |}.

(** The text before the upstream's answer in the message of the error. *)
Definition error_label : jsstring :=
  if strict_eq (provider env) (lit "ollama")
  then lit "Ollama API error: "
  else lit "Cloudflare API error: ".

(** The content of a complete answer: [data.message.content] for the
    local server, [data.choices[0].message.content] otherwise. *)
Definition reply_content (data : value) : completion value :=
  if strict_eq (provider env) (lit "ollama") then
    and_then (Get data (Name (lit "message"))) (fun m =>
    Get m (Name (lit "content")))
  else
    and_then (Get data (Name (lit "choices"))) (fun cs =>
    and_then (Get cs (Index 0)) (fun c0 =>
    and_then (Get c0 (Name (lit "message"))) (fun m =>
    Get m (Name (lit "content"))))).

(** What the handler makes of the upstream's answer. *)
Definition answer (r : request) (response : upstream_response)
  : completion http_response :=
  if negb (ok response) then
    and_then (text response) (fun errorData =>
    Throw (new_Error (error_label ++ errorData)))
  else if ToBoolean (stream r) then
    match body response with
    | None => Throw (EngineError TypeError)
    | Some chunks => Normal (StreamingTextResponse (deltas chunks))
    end
  else
    and_then (json response) (fun data =>
    and_then (reply_content data) (fun c =>
    Normal (NextResponse_json (VObject [(lit "content", c)]) 200))).

(** The messages that go upstream for a request. *)
Definition sent_messages (r : request) : completion (list value) :=
  and_then (additionalContext_of r) (fun additionalContext =>
  and_then (contextEnhancedMessages r additionalContext) (fun enhanced =>
  Normal (finalMessages r enhanced))).

End Steps.

(** The environment with context injection turned off. *)
Definition injection_off (env : jsstring -> option jsstring)
  : jsstring -> option jsstring :=
  fun name =>
    if strict_eq name (lit "NEXT_PUBLIC_CONTEXT_INJECTION") then None
    else env name.

(** The Authorization header of the call of the gateway. *)
Definition bearer (env : jsstring -> option jsstring) : jsstring :=
  lit "Bearer " ++ interpolate (env (lit "CLOUDFLARE_BEARER_TOKEN")).

(** Two environments that differ at most in the bearer token. *)
Definition same_but_token (env env' : jsstring -> option jsstring) : Prop :=
  forall name,
    strict_eq name (lit "CLOUDFLARE_BEARER_TOKEN") = false ->
    env name = env' name.

(** A message whose role is [system]. *)
Definition is_system (m : value) : Prop :=
  Get m (Name (lit "role")) = Normal (VString (lit "system")).

(** The failures that [performSemanticSearch] catches: a rejected call, a
    status that is not a success, a body that is not JSON. *)
Definition search_fails (answer : completion upstream_response) : Prop :=
  match answer with
  | Throw _ => True
  | Normal response =>
      ok response = false \/ exists e, json response = Throw e
  end.

End Chat.

(* ================================================================== *)
(** * Streams as lines *)
(* ================================================================== *)

Module Streams.

Import JSString JSValue Route.

(** The complete lines of the text that a byte stream decodes to, and the
    text after its last line feed. *)
Definition stream_lines (stream : bytes) : list jsstring :=
  fst (scan [] (decoded stream)).

Definition stream_rest (stream : bytes) : jsstring :=
  snd (scan [] (decoded stream)).

Definition CR : codeunit := 0x0D.

(** The arrays of lines that the successive calls of [parse] hand to
    their loops, from the store [w] on. *)
Fixpoint dispatches (chunks : list bytes) (w : world)
  : list (list jsstring) :=
  match chunks with
  | [] => []
  | chunk :: chunks' =>
      dispatched w chunk :: dispatches chunks' (snd (parse chunk w))
  end.

Definition stream_dispatches (chunks : list bytes) : list (list jsstring) :=
  dispatches chunks (createParser Encoding.new_TextDecoder).

(** A string of white space. *)
Definition blank (s : jsstring) : bool := forallb is_white_space s.

(** A line that is not a data line: blank, a comment, another field. *)
Definition other_line (line : jsstring) : bool :=
  negb (startsWith (trim line) data_prefix).

(** A payload in the shape of the cloud gateway: a JSON text without
    white space at its end whose first choice has the non-empty string
    [c] as its delta content. *)
Definition choices_frame (p c : jsstring) : Prop :=
  LF_free p = true /\ trimEnd p = p /\ c <> []
  /\ exists parsed,
       JSON.parse p = Normal parsed
       /\ choices_0_delta_content parsed = Normal (VString c).

End Streams.

Module Padding.

Import JSString JSValue Route Streams.

(** [l'] is the line [l] with white space, but no line feed, put before
    and after it. *)
Definition padded (l l' : jsstring) : Prop :=
  exists a b,
    blank a = true /\ blank b = true
    /\ LF_free a = true /\ LF_free b = true
    /\ l' = a ++ l ++ b.

End Padding.

Module CloudflareSummary.

Import JSString JSValue Route Cloudflare.

(** The store with further effects recorded. *)
Definition cf_add_effects (w : cf_world) (es : list cf_effect) : cf_world :=
  {| cf_textDecoder := cf_textDecoder w; cf_state := cf_state w;
     cf_effects := cf_effects w ++ es |}.

(** The effects of the read loop on the chunks of a stream. *)
Definition cf_stream_effects (stream : source) : list cf_effect :=
  flat_map cf_text_effects
           (decode_chunks Encoding.new_TextDecoder (reads stream)).

(** The two calls of the outer [catch]. *)
Definition cf_failure_effects (error : exn) : list cf_effect :=
  [CfConsoleError [LogString (lit "Error processing stream:"); LogError error];
   CfError error].

(** A stream whose reads each hold whole frames: the text of every read is
    the frames of one group. *)
Definition aligned (groups : list (list (jsstring * jsstring)))
  (stream : source) : Prop :=
  decode_chunks Encoding.new_TextDecoder (reads stream)
  = map (fun g => flat_map frame (map fst g)) groups.

End CloudflareSummary.

(* ================================================================== *)
(** * Scenarios *)
(* ================================================================== *)

Import JSString JSValue Route.

(** The end-to-end scenario: two frames and the sentinel, in three
    chunks cut inside the first frame and inside the second. *)
Definition hello_payloads : list jsstring :=
  [json_lit "{'choices':[{'delta':{'content':'Hel'}}]}";
   json_lit "{'choices':[{'delta':{'content':'lo'}}]}"].

Definition hello_stream : bytes := Encoding.encode (serialize hello_payloads).

Definition hello_chunks : list bytes :=
  [firstn 17 hello_stream;
   firstn 50 (skipn 17 hello_stream);
   skipn 67 hello_stream].

(** Contents A, B and C, one in each of the three shapes. *)
Definition ABC_frames : list (jsstring * jsstring) :=
  [(json_lit "{'choices':[{'delta':{'content':'A'}}]}", lit "A");
   (json_lit "{'message':{'content':'B'}}", lit "B");
   (json_lit "{'response':'C'}", lit "C")].

Definition ABC_stream : bytes :=
  Encoding.encode (flat_map frame (map fst ABC_frames)).

Definition ABC_chunks : list bytes :=
  [firstn 3 ABC_stream; firstn 60 (skipn 3 ABC_stream); [];
   firstn 1 (skipn 63 ABC_stream); skipn 64 ABC_stream].

Definition Hi_payload : jsstring := json_lit "{'choices':[{'delta':{'content':'Hi'}}]}".
Definition there_payload : jsstring := json_lit "{'message':{'content':' there'}}".

(** Two objects as the local server streams them, with and without the
    framing, each stream cut in two. *)
Definition ndjson_objects : list (jsstring * jsstring) :=
  [(json_lit "{'model':'mistral','message':{'role':'assistant','content':'Hel'},'done':false}",
    lit "Hel");
   (json_lit "{'model':'mistral','message':{'role':'assistant','content':'lo'},'done':false}",
    lit "lo")].

Definition ndjson_bare : bytes :=
  Encoding.encode (unlines (map fst ndjson_objects)).

Definition ndjson_framed : bytes :=
  Encoding.encode
    (unlines (map (fun oc => data_prefix ++ fst oc) ndjson_objects)).

(** A data field without the space after the colon, valid as an event
    stream line, is not read. *)
Definition no_space_line : jsstring := json_lit "data:{'response':'Hi'}".

Definition DONE_chunk : bytes :=
  Encoding.encode (json_lit "data: {'response':'a'}" ++ [LF]
                   ++ DONE ++ [LF]
                   ++ json_lit "data: {'response':'b'}" ++ [LF]).

Definition late_chunk : bytes :=
  Encoding.encode (json_lit "data: {'response':'Hi'}" ++ [LF]).

Definition split_chunk_1 : bytes :=
  Encoding.encode (json_lit "data: {'response':'a'}" ++ [LF]
                   ++ json_lit "data: {'resp").

Definition split_chunk_2 : bytes :=
  Encoding.encode (json_lit "onse':'b'}" ++ [LF] ++ json_lit "dat").

Definition true_response : jsstring := json_lit "data: {'response':true}".

(** A payload with all three fields, the first of them empty: the message
    content is taken and the response text is not. *)
Definition three_fields : jsstring :=
  json_lit "data: {'choices':[{'delta':{'content':''}}],'message':{'content':'B'},'response':'C'}".

(** A streaming request that the local server answers with status 404. *)
Definition no_env : jsstring -> option jsstring := fun _ => None.

Definition chat_request : completion request :=
  Normal {| messages := [VObject [(lit "role", VString (lit "user"));
                                  (lit "content", VString (lit "Hello"))]];
            model := VString (lit "mistral:latest");
            temperature := VNumber (Float64.of_decimal false 2 (-1));
            contextWindow := VNumber (Float64.of_Z 4096);
            systemPrompt := VString (lit "You are a helpful assistant.");
            stream := VBoolean true |}.

Definition not_found : fetch_request -> completion upstream_response :=
  fun _ => Normal {| ok := false;
                     text := Normal (lit "model not found");
                     json := Throw (EngineError SyntaxError);
                     body := Some [Encoding.encode (lit "model not found")] |}.

(** A complete line followed by the beginning of another. *)
Definition a_lines : list jsstring := [json_lit "data: {'response':'a'}"].
Definition resp_rest : jsstring := json_lit "data: {'resp".

(** A sentinel and, in a later chunk, a frame that still yields a delta;
    the same with CRLF line endings and an indented data line. *)
Definition late_chunks : list bytes :=
  [Encoding.encode (DONE ++ [LF]); late_chunk].

Definition late_chunks_padded : list bytes :=
  [Encoding.encode (DONE ++ [Streams.CR; LF]);
   Encoding.encode (lit "  " ++ json_lit "data: {'response':'Hi'}"
                    ++ [Streams.CR; LF])].

(** A comment line of an event stream. *)
Definition keep_alive : jsstring := lit ": keep-alive".

Definition late_chunks_kept_alive : list bytes :=
  [Encoding.encode (DONE ++ [LF]);
   Encoding.encode (keep_alive ++ [LF]
                    ++ json_lit "data: {'response':'Hi'}" ++ [LF])].

(** A content with a letter outside ASCII; the stream is cut between the
    two bytes of that letter. *)
Definition cafe : jsstring := lit "caf" ++ [0xE9].
Definition cafe_frames : list (jsstring * jsstring) :=
  [(json_lit "{'response':'" ++ cafe ++ json_lit "'}", cafe)].
Definition cafe_stream : bytes :=
  Encoding.encode (flat_map frame (map fst cafe_frames)).
Definition cafe_chunks : list bytes :=
  [firstn 23 cafe_stream; skipn 23 cafe_stream].

(** The frames of the end-to-end scenario with their contents, and a body
    that delivers one frame in each read. *)
Definition hello_frames : list (jsstring * jsstring) :=
  combine hello_payloads [lit "Hel"; lit "lo"].

Definition hello_reads : Cloudflare.source :=
  {| Cloudflare.reads :=
       map (fun f => Encoding.encode (frame (fst f))) hello_frames;
     Cloudflare.ending := None |}.

(** A sentinel between two frames, in one read. *)
Definition around_DONE : Cloudflare.source :=
  {| Cloudflare.reads :=
       [Encoding.encode
          (unlines (map (fun p => data_prefix ++ p) (firstn 1 hello_payloads)
                    ++ DONE
                    :: map (fun p => data_prefix ++ p) (skipn 1 hello_payloads)))];
     Cloudflare.ending := None |}.

(** A frame cut in two reads after its twentieth character. *)
Definition Hi_head : jsstring := firstn 20 (data_prefix ++ Hi_payload).
Definition Hi_tail : jsstring := skipn 20 (data_prefix ++ Hi_payload).

(** Environments: context injection on; the gateway as the provider. *)
Definition injection_on : jsstring -> option jsstring :=
  fun name =>
    if strict_eq name (lit "NEXT_PUBLIC_CONTEXT_INJECTION")
    then Some (lit "true") else None.

Definition gateway_env : jsstring -> option jsstring :=
  fun name =>
    if strict_eq name (lit "NEXT_PUBLIC_DEFAULT_PROVIDER")
    then Some (lit "cloudflare")
    else if strict_eq name (lit "CLOUDFLARE_ACCOUNT_ID") then Some (lit "acct")
    else if strict_eq name (lit "CLOUDFLARE_BEARER_TOKEN") then Some (lit "secret")
    else None.

(** The same environment with another bearer token. *)
Definition gateway_env_other : jsstring -> option jsstring :=
  fun name =>
    if strict_eq name (lit "CLOUDFLARE_BEARER_TOKEN") then Some (lit "other")
    else gateway_env name.

(** A conversation of three messages, to be answered in one piece. *)
Definition user_message (content : string) : value :=
  VObject [(lit "role", VString (lit "user"));
           (lit "content", VString (lit content))].

Definition assistant_message (content : string) : value :=
  VObject [(lit "role", VString (lit "assistant"));
           (lit "content", VString (lit content))].

Definition talk_request : request :=
  {| messages := [user_message "Hi"; assistant_message "Hello";
                  user_message "What is a lemma?"];
     model := VString (lit "mistral:latest");
     temperature := VNumber (Float64.of_decimal false 2 (-1));
     contextWindow := VNumber (Float64.of_Z 4096);
     systemPrompt := VString (lit "You are a helpful assistant.");
     stream := VBoolean false |}.

(** The same request without messages, and one that asks for a stream. *)
Definition empty_request : request :=
  {| messages := [];
     model := model talk_request;
     temperature := temperature talk_request;
     contextWindow := contextWindow talk_request;
     systemPrompt := systemPrompt talk_request;
     stream := stream talk_request |}.

Definition stream_request : request :=
  {| messages := [user_message "Say hello"];
     model := model talk_request;
     temperature := temperature talk_request;
     contextWindow := contextWindow talk_request;
     systemPrompt := VString [];
     stream := VBoolean true |}.

(** Upstreams: complete answers in the shapes of the two providers; the
    same with a search service that is down, and with one that answers. *)
Definition talk_data : value :=
  VObject [(lit "message",
            VObject [(lit "role", VString (lit "assistant"));
                     (lit "content", VString (lit "A small theorem."))]);
           (lit "choices",
            VArray [VObject
                      [(lit "message",
                        VObject [(lit "content",
                                  VString (lit "A small theorem."))])]])].

Definition talk_up : fetch_request -> completion upstream_response :=
  fun _ => Normal {| ok := true;
                     text := Normal [];
                     json := Normal talk_data;
                     body := None |}.

Definition search_url : jsstring := lit "http://localhost:8000/search".

Definition search_down : fetch_request -> completion upstream_response :=
  fun rq =>
    if strict_eq (url rq) search_url then Throw (EngineError TypeError)
    else talk_up rq.

Definition search_up : fetch_request -> completion upstream_response :=
  fun rq =>
    if strict_eq (url rq) search_url
    then Normal {| ok := true;
                   text := Normal [];
                   json := Normal (VObject [(lit "context",
                                             VString (lit "Lemmas are proved."))]);
                   body := None |}
    else talk_up rq.

(** What goes upstream for the conversation with that context. *)
Definition talk_sent : list value :=
  [message "system" (VString (lit "You are a helpful assistant."));
   user_message "Hi"; assistant_message "Hello";
   message "system" (VString (lit "Additional context: Lemmas are proved."));
   user_message "What is a lemma?"].

(** A [fetch] that rejects every request with an Authorization header
    that does not go to the gateway. *)
Definition guarded (gateway : jsstring)
  (fetch : fetch_request -> completion upstream_response)
  : fetch_request -> completion upstream_response :=
  fun rq =>
    match authorization rq with
    | None => fetch rq
    | Some _ =>
        if strict_eq (url rq) gateway then fetch rq
        else Throw (EngineError TypeError)
    end.

(** An upstream that streams the end-to-end scenario. *)
Definition hello_up : fetch_request -> completion upstream_response :=
  fun _ => Normal {| ok := true;
                     text := Normal [];
                     json := Throw (EngineError SyntaxError);
                     body := Some hello_chunks |}.

(** The list of tags of a local server: an entry with further fields, a
    plain one, and one without a name. *)
Definition tags_up : fetch_request -> completion upstream_response :=
  fun _ => Normal {| ok := true;
                     text := Normal [];
                     json :=
                       JSON.parse
                         (json_lit "{'models':[{'name':'mistral:latest','size':4109865159},{'name':'llama3'},{'model':'phi3'}]}");
                     body := None |}.

(* ================================================================== *)
(** * Properties *)
(* ================================================================== *)

(** ** Lines *)

Section Lines.

Lemma split_lines_not_nil (s : jsstring) : split_lines s <> [].
Proof.
  destruct s as [|c s]; simpl; [discriminate|].
  destruct (N.eqb c LF); [discriminate|].
  destruct (split_lines s); discriminate.
Qed.

Lemma pop_last (A : Type) (d : A) (l : list A) :
  l <> [] -> pop l = (Some (last l d), removelast l).
Proof.
  induction l as [|x l IH]; [congruence|]. intros _.
  destruct l as [|y l]; [reflexivity|].
  change (pop (x :: y :: l))
    with (let (r, rest) := pop (y :: l) in (r, x :: rest)).
  rewrite IH by discriminate. reflexivity.
Qed.

Lemma pop_or_empty_split (s : jsstring) :
  pop_or_empty (split_lines s)
  = (last (split_lines s) [], removelast (split_lines s)).
Proof.
  unfold pop_or_empty.
  rewrite (pop_last (A := jsstring) [] (split_lines_not_nil s)).
  destruct (last (split_lines s) []); reflexivity.
Qed.

Lemma LF_free_app (a b : jsstring) :
  LF_free (a ++ b) = LF_free a && LF_free b.
Proof. apply forallb_app. Qed.

Lemma split_lines_LF_free_prefix (b x : jsstring) :
  LF_free b = true ->
  split_lines (b ++ x) = (b ++ hd [] (split_lines x)) :: tl (split_lines x).
Proof.
  induction b as [|c b IH]; simpl; intros H.
  - pose proof (split_lines_not_nil x) as Hx.
    destruct (split_lines x); [now elim Hx | reflexivity].
  - apply andb_prop in H as [Hc Hb]. rewrite (IH Hb).
    destruct (N.eqb c LF); [discriminate|reflexivity].
Qed.

Lemma split_lines_scan (s b : jsstring) :
  LF_free b = true ->
  split_lines (b ++ s) = fst (scan b s) ++ [snd (scan b s)].
Proof.
  revert b. induction s as [|c s IH]; intros b Hb.
  - rewrite split_lines_LF_free_prefix by assumption. simpl.
    now rewrite app_nil_r.
  - simpl scan. destruct (N.eqb c LF) eqn:E.
    + rewrite split_lines_LF_free_prefix by assumption. simpl. rewrite E.
      simpl. rewrite app_nil_r. specialize (IH [] eq_refl). simpl in IH.
      destruct (scan [] s) as [ls r]. simpl in *. now rewrite IH.
    + replace (b ++ c :: s) with ((b ++ [c]) ++ s)
        by now rewrite <- app_assoc.
      apply IH. rewrite LF_free_app, Hb. simpl. now rewrite E.
Qed.

Lemma scan_app (s t cur : jsstring) :
  scan cur (s ++ t)
  = (fst (scan cur s) ++ fst (scan (snd (scan cur s)) t),
     snd (scan (snd (scan cur s)) t)).
Proof.
  revert cur. induction s as [|c s IH]; intros cur; simpl.
  - now destruct (scan cur t).
  - destruct (N.eqb c LF).
    + rewrite (IH []). destruct (scan [] s) as [ls r]. reflexivity.
    + apply IH.
Qed.

Lemma scan_LF_free (s cur : jsstring) :
  LF_free cur = true ->
  forallb LF_free (fst (scan cur s)) = true
  /\ LF_free (snd (scan cur s)) = true.
Proof.
  revert cur. induction s as [|c s IH]; intros cur H; simpl.
  - auto.
  - destruct (N.eqb c LF) eqn:E.
    + destruct (IH [] eq_refl) as [H1 H2].
      destruct (scan [] s) as [ls r]. simpl in *. now rewrite H, H1.
    + apply IH. rewrite LF_free_app, H. simpl. now rewrite E.
Qed.

Lemma scan_join (s cur : jsstring) :
  unlines (fst (scan cur s)) ++ snd (scan cur s) = cur ++ s.
Proof.
  revert cur. induction s as [|c s IH]; intros cur; simpl.
  - now rewrite app_nil_r.
  - destruct (N.eqb c LF) eqn:E.
    + apply N.eqb_eq in E. subst c. specialize (IH []).
      destruct (scan [] s) as [ls r]. simpl in *.
      rewrite <- !app_assoc. simpl. now rewrite IH.
    + rewrite IH. now rewrite <- app_assoc.
Qed.

Lemma scan_line (l t cur : jsstring) :
  LF_free l = true ->
  scan cur (l ++ LF :: t) = ((cur ++ l) :: fst (scan [] t), snd (scan [] t)).
Proof.
  revert cur. induction l as [|c l IH]; intros cur H; simpl.
  - rewrite app_nil_r. now destruct (scan [] t).
  - simpl in H. apply andb_prop in H as [Hc Hl].
    destruct (N.eqb c LF); [discriminate|].
    rewrite IH by assumption. now rewrite <- app_assoc.
Qed.

Lemma scan_unlines (ls : list jsstring) (t : jsstring) :
  forallb LF_free ls = true ->
  scan [] (unlines ls ++ t) = (ls ++ fst (scan [] t), snd (scan [] t)).
Proof.
  induction ls as [|l ls IH]; simpl; intros H.
  - now destruct (scan [] t).
  - apply andb_prop in H as [Hl Hls].
    rewrite <- !app_assoc. simpl.
    rewrite scan_line by assumption. rewrite IH by assumption. reflexivity.
Qed.

End Lines.

(** ** The decoder is a transducer: it can be fed in pieces *)

Lemma decode_app (a b : bytes) (t : Encoding.TextDecoder) :
  Encoding.decode t (a ++ b)
  = (fst (Encoding.decode (fst (Encoding.decode t a)) b),
     snd (Encoding.decode t a)
     ++ snd (Encoding.decode (fst (Encoding.decode t a)) b)).
Proof.
  revert t. induction a as [|x a IH]; intros t; simpl.
  - now destruct (Encoding.decode t b).
  - destruct (Encoding.decode_byte t x) as [t1 s1]. rewrite IH.
    destruct (Encoding.decode t1 a) as [t2 s2]. simpl.
    now rewrite app_assoc.
Qed.

(** ** One call of [parse] *)

Lemma add_effects_nil (w : world) : add_effects w [] = w.
Proof. destruct w. unfold add_effects. simpl. now rewrite app_nil_r. Qed.

Lemma add_effects_app (w : world) (a b : list effect) :
  add_effects (add_effects w a) b = add_effects w (a ++ b).
Proof. unfold add_effects. simpl. now rewrite app_assoc. Qed.

Lemma try_statement_effects (trimmedLine : jsstring) (w : world) :
  try_catch (try_body trimmedLine) (catch_handler trimmedLine) w
  = (Normal tt, add_effects w (frame_effects trimmedLine)).
Proof.
  unfold try_catch, try_body, catch_handler, frame_effects, bind, lift.
  destruct (JSON.parse (slice 6 trimmedLine)) as [data|e]; simpl.
  2: { unfold console_error, add_effects. simpl. now rewrite <- app_assoc. }
  destruct (content_of data) as [content|e]; simpl.
  2: { unfold console_error, add_effects. simpl. now rewrite <- app_assoc. }
  destruct (ToBoolean content); simpl.
  2: { unfold ret. now rewrite add_effects_nil. }
  destruct (TextEncoder_encode content) as [chunk|e]; simpl.
  - reflexivity.
  - unfold console_error, add_effects. simpl. now rewrite <- app_assoc.
Qed.

Lemma for_lines_effects (lines : list jsstring) (w : world) :
  for_lines lines w = (Normal tt, add_effects w (lines_effects lines)).
Proof.
  revert w. induction lines as [|line lines IH]; intros w; simpl.
  - unfold ret. now rewrite add_effects_nil.
  - unfold is_DONE, line_effects.
    destruct (trim line) as [|c t] eqn:E.
    + rewrite IH. reflexivity.
    + destruct (strict_eq (c :: t) DONE).
      * unfold ret. now rewrite add_effects_nil.
      * unfold bind.
        destruct (startsWith (c :: t) data_prefix).
        -- rewrite try_statement_effects, IH, add_effects_app. reflexivity.
        -- unfold ret. rewrite IH. reflexivity.
Qed.

Lemma parse_split (chunk : bytes) (w : world) :
  parse chunk w
  = (Normal tt,
     {| buffer := last (split_lines
                          (buffer w ++ snd (Encoding.decode (textDecoder w) chunk))) [];
        textDecoder := fst (Encoding.decode (textDecoder w) chunk);
        effects := effects w ++ lines_effects (dispatched w chunk) |}).
Proof.
  unfold parse, dispatched, bind, textDecoder_decode, get_buffer, set_buffer.
  destruct (Encoding.decode (textDecoder w) chunk) as [t text]. simpl.
  rewrite pop_or_empty_split. simpl.
  rewrite for_lines_effects. reflexivity.
Qed.

Lemma parse_scan (chunk : bytes) (w : world) :
  LF_free (buffer w) = true ->
  parse chunk w
  = (Normal tt,
     {| buffer := snd (scan (buffer w) (snd (Encoding.decode (textDecoder w) chunk)));
        textDecoder := fst (Encoding.decode (textDecoder w) chunk);
        effects := effects w
                   ++ lines_effects
                        (fst (scan (buffer w)
                                (snd (Encoding.decode (textDecoder w) chunk)))) |}).
Proof.
  intros H. rewrite parse_split. unfold dispatched.
  rewrite pop_or_empty_split. simpl.
  rewrite split_lines_scan by assumption.
  now rewrite last_last, removelast_last.
Qed.

(** ** Feeding a stream in chunks *)

Lemma concat_decode_chunks (chunks : list bytes) (t : Encoding.TextDecoder) :
  List.concat (decode_chunks t chunks) = snd (Encoding.decode t (List.concat chunks))
  /\ fst (Encoding.decode t (List.concat chunks))
     = fold_left (fun t c => fst (Encoding.decode t c)) chunks t.
Proof.
  revert t. induction chunks as [|c cs IH]; intros t; simpl.
  - auto.
  - rewrite decode_app. simpl. destruct (IH (fst (Encoding.decode t c))) as [H1 H2].
    now rewrite H1, H2.
Qed.

Lemma transform_scan (chunks : list bytes) (w : world) :
  LF_free (buffer w) = true ->
  transform chunks w
  = (Normal tt,
     {| buffer := snd (scan (buffer w)
                         (List.concat (decode_chunks (textDecoder w) chunks)));
        textDecoder := fst (Encoding.decode (textDecoder w) (List.concat chunks));
        effects := effects w
                   ++ feed_effects (buffer w)
                        (decode_chunks (textDecoder w) chunks) |}).
Proof.
  revert w. induction chunks as [|c cs IH]; intros w H.
  - simpl. unfold ret. rewrite app_nil_r. now destruct w.
  - simpl transform. unfold bind. rewrite parse_scan by assumption.
    rewrite IH; simpl.
    2: { apply scan_LF_free, H. }
    rewrite scan_app, decode_app. simpl. now rewrite <- app_assoc.
Qed.

Lemma enqueued_app (a b : list effect) :
  enqueued (a ++ b) = enqueued a ++ enqueued b.
Proof.
  induction a as [|[chunk|args] a IH]; simpl; [reflexivity| |assumption].
  now rewrite IH.
Qed.

Lemma lines_effects_app (a b : list jsstring) :
  lines_effects (a ++ b)
  = lines_effects a ++ (if existsb is_DONE a then [] else lines_effects b).
Proof.
  induction a as [|l a IH]; simpl; [reflexivity|].
  destruct (is_DONE l); simpl; [reflexivity|].
  now rewrite IH, app_assoc.
Qed.

Lemma after_DONE_app (a b : list jsstring) :
  after_DONE (a ++ b)
  = if existsb is_DONE a then after_DONE a ++ b else after_DONE b.
Proof.
  induction a as [|l a IH]; simpl; [reflexivity|].
  destruct (is_DONE l); simpl; [reflexivity|assumption].
Qed.

Lemma lines_effects_before_DONE (lines : list jsstring) :
  lines_effects lines = flat_map line_effects (before_DONE lines).
Proof.
  induction lines as [|l ls IH]; simpl; [reflexivity|].
  destruct (is_DONE l); simpl; [reflexivity|]. now rewrite IH.
Qed.

Lemma lines_effects_silent (lines : list jsstring) :
  forallb silent lines = true -> enqueued (lines_effects lines) = [].
Proof.
  induction lines as [|l ls IH]; simpl; [reflexivity|]. intros H.
  apply andb_prop in H as [Hl Hls].
  destruct (is_DONE l); [reflexivity|].
  rewrite enqueued_app, (IH Hls), app_nil_r.
  unfold silent, line_deltas in Hl.
  now destruct (enqueued (line_effects l)).
Qed.

Lemma feed_effects_silent (texts : list jsstring) (cur : jsstring) :
  forallb silent (fst (scan cur (List.concat texts))) = true ->
  enqueued (feed_effects cur texts) = [].
Proof.
  revert cur. induction texts as [|t ts IH]; intros cur; simpl;
    [reflexivity|].
  rewrite scan_app. simpl. rewrite forallb_app. intros H.
  apply andb_prop in H as [H1 H2].
  now rewrite enqueued_app, (lines_effects_silent _ H1), (IH _ H2).
Qed.

(** Fed in pieces or at once, a text yields the same content deltas when
    no line after its first sentinel line yields one. *)
Lemma feed_effects_chunked (texts : list jsstring) (cur : jsstring) :
  forallb silent (after_DONE (fst (scan cur (List.concat texts)))) = true ->
  enqueued (feed_effects cur texts)
  = enqueued (lines_effects (fst (scan cur (List.concat texts)))).
Proof.
  revert cur. induction texts as [|t ts IH]; intros cur; simpl;
    [reflexivity|].
  rewrite scan_app. simpl. rewrite after_DONE_app, lines_effects_app.
  rewrite !enqueued_app.
  destruct (existsb is_DONE (fst (scan cur t))).
  - rewrite forallb_app. intros H. apply andb_prop in H as [_ H].
    now rewrite (feed_effects_silent _ _ H).
  - intros H. now rewrite (IH _ H).
Qed.

(** The content deltas of a stream fed in chunks, in terms of the lines
    of the text that the whole stream decodes to. *)
Lemma deltas_chunked (chunks : list bytes) :
  forallb silent (after_DONE (fst (scan [] (decoded (List.concat chunks))))) = true ->
  deltas chunks
  = enqueued (lines_effects (fst (scan [] (decoded (List.concat chunks))))).
Proof.
  unfold deltas, pipeThrough, decoded. intros H.
  rewrite transform_scan by reflexivity. simpl.
  destruct (concat_decode_chunks chunks Encoding.new_TextDecoder) as [E _].
  rewrite <- E in *. now apply feed_effects_chunked.
Qed.

Lemma pipeThrough_scan (chunks : list bytes) :
  fst (pipeThrough chunks) = Normal tt
  /\ buffer (snd (pipeThrough chunks))
     = snd (scan [] (decoded (List.concat chunks))).
Proof.
  unfold pipeThrough, decoded. rewrite transform_scan by reflexivity. simpl.
  destruct (concat_decode_chunks chunks Encoding.new_TextDecoder) as [E _].
  now rewrite E.
Qed.

(** ** Trimming and comparing *)

Lemma strict_eq_true (a b : jsstring) : strict_eq a b = true <-> a = b.
Proof.
  revert b. induction a as [|x a IH]; intros [|y b]; simpl;
    try (split; [discriminate|congruence]); [tauto|].
  rewrite andb_true_iff, N.eqb_eq, IH. split.
  - intros [-> ->]. reflexivity.
  - intros E. inversion E. auto.
Qed.

Lemma trimEnd_app (a p : jsstring) :
  trimEnd (a ++ p)
  = match trimEnd p with
    | [] => trimEnd a
    | _ :: _ => a ++ trimEnd p
    end.
Proof.
  induction a as [|x a IH]; simpl.
  - now destruct (trimEnd p).
  - rewrite IH. destruct (trimEnd p) as [|y t]; [reflexivity|].
    now destruct a.
Qed.

(** The trimmed form of a [data: ] line: the prefix and the payload
    without its trailing white space, or the bare field name when the
    payload is blank. *)
Lemma trim_data_line (p : jsstring) :
  trim (data_prefix ++ p)
  = match trimEnd p with
    | [] => lit "data:"
    | _ :: _ => data_prefix ++ trimEnd p
    end.
Proof.
  unfold trim.
  change (trimStart (data_prefix ++ p)) with (data_prefix ++ p).
  rewrite trimEnd_app. now destruct (trimEnd p).
Qed.

Lemma startsWith_app (a s : jsstring) : startsWith (a ++ s) a = true.
Proof.
  induction a; simpl; [now destruct s|]. now rewrite N.eqb_refl.
Qed.

(** ** Frames that carry content *)

Lemma carries_line (p c : jsstring) :
  carries p c = true ->
  LF_free (data_prefix ++ p) = true
  /\ is_DONE (data_prefix ++ p) = false
  /\ line_effects (data_prefix ++ p) = [Enqueue (Encoding.encode c)].
Proof.
  unfold carries, frame_content, is_DONE, line_effects.
  intros H. apply andb_prop in H as [HLF H].
  rewrite LF_free_app, HLF.
  rewrite trim_data_line in *.
  destruct (trimEnd p) as [|x t] eqn:E.
  { exfalso. revert H. vm_compute. discriminate. }
  remember (data_prefix ++ x :: t) as T eqn:ET.
  destruct (JSON.parse (slice 6 T)) as [data|e] eqn:EP; [|discriminate].
  destruct (content_of data) as [[| | | |[|y c']| |]|e] eqn:EC;
    try discriminate.
  apply strict_eq_true in H. subst c.
  split; [reflexivity|]. split.
  - destruct (strict_eq T DONE) eqn:ED; [|reflexivity].
    apply strict_eq_true in ED. rewrite ED in EP.
    exfalso. revert EP. vm_compute. discriminate.
  - assert (HS : startsWith T data_prefix = true)
      by (subst T; apply startsWith_app).
    assert (HT : T <> []) by (subst T; discriminate).
    destruct T as [|z T']; [congruence|]. rewrite HS.
    unfold frame_effects. rewrite EP. simpl. rewrite EC. reflexivity.
Qed.

Lemma valid_payload_line (p : jsstring) :
  valid_payload p = true ->
  LF_free (data_prefix ++ p) = true /\ is_DONE (data_prefix ++ p) = false.
Proof.
  unfold valid_payload. intros H. apply andb_prop in H as [H1 H2].
  rewrite LF_free_app, H1. split; [reflexivity|].
  now destruct (is_DONE (data_prefix ++ p)).
Qed.

Lemma frames_unlines (payloads : list jsstring) :
  flat_map frame payloads = unlines (frame_lines payloads).
Proof.
  induction payloads as [|p ps IH]; [reflexivity|].
  cbn [flat_map frame_lines]. fold (frame_lines ps). rewrite IH.
  unfold frame, unlines. cbn [flat_map app]. rewrite <- !app_assoc.
  reflexivity.
Qed.

Lemma serialize_unlines (payloads : list jsstring) :
  serialize payloads = unlines (frame_lines payloads ++ [DONE; []]).
Proof.
  unfold serialize. rewrite frames_unlines. unfold unlines.
  rewrite flat_map_app. reflexivity.
Qed.

Lemma scan_unlines_all (ls : list jsstring) :
  forallb LF_free ls = true -> scan [] (unlines ls) = (ls, []).
Proof.
  intros H. rewrite <- (app_nil_r (unlines ls)).
  rewrite scan_unlines by assumption. simpl. now rewrite app_nil_r.
Qed.

Lemma frame_lines_valid (payloads : list jsstring) :
  forallb valid_payload payloads = true ->
  forallb LF_free (frame_lines payloads) = true
  /\ existsb is_DONE (frame_lines payloads) = false.
Proof.
  induction payloads as [|p ps IH]; [auto|].
  cbn [frame_lines flat_map app forallb existsb]. fold (frame_lines ps).
  intros H. apply andb_prop in H as [Hp Hps].
  destruct (valid_payload_line _ Hp) as [H1 H2].
  destruct (IH Hps) as [H3 H4]. rewrite H1, H2, H3, H4. auto.
Qed.

Lemma carries_valid (p c : jsstring) :
  carries p c = true -> valid_payload p = true.
Proof.
  intros H. destruct (carries_line _ _ H) as (_ & H2 & _).
  unfold valid_payload. rewrite H2.
  unfold carries in H. apply andb_prop in H as [-> _]. reflexivity.
Qed.

Lemma frame_lines_effects (frames : list (jsstring * jsstring)) :
  forallb (fun f => carries (fst f) (snd f)) frames = true ->
  flat_map line_effects (frame_lines (map fst frames))
  = map (fun f => Enqueue (Encoding.encode (snd f))) frames.
Proof.
  induction frames as [|[p c] fs IH]; [reflexivity|].
  cbn [frame_lines flat_map app forallb map fst snd].
  fold (frame_lines (map fst fs)).
  intros H. apply andb_prop in H as [Hp Hfs].
  destruct (carries_line _ _ Hp) as (_ & _ & E).
  rewrite E, (IH Hfs). reflexivity.
Qed.

Lemma before_DONE_app (a b : list jsstring) :
  existsb is_DONE a = false -> before_DONE (a ++ b) = a ++ before_DONE b.
Proof.
  induction a as [|l a IH]; simpl; [reflexivity|].
  destruct (is_DONE l); simpl; [discriminate|]. intros H. now rewrite IH.
Qed.

Lemma enqueued_map_Enqueue (A : Type) (f : A -> bytes) (l : list A) :
  enqueued (map (fun x => Enqueue (f x)) l) = map f l.
Proof. induction l; simpl; [reflexivity|]. now rewrite IHl. Qed.

Lemma sentinel_tail (lines : list jsstring) :
  forallb LF_free lines = true ->
  existsb is_DONE lines = false ->
  forallb LF_free (lines ++ [DONE; []]) = true
  /\ after_DONE (lines ++ [DONE; []]) = [[]]
  /\ before_DONE (lines ++ [DONE; []]) = lines.
Proof.
  intros H1 H2. rewrite forallb_app, H1, after_DONE_app, H2.
  rewrite before_DONE_app by assumption.
  repeat split; try reflexivity. simpl. now rewrite app_nil_r.
Qed.

(** The content deltas of a stream of data frames, with or without the
    sentinel after them, however it is cut into chunks. *)
Lemma deltas_of_frames (payloads : list jsstring) (chunks : list bytes) :
  forallb valid_payload payloads = true ->
  decoded (List.concat chunks) = flat_map frame payloads
  \/ decoded (List.concat chunks) = serialize payloads ->
  deltas chunks = enqueued (flat_map line_effects (frame_lines payloads)).
Proof.
  intros Hv Hd. destruct (frame_lines_valid _ Hv) as [HL HD].
  destruct (sentinel_tail _ HL HD) as (T1 & T2 & T3).
  destruct Hd as [Hd|Hd]; rewrite deltas_chunked; rewrite Hd.
  - rewrite frames_unlines, scan_unlines_all by assumption. simpl.
    rewrite lines_effects_before_DONE.
    rewrite <- (app_nil_r (frame_lines payloads)) at 1.
    rewrite before_DONE_app by assumption. simpl. now rewrite app_nil_r.
  - rewrite frames_unlines, scan_unlines_all by assumption. simpl.
    rewrite <- (app_nil_r (frame_lines payloads)).
    rewrite after_DONE_app, HD. reflexivity.
  - rewrite serialize_unlines, scan_unlines_all by assumption. simpl.
    now rewrite lines_effects_before_DONE, T3.
  - rewrite serialize_unlines, scan_unlines_all by assumption. simpl.
    now rewrite T2.
Qed.

(** C1. Chunk-boundary invariance: when a byte stream decodes to a
    sequence of data frames followed by the terminal sentinel, feeding it
    to the parser of [createParser] cut at arbitrary byte offsets enqueues
    exactly the content deltas, in the same order, that feeding it as one
    chunk enqueues. *)
Theorem chunk_boundary_invariance
  (payloads : list jsstring) (stream : bytes) (chunks : list bytes) :
  forallb valid_payload payloads = true ->
  decoded stream = serialize payloads ->
  List.concat chunks = stream ->
  deltas chunks = deltas [stream].
Proof.
  intros Hv Hd Hc.
  rewrite (deltas_of_frames payloads chunks), (deltas_of_frames payloads [stream]);
    auto; right; simpl; rewrite ?app_nil_r; congruence.
Qed.

Lemma chunk_boundary_invariance_witness :
  deltas hello_chunks = deltas [hello_stream].
Proof.
  apply (chunk_boundary_invariance hello_payloads);
    vm_compute; reflexivity.
Defined.

Example hello_deltas :
  deltas hello_chunks = [Encoding.encode (lit "Hel"); Encoding.encode (lit "lo")].
Proof. vm_compute. reflexivity. Qed.

(** C5. Ordering: when the data frames of a stream carry the contents
    [c1], ..., [cn] in that order, the enqueued deltas are exactly the
    encodings of [c1], ..., [cn] in that order, one delta for each frame,
    however the bytes are cut into chunks and whether or not the sentinel
    ends the stream. *)
Theorem ordering
  (frames : list (jsstring * jsstring)) (stream : bytes) (chunks : list bytes) :
  forallb (fun f => carries (fst f) (snd f)) frames = true ->
  decoded stream = flat_map frame (map fst frames)
  \/ decoded stream = serialize (map fst frames) ->
  List.concat chunks = stream ->
  deltas chunks = map (fun f => Encoding.encode (snd f)) frames.
Proof.
  intros Hc Hd E. subst stream.
  rewrite (deltas_of_frames (map fst frames)); auto.
  - rewrite frame_lines_effects by assumption.
    apply enqueued_map_Enqueue with (f := fun f => Encoding.encode (snd f)).
  - rewrite forallb_forall in *. intros p Hp.
    apply in_map_iff in Hp as ([p' c] & <- & Hin).
    apply (carries_valid _ c). apply (Hc _ Hin).
Qed.

Lemma ordering_witness :
  deltas ABC_chunks
  = [Encoding.encode (lit "A"); Encoding.encode (lit "B");
     Encoding.encode (lit "C")]
  /\ List.concat (deltas ABC_chunks) = Encoding.encode (lit "ABC").
Proof.
  split.
  - apply (ordering ABC_frames (stream := ABC_stream));
      [vm_compute; reflexivity | left; vm_compute; reflexivity
      | vm_compute; reflexivity].
  - vm_compute. reflexivity.
Defined.

(** The content deltas of a stream of lines without a sentinel. *)
Lemma deltas_of_lines (lines : list jsstring) (chunks : list bytes) :
  forallb LF_free lines = true ->
  existsb is_DONE lines = false ->
  decoded (List.concat chunks) = unlines lines ->
  fst (pipeThrough chunks) = Normal tt
  /\ deltas chunks = flat_map line_deltas lines
  /\ buffer (snd (pipeThrough chunks)) = [].
Proof.
  intros HL HD E. destruct (pipeThrough_scan chunks) as [P1 P2].
  split; [assumption|]. rewrite P2, E, scan_unlines_all by assumption.
  split; [|reflexivity].
  assert (A : after_DONE lines = []).
  { clear - HD. induction lines as [|l ls IH]; simpl in *; [reflexivity|].
    destruct (is_DONE l); [discriminate|auto]. }
  assert (B : before_DONE lines = lines).
  { rewrite <- (app_nil_r lines) at 1.
    rewrite before_DONE_app by assumption. simpl. apply app_nil_r. }
  rewrite deltas_chunked; rewrite E, scan_unlines_all by assumption; simpl.
  - rewrite lines_effects_before_DONE, B. clear.
    induction lines as [|l ls IH]; simpl; [reflexivity|].
    rewrite enqueued_app, IH. reflexivity.
  - now rewrite A.
Qed.

(** C4. Malformed-frame tolerance: with the line [data: {not valid json]
    put between two frames that carry content, the parser completes
    normally on every chunk, enqueues the same two deltas as without that
    line, none of them for the malformed line, and ends with the same
    buffer. *)
Theorem malformed_frame_tolerance
  (p1 c1 p2 c2 : jsstring) (chunks chunks' : list bytes) :
  carries p1 c1 = true ->
  carries p2 c2 = true ->
  decoded (List.concat chunks) = frame p1 ++ frame p2 ->
  decoded (List.concat chunks')
  = frame p1 ++ (malformed_line ++ [LF]) ++ frame p2 ->
  fst (pipeThrough chunks') = Normal tt
  /\ deltas chunks' = [Encoding.encode c1; Encoding.encode c2]
  /\ deltas chunks = [Encoding.encode c1; Encoding.encode c2]
  /\ line_deltas malformed_line = []
  /\ buffer (snd (pipeThrough chunks')) = buffer (snd (pipeThrough chunks)).
Proof.
  intros H1 H2 E E'.
  destruct (carries_line _ _ H1) as (L1 & D1 & F1).
  destruct (carries_line _ _ H2) as (L2 & D2 & F2).
  destruct (@deltas_of_lines
              [data_prefix ++ p1; []; data_prefix ++ p2; []] chunks)
    as (_ & A2 & A3).
  { cbn [forallb]. now rewrite L1, L2. }
  { cbn [existsb]. now rewrite D1, D2. }
  { rewrite E. unfold frame, unlines. cbn [flat_map app].
    rewrite <- !app_assoc. reflexivity. }
  destruct (@deltas_of_lines
              [data_prefix ++ p1; []; malformed_line; data_prefix ++ p2; []]
              chunks')
    as (B1 & B2 & B3).
  { cbn [forallb]. now rewrite L1, L2. }
  { cbn [existsb]. now rewrite D1, D2. }
  { rewrite E'. unfold frame, unlines. cbn [flat_map app].
    rewrite <- !app_assoc. reflexivity. }
  rewrite A2, A3, B2, B3. cbn [flat_map]. unfold line_deltas.
  rewrite F1, F2. repeat split; trivial.
Qed.

Lemma malformed_frame_tolerance_witness :
  let clean := Encoding.encode (frame Hi_payload ++ frame there_payload) in
  let dirty := Encoding.encode (frame Hi_payload ++ (malformed_line ++ [LF])
                                ++ frame there_payload) in
  fst (pipeThrough [firstn 70 dirty; skipn 70 dirty]) = Normal tt
  /\ deltas [firstn 70 dirty; skipn 70 dirty]
     = [Encoding.encode (lit "Hi"); Encoding.encode (lit " there")]
  /\ deltas [clean]
     = [Encoding.encode (lit "Hi"); Encoding.encode (lit " there")]
  /\ line_deltas malformed_line = []
  /\ buffer (snd (pipeThrough [firstn 70 dirty; skipn 70 dirty]))
     = buffer (snd (pipeThrough [clean])).
Proof.
  intros clean dirty.
  apply (@malformed_frame_tolerance Hi_payload (lit "Hi")
           there_payload (lit " there"));
    vm_compute; reflexivity.
Defined.

(** ** Lines that are not data lines *)

Lemma not_data_line (line : jsstring) :
  startsWith (trim line) data_prefix = false ->
  is_DONE line = false /\ line_effects line = [].
Proof.
  intros H. unfold is_DONE, line_effects. rewrite H. split.
  - destruct (strict_eq (trim line) DONE) eqn:E; [|reflexivity].
    apply strict_eq_true in E. rewrite E in H. discriminate.
  - now destruct (trim line).
Qed.

Lemma JSON_ws_is_white_space (c : codeunit) :
  JSON.is_ws c = true -> is_white_space c = true.
Proof.
  unfold JSON.is_ws, is_white_space. intros H.
  repeat (apply orb_prop in H as [H|H]); apply N.eqb_eq in H; subst c;
    reflexivity.
Qed.

Lemma value_start_facts (c : codeunit) :
  value_start c = true -> is_white_space c = false /\ N.eqb 100 c = false.
Proof.
  unfold value_start, JSON.is_digit. intros H.
  repeat (apply orb_prop in H as [H|H]);
    try (apply N.eqb_eq in H; subst c; split; reflexivity).
  apply andb_prop in H as [H1 H2].
  apply N.leb_le in H1. apply N.leb_le in H2.
  unfold is_white_space. split.
  - repeat (apply orb_false_intro);
      try (apply N.eqb_neq; lia).
    apply andb_false_intro1. apply N.leb_gt. lia.
  - apply N.eqb_neq. lia.
Qed.

Lemma parse_value_start (fuel : nat) (s : jsstring) (v : value) (r : jsstring) :
  JSON.parse_value fuel s = JSON.Ok v r ->
  exists c s', JSON.skip_ws s = c :: s' /\ value_start c = true.
Proof.
  destruct fuel as [|fuel]; [discriminate|]. simpl.
  destruct (JSON.skip_ws s) as [|c s']; [discriminate|].
  intros H. exists c, s'. split; [reflexivity|]. unfold value_start.
  repeat match type of H with
         | (if ?b then _ else _) = _ =>
             let E := fresh "E" in
             destruct b eqn:E;
             [ try (apply orb_prop in E as [E|E]; rewrite E);
               rewrite ?orb_true_r; reflexivity | ]
         end.
  discriminate.
Qed.

Lemma trimStart_skip_ws (s : jsstring) (c : codeunit) (s' : jsstring) :
  JSON.skip_ws s = c :: s' -> is_white_space c = false ->
  trimStart s = c :: s'.
Proof.
  induction s as [|x s IH]; simpl; [discriminate|].
  destruct (JSON.is_ws x) eqn:E.
  - rewrite (JSON_ws_is_white_space _ E). exact IH.
  - intros H Hc. inversion H; subst. now rewrite Hc.
Qed.

Lemma trimEnd_head (c : codeunit) (s : jsstring) :
  is_white_space c = false -> exists t, trimEnd (c :: s) = c :: t.
Proof.
  intros H. simpl. rewrite H. destruct (trimEnd s) as [|y t]; eauto.
Qed.

(** A line that is itself a JSON text is not a data line. *)
Lemma JSON_line_ignored (o : jsstring) (v : value) :
  JSON.parse o = Normal v ->
  is_DONE o = false /\ line_effects o = [].
Proof.
  unfold JSON.parse. intros H.
  destruct (JSON.parse_value (JSON.fuel_for o) o) as [v' r| |] eqn:E;
    try discriminate.
  apply parse_value_start in E as (c & s' & E1 & E2).
  apply value_start_facts in E2 as [W D].
  apply not_data_line. unfold trim.
  rewrite (trimStart_skip_ws _ E1 W).
  destruct (@trimEnd_head c s' W) as [t ->].
  change (startsWith (c :: t) data_prefix)
    with (N.eqb 100 c && startsWith t (lit "ata: ")).
  now rewrite D.
Qed.

Lemma message_shaped_content (data : value) (c : jsstring) :
  message_shaped data c ->
  exists v, content_of data = Normal v
            /\ match c with
               | [] => ToBoolean v = false
               | _ :: _ => v = VString c
               end.
Proof.
  intros (Hm & (a & Ha & Fa) & Hr). unfold content_of.
  rewrite Ha, Hm. cbn [logical_or and_then]. rewrite Fa.
  destruct c as [|x c].
  - destruct (Hr eq_refl) as (r & -> & Fr).
    cbn [logical_or and_then ToBoolean]. rewrite Fr. eauto.
  - cbn [logical_or and_then ToBoolean]. eauto.
Qed.

Lemma message_object_shaped (c : jsstring) :
  message_shaped (message_object c) c.
Proof.
  split; [reflexivity|]. split; [exists VUndefined; now split|].
  intros _. exists VUndefined. now split.
Qed.

Lemma message_line_framed (o c : jsstring) :
  message_line o c ->
  LF_free (data_prefix ++ o) = true
  /\ is_DONE (data_prefix ++ o) = false
  /\ line_deltas (data_prefix ++ o) = content_delta c.
Proof.
  intros (HL & HT & data & HP & HS).
  assert (HT' : trim (data_prefix ++ o) = data_prefix ++ o).
  { rewrite trim_data_line, HT. destruct o; [discriminate HP|reflexivity]. }
  rewrite LF_free_app, HL. split; [reflexivity|].
  unfold is_DONE, line_deltas, line_effects. rewrite HT'. split.
  - destruct (strict_eq (data_prefix ++ o) DONE) eqn:E; [|reflexivity].
    apply strict_eq_true in E.
    apply (app_inv_head data_prefix o (lit "[DONE]")) in E.
    subst o. discriminate HP.
  - rewrite startsWith_app.
    change (data_prefix ++ o) with (lit "data: " ++ o).
    cbn [lit list_ascii_of_string map app]. unfold frame_effects.
    change (slice 6 (_ :: _ :: _ :: _ :: _ :: _ :: o)) with o.
    rewrite HP. cbn [and_then].
    destruct (message_shaped_content HS) as (v & -> & Hv). cbn [and_then].
    destruct c as [|x c]; [now rewrite Hv|]. subst v. reflexivity.
Qed.

Lemma message_lines_bare (objects : list (jsstring * jsstring)) :
  Forall (fun oc => message_line (fst oc) (snd oc)) objects ->
  forallb LF_free (map fst objects) = true
  /\ existsb is_DONE (map fst objects) = false
  /\ flat_map line_deltas (map fst objects) = [].
Proof.
  induction 1 as [|[o c] l (HL & _ & data & HP & _) _ (I1 & I2 & I3)];
    [auto|].
  cbn [fst snd] in *. destruct (JSON_line_ignored _ HP) as [D Z].
  cbn [map forallb existsb flat_map fst].
  unfold line_deltas at 1. now rewrite HL, D, Z, I1, I2, I3.
Qed.

Lemma message_lines_framed (objects : list (jsstring * jsstring)) :
  Forall (fun oc => message_line (fst oc) (snd oc)) objects ->
  let lines := map (fun oc => data_prefix ++ fst oc) objects in
  forallb LF_free lines = true
  /\ existsb is_DONE lines = false
  /\ flat_map line_deltas lines
     = flat_map (fun oc => content_delta (snd oc)) objects.
Proof.
  induction 1 as [|[o c] l H _ (I1 & I2 & I3)]; [cbn; auto|].
  destruct (message_line_framed H) as (HL & HD & HE).
  cbn [map forallb existsb flat_map fst snd] in *.
  now rewrite HL, HD, HE, I1, I2, I3.
Qed.

(** C7, as the code has it.  Newline-delimited JSON objects whose
    [message.content] is [c], with whatever further members, that are not
    framed as SSE data lines yield no delta at all; the same objects, each
    after the prefix [data: ], yield the delta [c] for each object whose
    [c] is not empty, in order.  Both hold for every cut of the bytes into
    chunks. *)
Theorem ndjson_needs_framing
  (objects : list (jsstring * jsstring)) (bare framed : list bytes) :
  Forall (fun oc => message_line (fst oc) (snd oc)) objects ->
  decoded (List.concat bare) = unlines (map fst objects) ->
  decoded (List.concat framed)
  = unlines (map (fun oc => data_prefix ++ fst oc) objects) ->
  deltas bare = []
  /\ deltas framed = flat_map (fun oc => content_delta (snd oc)) objects.
Proof.
  intros HF E1 E2.
  destruct (message_lines_bare HF) as (A1 & A2 & A3).
  destruct (message_lines_framed HF) as (B1 & B2 & B3).
  destruct (deltas_of_lines _ _ A1 A2 E1) as (_ & D1 & _).
  destruct (deltas_of_lines _ _ B1 B2 E2) as (_ & D2 & _).
  split; congruence.
Qed.

Lemma ndjson_needs_framing_witness :
  deltas [firstn 9 ndjson_bare; skipn 9 ndjson_bare] = []
  /\ deltas [firstn 9 ndjson_framed; skipn 9 ndjson_framed]
     = [Encoding.encode (lit "Hel"); Encoding.encode (lit "lo")].
Proof.
  apply (@ndjson_needs_framing ndjson_objects).
  - repeat (constructor;
            [split; [vm_compute; reflexivity|];
             split; [vm_compute; reflexivity|];
             eexists; split; [vm_compute; reflexivity|];
             split; [vm_compute; reflexivity|];
             split; [eexists; split; vm_compute; reflexivity|];
             intros H; vm_compute in H; discriminate H|]).
    constructor.
  - vm_compute. reflexivity.
  - vm_compute. reflexivity.
Defined.

(** The claim C7 as the specification words it fails: a stream of
    newline-delimited objects without the framing yields no delta. *)
Lemma ndjson_unframed_counterexample :
  JSON.parse (json_lit "{'message':{'content':'Hi'}}")
  = Normal (message_object (lit "Hi"))
  /\ deltas [Encoding.encode (json_lit "{'message':{'content':'Hi'}}" ++ [LF])]
     = []
  /\ deltas [Encoding.encode (json_lit "{'message':{'content':'Hi'}}" ++ [LF])]
     <> [Encoding.encode (lit "Hi")].
Proof.
  split; [vm_compute; reflexivity|].
  split; [vm_compute; reflexivity|].
  vm_compute. discriminate.
Qed.

(** C10. Strict data-prefix match: a line whose trimmed form does not
    start with the six characters [data: ] yields no delta and leaves the
    store as it is; only the other lines reach JSON.parse. *)
Theorem strict_data_prefix (line : jsstring) (w : world) :
  startsWith (trim line) data_prefix = false ->
  line_deltas line = [] /\ for_lines [line] w = (Normal tt, w).
Proof.
  intros H. destruct (not_data_line _ H) as [D Z].
  rewrite for_lines_effects. simpl. unfold line_deltas.
  now rewrite D, Z, add_effects_nil.
Qed.

Lemma strict_data_prefix_witness :
  line_deltas no_space_line = []
  /\ for_lines [no_space_line] (createParser Encoding.new_TextDecoder)
     = (Normal tt, createParser Encoding.new_TextDecoder).
Proof. apply strict_data_prefix. vm_compute. reflexivity. Defined.

Example no_space_line_stream :
  deltas [Encoding.encode (no_space_line ++ [LF])] = []
  /\ deltas [Encoding.encode (json_lit "data: {'response':'Hi'}" ++ [LF])]
     = [Encoding.encode (lit "Hi")].
Proof. vm_compute. split; reflexivity. Qed.

(** C3, as the code has it.  When the array of lines of a call of [parse]
    holds a sentinel line, the call has the effects of the lines before
    it and no other: the sentinel yields no delta and the lines after it
    in the same call are not looked at.  The parser keeps no record of
    the sentinel: the next chunk is split and its lines are run through
    the loop like those of any other call. *)
Theorem sentinel_ends_the_call
  (w : world) (chunk next : bytes) (pre post : list jsstring) (line : jsstring) :
  dispatched w chunk = pre ++ line :: post ->
  is_DONE line = true ->
  effects (snd (parse chunk w)) = effects w ++ lines_effects pre
  /\ effects (snd (parse next (snd (parse chunk w))))
     = effects (snd (parse chunk w))
       ++ lines_effects (dispatched (snd (parse chunk w)) next).
Proof.
  intros E D. split.
  - rewrite parse_split. simpl. rewrite E, lines_effects_app. simpl.
    rewrite D. now destruct (existsb is_DONE pre); rewrite app_nil_r.
  - rewrite (parse_split next). reflexivity.
Qed.

Lemma sentinel_ends_the_call_witness :
  let w := createParser Encoding.new_TextDecoder in
  effects (snd (parse DONE_chunk w))
  = effects w ++ lines_effects [json_lit "data: {'response':'a'}"]
  /\ effects (snd (parse late_chunk (snd (parse DONE_chunk w))))
     = effects (snd (parse DONE_chunk w))
       ++ lines_effects (dispatched (snd (parse DONE_chunk w)) late_chunk).
Proof.
  intros w.
  apply (@sentinel_ends_the_call w DONE_chunk late_chunk
           [json_lit "data: {'response':'a'}"]
           [json_lit "data: {'response':'b'}"] DONE);
    vm_compute; reflexivity.
Defined.

(** The claim C3 as the specification words it fails: a frame in a chunk
    fed after the one with the sentinel is processed and yields its
    delta. *)
Lemma sentinel_finality_counterexample :
  existsb is_DONE (dispatched (createParser Encoding.new_TextDecoder) DONE_chunk)
  = true
  /\ deltas [DONE_chunk; late_chunk]
     = deltas [DONE_chunk] ++ [Encoding.encode (lit "Hi")]
  /\ deltas [DONE_chunk; late_chunk] <> deltas [DONE_chunk].
Proof.
  split; [vm_compute; reflexivity|].
  split; [vm_compute; reflexivity|].
  vm_compute. discriminate.
Qed.

(** ** The line buffer *)

Lemma split_lines_LF_free (s : jsstring) :
  forallb LF_free (split_lines s) = true.
Proof.
  induction s as [|c s IH]; simpl; [reflexivity|].
  destruct (N.eqb c LF) eqn:E; simpl; [assumption|].
  destruct (split_lines s) as [|seg segs]; simpl in *; rewrite E; auto.
Qed.

Lemma split_lines_whole (s : jsstring) :
  split_lines s = fst (scan [] s) ++ [snd (scan [] s)].
Proof. apply (@split_lines_scan s []). reflexivity. Qed.

Lemma dispatched_scan (w : world) (chunk : bytes) :
  LF_free (buffer w) = true ->
  dispatched w chunk
  = fst (scan (buffer w) (snd (Encoding.decode (textDecoder w) chunk))).
Proof.
  intros H. unfold dispatched. rewrite pop_or_empty_split. cbn [snd].
  rewrite split_lines_scan by assumption. apply removelast_last.
Qed.

Lemma line_buffer_two_calls (w : world) (chunk next : bytes) :
  LF_free (buffer w) = true ->
  dispatched w chunk ++ dispatched (snd (parse chunk w)) next
  = dispatched w (chunk ++ next)
  /\ buffer (snd (parse next (snd (parse chunk w))))
     = buffer (snd (parse (chunk ++ next) w)).
Proof.
  intros H.
  assert (H' : LF_free (buffer (snd (parse chunk w))) = true).
  { rewrite parse_scan by assumption. cbn [snd buffer].
    apply scan_LF_free, H. }
  rewrite !dispatched_scan by assumption.
  rewrite (parse_scan next) by assumption.
  rewrite (parse_scan (chunk ++ next)) by assumption.
  rewrite (parse_scan chunk) by assumption.
  cbn [snd buffer textDecoder]. rewrite decode_app. cbn [snd].
  rewrite scan_app. cbn [fst snd]. auto.
Qed.

(** C6. The line buffer.  A call of [parse] appends the decoded text to
    the buffer and splits the result at line feeds; all segments but the
    last are the lines handed to the loop during the call, and the last
    one, which may be empty, is the new buffer.  Neither a line nor the
    buffer holds a line feed; the lines and the buffer put together again
    are the old buffer and the text, nothing lost and nothing twice; and
    a line that spans two calls is handed to the loop whole: two calls
    dispatch the lines that one call on the joined chunk dispatches. *)
Theorem line_buffer_invariant (w : world) (chunk next : bytes) :
  let text := snd (Encoding.decode (textDecoder w) chunk) in
  let w' := snd (parse chunk w) in
  fst (parse chunk w) = Normal tt
  /\ dispatched w chunk ++ [buffer w'] = split_lines (buffer w ++ text)
  /\ effects w' = effects w ++ lines_effects (dispatched w chunk)
  /\ (existsb is_DONE (dispatched w chunk) = false ->
      lines_effects (dispatched w chunk)
      = flat_map line_effects (dispatched w chunk))
  /\ forallb LF_free (dispatched w chunk) = true
  /\ LF_free (buffer w') = true
  /\ unlines (dispatched w chunk) ++ buffer w' = buffer w ++ text
  /\ (LF_free (buffer w) = true ->
      dispatched w chunk ++ dispatched w' next = dispatched w (chunk ++ next)
      /\ buffer (snd (parse next w'))
         = buffer (snd (parse (chunk ++ next) w))).
Proof.
  intros text w'. subst w'.
  split; [now rewrite parse_split|].
  split.
  { rewrite parse_split. cbn [snd buffer]. unfold dispatched.
    rewrite pop_or_empty_split. cbn [snd]. fold text. symmetry.
    apply app_removelast_last, split_lines_not_nil. }
  split; [now rewrite parse_split|].
  split.
  { intros H. rewrite lines_effects_before_DONE.
    rewrite <- (app_nil_r (dispatched w chunk)) at 1.
    rewrite before_DONE_app by assumption. simpl. now rewrite app_nil_r. }
  assert (E : dispatched w chunk = fst (scan [] (buffer w ++ text))
              /\ buffer (snd (parse chunk w)) = snd (scan [] (buffer w ++ text))).
  { rewrite parse_split. cbn [snd buffer]. unfold dispatched.
    rewrite pop_or_empty_split. cbn [snd]. fold text.
    rewrite (split_lines_whole (buffer w ++ text)).
    now rewrite last_last, removelast_last. }
  destruct E as [E1 E2]. rewrite E1, E2.
  destruct (@scan_LF_free (buffer w ++ text) [] eq_refl) as [F1 F2].
  repeat split; trivial.
  - apply (scan_join (buffer w ++ text) []).
  - rewrite <- E1. now apply line_buffer_two_calls.
  - now apply line_buffer_two_calls.
Qed.

Lemma line_buffer_invariant_witness :
  let w := createParser Encoding.new_TextDecoder in
  dispatched w split_chunk_1 = [json_lit "data: {'response':'a'}"]
  /\ buffer (snd (parse split_chunk_1 w)) = json_lit "data: {'resp"
  /\ dispatched (snd (parse split_chunk_1 w)) split_chunk_2
     = [json_lit "data: {'response':'b'}"]
  /\ dispatched w split_chunk_1
     ++ dispatched (snd (parse split_chunk_1 w)) split_chunk_2
     = dispatched w (split_chunk_1 ++ split_chunk_2)
  /\ buffer (snd (parse split_chunk_2 (snd (parse split_chunk_1 w))))
     = buffer (snd (parse (split_chunk_1 ++ split_chunk_2) w))
  /\ lines_effects (dispatched w split_chunk_1)
     = flat_map line_effects (dispatched w split_chunk_1).
Proof.
  intros w.
  destruct (line_buffer_invariant w split_chunk_1 split_chunk_2)
    as (_ & _ & _ & H4 & _ & _ & _ & H8).
  destruct (H8 eq_refl) as [H9 H10].
  split; [vm_compute; reflexivity|].
  split; [vm_compute; reflexivity|].
  split; [vm_compute; reflexivity|].
  split; [exact H9|].
  split; [exact H10|].
  apply H4. vm_compute. reflexivity.
Defined.

(** ** Content extraction *)

Lemma Get_not_nullish (b : value) (k : property_key) :
  nullish b = false -> exists v, Get b k = Normal v.
Proof.
  destruct b; simpl; try discriminate; intros _; eauto.
  - destruct k; eauto. destruct (nth_error s (N.to_nat i)); eauto.
  - destruct (own_property props (key_string k)); eauto.
  - destruct k; eauto. destruct (nth_error elems (N.to_nat i)); eauto.
Qed.

Lemma optional_get_normal (b : value) (k : property_key) :
  exists v, optional_get (Normal b) k = Normal v.
Proof.
  simpl. destruct (nullish b) eqn:E; eauto using Get_not_nullish.
Qed.

Lemma logical_or_normal (x y : value) :
  exists v, logical_or (Normal x) (Normal y) = Normal v.
Proof. simpl. destruct (ToBoolean x); eauto. Qed.

Lemma content_of_not_nullish (data : value) :
  nullish data = false -> exists v, content_of data = Normal v.
Proof.
  intros H. unfold content_of, choices_0_delta_content, message_content,
    response.
  destruct (@Get_not_nullish data (Name (lit "choices")) H) as [c ->].
  destruct (optional_get_normal c (Index 0)) as [c0 ->].
  destruct (optional_get_normal c0 (Name (lit "delta"))) as [d ->].
  destruct (optional_get_normal d (Name (lit "content"))) as [a ->].
  destruct (@Get_not_nullish data (Name (lit "message")) H) as [m ->].
  destruct (optional_get_normal m (Name (lit "content"))) as [b ->].
  destruct (@Get_not_nullish data (Name (lit "response")) H) as [r ->].
  destruct (logical_or_normal a b) as [x ->].
  destruct (logical_or_normal x r) as [y ->].
  apply logical_or_normal.
Qed.

Lemma frame_effects_at_most_one (trimmedLine : jsstring) :
  (List.length (enqueued (frame_effects trimmedLine)) <= 1)%nat.
Proof.
  unfold frame_effects.
  destruct (JSON.parse (slice 6 trimmedLine)) as [data|e]; simpl; [|lia].
  destruct (content_of data) as [content|e]; simpl; [|lia].
  destruct (ToBoolean content); simpl; [|lia].
  destruct (TextEncoder_encode content); simpl; lia.
Qed.

(** The effects of the [try] statement on a line whose payload parses. *)
Lemma frame_effects_content (trimmedLine : jsstring) (data v : value) :
  JSON.parse (slice 6 trimmedLine) = Normal data ->
  content_of data = Normal v ->
  frame_effects trimmedLine
  = if ToBoolean v
    then match TextEncoder_encode v with
         | Normal chunk => [Enqueue chunk]
         | Throw e => logged trimmedLine e
         end
    else [].
Proof.
  intros HP Hv. unfold frame_effects. rewrite HP. cbn [and_then].
  rewrite Hv. cbn [and_then]. destruct (ToBoolean v); [|reflexivity].
  now destruct (TextEncoder_encode v).
Qed.

(** C9, as the code has it.  Whatever the line, the [try] statement
    completes normally and enqueues at most one delta, so that no error
    leaves the parser.  When the payload parses to null, the content
    expression throws a TypeError and the statement logs it and enqueues
    nothing.  For every other payload value the content expression
    evaluates without throwing: a missing or falsy content leaves the
    store as it is, no delta and no log; a truthy content of any type is
    converted to text and enqueued, and logged when the conversion
    throws. *)
Theorem extractor_totality (data : value) (trimmedLine : jsstring) (w : world) :
  (exists es,
      try_catch (try_body trimmedLine) (catch_handler trimmedLine) w
      = (Normal tt, add_effects w es)
      /\ (List.length (enqueued es) <= 1)%nat)
  /\ (JSON.parse (slice 6 trimmedLine) = Normal data ->
      (nullish data = true ->
       content_of data = Throw (EngineError TypeError)
       /\ try_catch (try_body trimmedLine) (catch_handler trimmedLine) w
          = (Normal tt,
             add_effects w (logged trimmedLine (EngineError TypeError))))
      /\ (nullish data = false ->
          exists v,
            content_of data = Normal v
            /\ try_catch (try_body trimmedLine) (catch_handler trimmedLine) w
               = (Normal tt,
                  if ToBoolean v
                  then match TextEncoder_encode v with
                       | Normal chunk => add_effects w [Enqueue chunk]
                       | Throw e => add_effects w (logged trimmedLine e)
                       end
                  else w))).
Proof.
  split.
  - exists (frame_effects trimmedLine). split.
    + apply try_statement_effects.
    + apply frame_effects_at_most_one.
  - intros HP. rewrite try_statement_effects. split.
    + intros N.
      assert (E : content_of data = Throw (EngineError TypeError))
        by (destruct data; simpl in N; (discriminate N || reflexivity)).
      split; [exact E|]. unfold frame_effects. rewrite HP. cbn [and_then].
      now rewrite E.
    + intros N. destruct (content_of_not_nullish _ N) as [v Hv].
      exists v. split; [exact Hv|].
      rewrite (frame_effects_content _ HP Hv).
      destruct (ToBoolean v); [|now rewrite add_effects_nil].
      now destruct (TextEncoder_encode v).
Qed.

Lemma extractor_totality_witness :
  try_catch (try_body (lit "data: null")) (catch_handler (lit "data: null"))
            (createParser Encoding.new_TextDecoder)
  = (Normal tt,
     add_effects (createParser Encoding.new_TextDecoder)
                 (logged (lit "data: null") (EngineError TypeError)))
  /\ try_catch (try_body true_response) (catch_handler true_response)
               (createParser Encoding.new_TextDecoder)
     = (Normal tt,
        add_effects (createParser Encoding.new_TextDecoder)
                    [Enqueue (Encoding.encode (lit "true"))])
  /\ try_catch (try_body (json_lit "data: {'role':'assistant'}"))
               (catch_handler (json_lit "data: {'role':'assistant'}"))
               (createParser Encoding.new_TextDecoder)
     = (Normal tt, createParser Encoding.new_TextDecoder).
Proof.
  split; [|split].
  - apply (extractor_totality VNull (lit "data: null")
             (createParser Encoding.new_TextDecoder)); reflexivity.
  - destruct (extractor_totality
                (VObject [(lit "response", VBoolean true)]) true_response
                (createParser Encoding.new_TextDecoder))
      as (_ & H).
    destruct H as (_ & H); [vm_compute; reflexivity|].
    destruct (H eq_refl) as (v & Hv & ->).
    vm_compute in Hv. injection Hv as <-. reflexivity.
  - destruct (extractor_totality
                (VObject [(lit "role", VString (lit "assistant"))])
                (json_lit "data: {'role':'assistant'}")
                (createParser Encoding.new_TextDecoder))
      as (_ & H).
    destruct H as (_ & H); [vm_compute; reflexivity|].
    destruct (H eq_refl) as (v & Hv & ->).
    vm_compute in Hv. injection Hv as <-. reflexivity.
Defined.

(** The claim C9 as worded fails twice: the payload [null] makes the
    content expression throw, and a field of the wrong type is not
    dropped but enqueued as text. *)
Lemma extractor_totality_counterexample :
  JSON.parse (lit "null") = Normal VNull
  /\ ~ (exists v, content_of VNull = Normal v)
  /\ JSON.parse (json_lit "{'response':true}")
     = Normal (VObject [(lit "response", VBoolean true)])
  /\ payload_deltas (json_lit "{'response':true}")
     = [Encoding.encode (lit "true")]
  /\ payload_deltas (json_lit "{'response':true}") <> [].
Proof.
  split; [vm_compute; reflexivity|].
  split; [intros [v H]; vm_compute in H; discriminate|].
  split; [vm_compute; reflexivity|].
  split; [vm_compute; reflexivity|].
  vm_compute. discriminate.
Qed.

(** The deltas of a stream that is one data frame whose payload parses. *)
Lemma data_frame_deltas (payload : jsstring) (data : value)
  (chunks : list bytes) :
  LF_free payload = true ->
  JSON.parse (slice 6 (trim (data_prefix ++ payload))) = Normal data ->
  decoded (List.concat chunks) = frame payload ->
  deltas chunks = enqueued (frame_effects (trim (data_prefix ++ payload))).
Proof.
  intros HL HP HD.
  assert (HT : exists x t, trim (data_prefix ++ payload)
                           = data_prefix ++ x :: t).
  { rewrite trim_data_line in *.
    destruct (trimEnd payload) as [|x t]; [discriminate HP|eauto]. }
  destruct HT as (x & t & HT).
  assert (D : is_DONE (data_prefix ++ payload) = false).
  { unfold is_DONE. rewrite HT.
    destruct (strict_eq (data_prefix ++ x :: t) DONE) eqn:E; [|reflexivity].
    apply strict_eq_true in E. rewrite HT, E in HP. discriminate HP. }
  assert (L : forallb LF_free [data_prefix ++ payload; []] = true).
  { cbn [forallb]. now rewrite LF_free_app, HL. }
  assert (N : existsb is_DONE [data_prefix ++ payload; []] = false).
  { cbn [existsb]. now rewrite D. }
  assert (U : frame payload = unlines [data_prefix ++ payload; []]).
  { unfold frame, unlines. cbn [flat_map]. now rewrite <- !app_assoc. }
  rewrite U in HD.
  destruct (deltas_of_lines _ _ L N HD) as (_ & -> & _).
  cbn [flat_map]. change (line_deltas []) with (@nil bytes).
  cbn [app]. rewrite app_nil_r.
  unfold line_deltas, line_effects. cbv zeta. rewrite HT.
  now rewrite startsWith_app.
Qed.

(** C2. Dual-shape ordered extraction: when the three reads of a parsed
    payload give [a], [b] and [c], the content is the first of them that
    is not empty; the [try] statement of the parser enqueues that one and
    nothing else, or does nothing when all three are empty; and a stream
    that is the frame of this payload, however it is cut into chunks,
    yields that one delta, or none.  The four payloads of the
    specification, fed through the parser, yield Hi, Hi, Hi and no
    delta. *)
Theorem dual_shape_extraction
  (data a b c : value) (payload : jsstring) (chunks : list bytes)
  (w : world) :
  LF_free payload = true ->
  JSON.parse (slice 6 (trim (data_prefix ++ payload))) = Normal data ->
  choices_0_delta_content data = Normal a ->
  message_content data = Normal b ->
  response data = Normal c ->
  decoded (List.concat chunks) = frame payload ->
  (content_of data
   = Normal (match first_non_empty a b c with
             | Some v => v
             | None => VString []
             end)
   /\ try_catch (try_body (trim (data_prefix ++ payload)))
                (catch_handler (trim (data_prefix ++ payload))) w
      = (Normal tt,
         match first_non_empty a b c with
         | Some v =>
             match TextEncoder_encode v with
             | Normal chunk => add_effects w [Enqueue chunk]
             | Throw e =>
                 add_effects w (logged (trim (data_prefix ++ payload)) e)
             end
         | None => w
         end)
   /\ deltas chunks
      = match first_non_empty a b c with
        | Some v =>
            match TextEncoder_encode v with
            | Normal chunk => [chunk]
            | Throw _ => []
            end
        | None => []
        end)
  /\ deltas [Encoding.encode
               (frame (json_lit "{'choices':[{'delta':{'content':'Hi'}}]}"))]
     = [Encoding.encode (lit "Hi")]
  /\ deltas [Encoding.encode (frame (json_lit "{'message':{'content':'Hi'}}"))]
     = [Encoding.encode (lit "Hi")]
  /\ deltas [Encoding.encode (frame (json_lit "{'response':'Hi'}"))]
     = [Encoding.encode (lit "Hi")]
  /\ deltas [Encoding.encode (frame (json_lit "{'role':'assistant'}"))] = [].
Proof.
  intros HL HP Ha Hb Hc HD.
  split; [|vm_compute; repeat split].
  assert (E : content_of data
              = Normal (match first_non_empty a b c with
                        | Some v => v
                        | None => VString []
                        end)).
  { unfold content_of, first_non_empty, logical_or. rewrite Ha, Hb, Hc.
    destruct (ToBoolean a) eqn:Ea; destruct (ToBoolean b) eqn:Eb;
      destruct (ToBoolean c) eqn:Ec;
      repeat (progress (cbn [and_then]; rewrite ?Ea, ?Eb, ?Ec));
      reflexivity. }
  assert (F : forall v, first_non_empty a b c = Some v -> ToBoolean v = true).
  { unfold first_non_empty. intros v.
    destruct (ToBoolean a) eqn:Ea; [now intros [= <-]|].
    destruct (ToBoolean b) eqn:Eb; [now intros [= <-]|].
    destruct (ToBoolean c) eqn:Ec; [now intros [= <-]|discriminate]. }
  split; [exact E|].
  rewrite (@data_frame_deltas payload data chunks HL HP HD), try_statement_effects.
  rewrite (frame_effects_content _ HP E).
  destruct (first_non_empty a b c) as [v|].
  - rewrite (F v eq_refl). now destruct (TextEncoder_encode v).
  - cbn [ToBoolean]. now rewrite add_effects_nil.
Qed.

Lemma dual_shape_extraction_witness :
  deltas [Encoding.encode (three_fields ++ [LF; LF])]
  = [Encoding.encode (lit "B")]
  /\ deltas [Encoding.encode
               (frame (json_lit "{'choices':[{'delta':{'content':'Hi'}}]}"))]
     = [Encoding.encode (lit "Hi")]
  /\ deltas [Encoding.encode (frame (json_lit "{'role':'assistant'}"))] = [].
Proof.
  destruct (@dual_shape_extraction
              (VObject [(lit "choices",
                         VArray [VObject [(lit "delta",
                                           VObject [(lit "content", VString [])])]]);
                        (lit "message", VObject [(lit "content", VString (lit "B"))]);
                        (lit "response", VString (lit "C"))])
              (VString []) (VString (lit "B")) (VString (lit "C"))
              (slice 6 three_fields)
              [Encoding.encode (three_fields ++ [LF; LF])]
              (createParser Encoding.new_TextDecoder))
    as ((_ & _ & H) & H1 & _ & _ & H4);
    try (vm_compute; reflexivity).
  split; [exact H|]. split; [exact H1|exact H4].
Defined.

(** ** The handler *)

Lemma message_or_default_not_empty
  (engine_message : error_kind -> jsstring) (error : exn) :
  message_or_default engine_message error <> [].
Proof.
  unfold message_or_default.
  destruct (error_message engine_message error); discriminate.
Qed.

(** With every upstream answer a non-success status, the [try] block of
    the handler does not complete normally. *)
Lemma POST_try_rejected
  (env : jsstring -> option jsstring)
  (req_json : completion request)
  (fetch : fetch_request -> completion upstream_response) :
  (forall rq response,
      fetch rq = Normal response -> url rq = upstream_url env ->
      ok response = false) ->
  exists error, POST_try env req_json fetch = Throw error.
Proof.
  intros H. unfold POST_try, upstream_url in *.
  destruct req_json as [r|e]; [|simpl; eauto]. cbn [and_then].
  match goal with
  | |- context [and_then ?x _] => destruct x as [additionalContext|e]
  end; [|simpl; eauto]. cbn [and_then].
  match goal with
  | |- context [and_then ?x _] => destruct x as [contextEnhancedMessages|e]
  end; [|simpl; eauto]. cbn [and_then].
  destruct (strict_eq (provider env) (lit "ollama")) eqn:P;
    match goal with
    | |- context [fetch ?rq] =>
        destruct (fetch rq) as [response|e] eqn:F; [|simpl; eauto];
        cbn [and_then]; rewrite (H _ _ F eq_refl); cbn [and_then negb];
        destruct (text response); simpl; eauto
    end.
Qed.

(** C8. Pre-stream failure surface: when the upstream answers the chat
    completion call with a non-success status, the handler returns a JSON
    body with the fields [error], a non-empty message string, and
    [details], a string, under status 500, and so never a stream. *)
Theorem pre_stream_failure
  (env : jsstring -> option jsstring)
  (engine_message : error_kind -> jsstring)
  (req_json : completion request)
  (fetch : fetch_request -> completion upstream_response) :
  (forall rq response,
      fetch rq = Normal response -> url rq = upstream_url env ->
      ok response = false) ->
  (exists message details,
      POST env engine_message req_json fetch
      = NextResponse_json
          (VObject [(lit "error", VString message);
                    (lit "details", VString details)])
          500
      /\ message <> [])
  /\ forall chunks,
      POST env engine_message req_json fetch <> StreamingTextResponse chunks.
Proof.
  intros H. destruct (POST_try_rejected env req_json fetch H) as [error E].
  unfold POST. rewrite E. split.
  - eexists _, _. split; [reflexivity|].
    apply message_or_default_not_empty.
  - discriminate.
Qed.

Lemma pre_stream_failure_witness :
  (exists message details,
      POST no_env (fun _ => []) chat_request not_found
      = NextResponse_json
          (VObject [(lit "error", VString message);
                    (lit "details", VString details)])
          500
      /\ message <> [])
  /\ forall chunks,
      POST no_env (fun _ => []) chat_request not_found
      <> StreamingTextResponse chunks.
Proof. apply pre_stream_failure. intros rq response H _. now inversion H. Defined.

Example not_found_response :
  POST no_env (fun _ => []) chat_request not_found
  = NextResponse_json
      (VObject [(lit "error", VString (lit "Ollama API error: model not found"));
                (lit "details",
                 VString (lit "Error: Ollama API error: model not found"))])
      500.
Proof. vm_compute. reflexivity. Qed.

(** ** JSON.parse never runs out of fuel *)

Section JSONFuel.

Import JSON.

Lemma skip_ws_length (s : jsstring) :
  (List.length (skip_ws s) <= List.length s)%nat.
Proof.
  induction s as [|c s IH]; simpl; [lia|].
  destruct (is_ws c); simpl; lia.
Qed.

Lemma skip_ws_cons (s : jsstring) (c : codeunit) (s' : jsstring) :
  skip_ws s = c :: s' -> (List.length s' < List.length s)%nat.
Proof.
  intros H. pose proof (skip_ws_length s) as L. rewrite H in L. simpl in L.
  lia.
Qed.

Lemma parse_string_chars_length (s t r : jsstring) :
  parse_string_chars s = Some (t, r) -> (List.length r < List.length s)%nat.
Proof.
  remember (List.length s) as n eqn:E. revert s t r E.
  induction n as [n IH] using lt_wf_ind. intros s t r E H. subst n.
  destruct s as [|c s]; [discriminate|]. simpl in H.
  destruct (N.eqb c 34). { inversion H; subst. simpl. lia. }
  destruct (N.eqb c 92).
  - destruct s as [|e s]; [discriminate|].
    destruct (N.eqb e 117).
    + destruct s as [|h1 [|h2 [|h3 [|h4 s]]]]; try discriminate.
      destruct (hex4 h1 h2 h3 h4); [|discriminate].
      destruct (parse_string_chars s) as [[t' r']|] eqn:P; [|discriminate].
      inversion H; subst.
      specialize (IH (List.length s)). simpl in *.
      assert (List.length r < List.length s)%nat by (eapply IH; eauto; lia).
      lia.
    + destruct (simple_escape e); [|discriminate].
      destruct (parse_string_chars s) as [[t' r']|] eqn:P; [|discriminate].
      inversion H; subst.
      specialize (IH (List.length s)). simpl in *.
      assert (List.length r < List.length s)%nat by (eapply IH; eauto; lia).
      lia.
  - destruct (N.ltb c 32); [discriminate|].
    destruct (parse_string_chars s) as [[t' r']|] eqn:P; [|discriminate].
    inversion H; subst.
    specialize (IH (List.length s)). simpl in *.
    assert (List.length r < List.length s)%nat by (eapply IH; eauto; lia).
    lia.
Qed.

Lemma span_digits_length (s : jsstring) :
  (List.length (snd (span_digits s)) <= List.length s)%nat.
Proof.
  induction s as [|c s IH]; simpl; [lia|].
  destruct (is_digit c); simpl; [|lia].
  destruct (span_digits s). simpl in *. lia.
Qed.

Lemma parse_number_length (s : jsstring) (x : Float64.float64) (r : jsstring) :
  parse_number s = Some (x, r) -> (List.length r < List.length s)%nat.
Proof.
  unfold parse_number.
  set (p := match s with
            | [] => (false, s)
            | c :: s' => if N.eqb c 45 then (true, s') else (false, s)
            end).
  assert (L0 : (List.length (snd p) <= List.length s)%nat).
  { subst p. destruct s as [|c s']; simpl; [lia|].
    destruct (N.eqb c 45); simpl; lia. }
  destruct p as [neg s0]. simpl in L0.
  destruct (parse_int s0) as [[ip s1]|] eqn:I; [|discriminate].
  assert (L1 : (List.length s1 < List.length s0)%nat).
  { unfold parse_int in I. destruct s0 as [|c s0']; [discriminate|].
    destruct (N.eqb c 48). { inversion I; subst. simpl. lia. }
    destruct (is_digit c); [|discriminate].
    pose proof (span_digits_length s0') as L.
    destruct (span_digits s0'). inversion I; subst. simpl in *. lia. }
  destruct (parse_frac s1) as [[fp s2]|] eqn:F; [|discriminate].
  assert (L2 : (List.length s2 <= List.length s1)%nat).
  { unfold parse_frac in F. destruct s1 as [|c s1'].
    { inversion F; subst. simpl. lia. }
    destruct (N.eqb c 46).
    - pose proof (span_digits_length s1') as L.
      destruct (span_digits s1') as [[|d ds] r']; [discriminate|].
      inversion F; subst. simpl in *. lia.
    - inversion F; subst. lia. }
  destruct (parse_exp s2) as [[ex s3]|] eqn:X; [|discriminate].
  assert (L3 : (List.length s3 <= List.length s2)%nat).
  { unfold parse_exp in X. destruct s2 as [|c s2'].
    { inversion X; subst. simpl. lia. }
    destruct (N.eqb c 101 || N.eqb c 69).
    - set (q := match s2' with
                | [] => (false, s2')
                | g :: s'' =>
                    if N.eqb g 45 then (true, s'')
                    else if N.eqb g 43 then (false, s'') else (false, s2')
                end) in X.
      assert (Lq : (List.length (snd q) <= List.length s2')%nat).
      { subst q. destruct s2' as [|g s'']; simpl; [lia|].
        destruct (N.eqb g 45); simpl; [lia|].
        destruct (N.eqb g 43); simpl; lia. }
      destruct q as [ng s4]. simpl in Lq.
      pose proof (span_digits_length s4) as L.
      destruct (span_digits s4) as [[|d ds] r']; [discriminate|].
      inversion X; subst. simpl in *. lia.
    - inversion X; subst. lia. }
  intros H. inversion H; subst. lia.
Qed.

Lemma keyword_length (s : jsstring) (w : string) (v v' : value) (r : jsstring) :
  keyword s w v = Ok v' r -> w <> EmptyString ->
  (List.length r < List.length s)%nat.
Proof.
  unfold keyword. destruct (startsWith s (lit w)) eqn:E; [|discriminate].
  intros H Hw. inversion H; subst.
  destruct w as [|a w]; [congruence|]. destruct s as [|c s]; [discriminate|].
  simpl. pose proof (length_skipn (String.length w) s). lia.
Qed.

(** What is left after a value is shorter than the text. *)
Lemma parse_consumes (fuel : nat) :
  (forall s v r, parse_value fuel s = Ok v r ->
                 (List.length r < List.length s)%nat)
  /\ (forall acc s v r, parse_elements fuel acc s = Ok v r ->
                        (List.length r < List.length s)%nat)
  /\ (forall acc s v r, parse_members fuel acc s = Ok v r ->
                        (List.length r < List.length s)%nat).
Proof.
  induction fuel as [|fuel (IHv & IHe & IHm)];
    [repeat split; intros; discriminate|].
  split; [|split].
  - intros s v r. simpl.
    destruct (skip_ws s) as [|c s'] eqn:S; [discriminate|].
    apply skip_ws_cons in S.
    destruct (N.eqb c 123).
    { destruct (skip_ws s') as [|c2 s2] eqn:S2; [discriminate|].
      apply skip_ws_cons in S2.
      destruct (N.eqb c2 125).
      - intros H. inversion H; subst. lia.
      - intros H. apply IHm in H. lia. }
    destruct (N.eqb c 91).
    { destruct (skip_ws s') as [|c2 s2] eqn:S2; [discriminate|].
      apply skip_ws_cons in S2.
      destruct (N.eqb c2 93).
      - intros H. inversion H; subst. lia.
      - intros H. apply IHe in H. lia. }
    destruct (N.eqb c 34).
    { destruct (parse_string_chars s') as [[t r']|] eqn:P; [|discriminate].
      apply parse_string_chars_length in P.
      intros H. inversion H; subst. lia. }
    destruct (N.eqb c 116).
    { intros H. apply keyword_length in H; [simpl in H; lia|discriminate]. }
    destruct (N.eqb c 102).
    { intros H. apply keyword_length in H; [simpl in H; lia|discriminate]. }
    destruct (N.eqb c 110).
    { intros H. apply keyword_length in H; [simpl in H; lia|discriminate]. }
    destruct (N.eqb c 45 || is_digit c); [|discriminate].
    destruct (parse_number (c :: s')) as [[x r']|] eqn:P; [|discriminate].
    apply parse_number_length in P.
    intros H. inversion H; subst. simpl in P. lia.
  - intros acc s v r. simpl.
    destruct (parse_value fuel s) as [v' r'| |] eqn:P; try discriminate.
    apply IHv in P.
    destruct (skip_ws r') as [|c r''] eqn:S; [discriminate|].
    apply skip_ws_cons in S.
    destruct (N.eqb c 44).
    { intros H. apply IHe in H. lia. }
    destruct (N.eqb c 93); [|discriminate].
    intros H. inversion H; subst. lia.
  - intros acc s v r. simpl.
    destruct (skip_ws s) as [|q s1] eqn:S; [discriminate|].
    apply skip_ws_cons in S.
    destruct (N.eqb q 34); [|discriminate].
    destruct (parse_string_chars s1) as [[k r0]|] eqn:P; [|discriminate].
    apply parse_string_chars_length in P.
    destruct (skip_ws r0) as [|c r1] eqn:S1; [discriminate|].
    apply skip_ws_cons in S1.
    destruct (N.eqb c 58); [|discriminate].
    destruct (parse_value fuel r1) as [v' r2| |] eqn:PV; try discriminate.
    apply IHv in PV.
    destruct (skip_ws r2) as [|d r3] eqn:S2; [discriminate|].
    apply skip_ws_cons in S2.
    destruct (N.eqb d 44).
    { intros H. apply IHm in H. lia. }
    destruct (N.eqb d 125); [|discriminate].
    intros H. inversion H; subst. lia.
Qed.

Lemma parse_enough_fuel (fuel : nat) :
  (forall s, (2 * List.length s < fuel)%nat ->
             parse_value fuel s <> OutOfFuel)
  /\ (forall acc s, (2 * List.length s + 1 < fuel)%nat ->
                    parse_elements fuel acc s <> OutOfFuel)
  /\ (forall acc s, (2 * List.length s + 1 < fuel)%nat ->
                    parse_members fuel acc s <> OutOfFuel).
Proof.
  induction fuel as [|fuel (IHv & IHe & IHm)];
    [repeat split; intros; lia|].
  destruct (parse_consumes fuel) as (Cv & _ & _).
  split; [|split].
  - intros s L. simpl.
    destruct (skip_ws s) as [|c s'] eqn:S; [discriminate|].
    apply skip_ws_cons in S.
    destruct (N.eqb c 123).
    { destruct (skip_ws s') as [|c2 s2]; [discriminate|].
      destruct (N.eqb c2 125); [discriminate|]. apply IHm. lia. }
    destruct (N.eqb c 91).
    { destruct (skip_ws s') as [|c2 s2]; [discriminate|].
      destruct (N.eqb c2 93); [discriminate|]. apply IHe. lia. }
    destruct (N.eqb c 34).
    { destruct (parse_string_chars s') as [[t r']|]; discriminate. }
    unfold keyword.
    repeat match goal with
           | |- (if ?b then _ else _) <> _ => destruct b
           end; try discriminate.
    destruct (parse_number (c :: s')) as [[x r']|]; discriminate.
  - intros acc s L. simpl.
    destruct (parse_value fuel s) as [v' r'| |] eqn:P; try discriminate.
    + apply Cv in P.
      destruct (skip_ws r') as [|c r''] eqn:S; [discriminate|].
      apply skip_ws_cons in S.
      destruct (N.eqb c 44); [apply IHe; lia|].
      destruct (N.eqb c 93); discriminate.
    + exfalso. revert P. apply IHv. lia.
  - intros acc s L. simpl.
    destruct (skip_ws s) as [|q s1] eqn:S; [discriminate|].
    apply skip_ws_cons in S.
    destruct (N.eqb q 34); [|discriminate].
    destruct (parse_string_chars s1) as [[k r0]|] eqn:P; [|discriminate].
    apply parse_string_chars_length in P.
    destruct (skip_ws r0) as [|c r1] eqn:S1; [discriminate|].
    apply skip_ws_cons in S1.
    destruct (N.eqb c 58); [|discriminate].
    destruct (parse_value fuel r1) as [v' r2| |] eqn:PV; try discriminate.
    + apply Cv in PV.
      destruct (skip_ws r2) as [|d r3] eqn:S2; [discriminate|].
      apply skip_ws_cons in S2.
      destruct (N.eqb d 44); [apply IHm; lia|].
      destruct (N.eqb d 125); discriminate.
    + exfalso. revert PV. apply IHv. lia.
Qed.

(** [JSON.parse] decides with the fuel it takes: a SyntaxError is a
    verdict of the grammar. *)
Lemma JSON_parse_total (text : jsstring) :
  parse_value (fuel_for text) text <> OutOfFuel.
Proof. apply parse_enough_fuel. unfold fuel_for. lia. Qed.

End JSONFuel.

(** ** UTF-8: decoding what was encoded *)

Section UTF8.

Import Encoding.
Local Open Scope N_scope.
Local Unset Implicit Arguments.

Lemma lor_shiftl_6 (x y : N) : y < 64 -> N.lor (N.shiftl x 6) y = x * 64 + y.
Proof.
  intros H. rewrite N.shiftl_mul_pow2. change (2 ^ 6) with 64.
  assert (Z : N.land (x * 64) y = 0).
  { apply N.bits_inj_0. intros n. rewrite N.land_spec.
    destruct (N.lt_ge_cases n 6) as [L|L].
    - replace (x * 64) with (x * 2 ^ 6) by reflexivity.
      rewrite N.mul_pow2_bits_low by assumption. reflexivity.
    - rewrite (N.bits_above_log2 y n); [apply andb_false_r|].
      destruct (N.eq_dec y 0) as [->|Hy]; [simpl; lia|].
      apply N.lt_le_trans with 6; [|assumption].
      apply N.log2_lt_pow2; [lia|]. exact H. }
  rewrite <- N.lxor_lor by assumption. symmetry.
  now apply N.add_nocarry_lxor.
Qed.

Ltac arith := zify; Z.to_euclidean_division_equations; lia.

Ltac tests :=
  repeat match goal with
         | |- context [N.leb ?a ?b] =>
             destruct (N.leb_spec a b); try (exfalso; arith)
         | |- context [N.ltb ?a ?b] =>
             destruct (N.ltb_spec a b); try (exfalso; arith)
         | |- context [N.eqb ?a ?b] =>
             destruct (N.eqb_spec a b); try (exfalso; arith)
         end.

Lemma handler_continuation (cp seen needed lo hi y : N) :
  needed <> 0 -> y < 64 -> lo <= 0x80 + y <= hi ->
  utf8_handler (pending cp seen needed lo hi) (0x80 + y)
  = if seen + 1 =? needed then (utf8_initial, [cp * 64 + y])
    else (pending (cp * 64 + y) (seen + 1) needed 0x80 0xBF, []).
Proof.
  intros Hn Hy [H1 H2]. unfold utf8_handler, pending.
  cbn [code_point bytes_seen bytes_needed lower_boundary upper_boundary].
  change 0x3F with (N.ones 6). rewrite N.land_ones. change (2 ^ 6) with 64.
  replace ((128 + y) mod 64) with y by arith.
  rewrite lor_shiftl_6 by assumption.
  destruct (N.eqb_spec needed 0); [congruence|].
  destruct (N.ltb_spec (128 + y) lo); [lia|].
  destruct (N.ltb_spec hi (128 + y)); [lia|]. reflexivity.
Qed.

Lemma handler_more (cp seen needed lo hi y : N) :
  needed <> 0 -> seen + 1 <> needed -> y < 64 -> lo <= 0x80 + y <= hi ->
  utf8_handler (pending cp seen needed lo hi) (0x80 + y)
  = (pending (cp * 64 + y) (seen + 1) needed 0x80 0xBF, []).
Proof.
  intros Hn Hs Hy H. rewrite handler_continuation by assumption.
  destruct (N.eqb_spec (seen + 1) needed); [congruence|reflexivity].
Qed.

Lemma handler_last (cp seen needed lo hi y : N) :
  needed <> 0 -> seen + 1 = needed -> y < 64 -> lo <= 0x80 + y <= hi ->
  utf8_handler (pending cp seen needed lo hi) (0x80 + y)
  = (utf8_initial, [cp * 64 + y]).
Proof.
  intros Hn Hs Hy H. rewrite handler_continuation by assumption.
  destruct (N.eqb_spec (seen + 1) needed); [reflexivity|congruence].
Qed.

Lemma serialize_true (cps : list N) :
  serialize true cps = (true, flat_map utf16_units cps).
Proof.
  induction cps as [|cp cps IH]; [reflexivity|].
  cbn [serialize negb andb flat_map]. now rewrite IH.
Qed.

Lemma decode_cons (d : utf8_decoder) (f : bool) (b : octet) (rest : bytes) :
  decode {| decoder := d; BOM_seen := f |} (b :: rest)
  = let h := utf8_handler d b in
    let sr := serialize f (snd h) in
    let t := {| decoder := fst h; BOM_seen := fst sr |} in
    (fst (decode t rest), snd sr ++ snd (decode t rest)).
Proof.
  cbv zeta. cbn [decode]. unfold decode_byte. cbn [decoder BOM_seen].
  destruct (utf8_handler d b) as [d' cps]. cbn [fst snd].
  destruct (serialize f cps) as [f' s']. cbn [fst snd].
  now destruct (decode _ rest).
Qed.

Lemma serialize_one (f : bool) (cp : N) :
  f = true \/ cp <> 0xFEFF ->
  serialize f [cp] = (true, utf16_units cp).
Proof.
  intros H. cbn [serialize].
  destruct (N.eqb_spec cp 0xFEFF) as [E|E].
  - destruct H as [->|H]; [|congruence]. cbn. now rewrite app_nil_r.
  - rewrite andb_false_r. now rewrite app_nil_r.
Qed.

Lemma lead_1 (cp : N) :
  cp <= 0x7F -> utf8_handler utf8_initial cp = (utf8_initial, [cp]).
Proof.
  intros H. unfold utf8_handler. cbn [utf8_initial bytes_needed N.eqb].
  unfold utf8_lead. tests; reflexivity.
Qed.

Lemma lead_2 (q : N) :
  2 <= q < 32 ->
  utf8_handler utf8_initial (0xC0 + q) = (pending q 0 1 0x80 0xBF, []).
Proof.
  intros H. unfold utf8_handler. cbn [utf8_initial bytes_needed N.eqb].
  unfold utf8_lead, pending.
  change 0x1F with (N.ones 5). rewrite N.land_ones. change (2 ^ 5) with 32.
  replace ((192 + q) mod 32) with q by arith.
  tests; reflexivity.
Qed.

Lemma lead_3 (q : N) :
  q < 16 ->
  utf8_handler utf8_initial (0xE0 + q)
  = (pending q 0 2 (if q =? 0 then 0xA0 else 0x80)
       (if q =? 13 then 0x9F else 0xBF), []).
Proof.
  intros H. unfold utf8_handler. cbn [utf8_initial bytes_needed N.eqb].
  unfold utf8_lead, pending.
  change 0xF with (N.ones 4). rewrite N.land_ones. change (2 ^ 4) with 16.
  replace ((224 + q) mod 16) with q by arith.
  tests; reflexivity.
Qed.

Lemma lead_4 (q : N) :
  q < 5 ->
  utf8_handler utf8_initial (0xF0 + q)
  = (pending q 0 3 (if q =? 0 then 0x90 else 0x80)
       (if q =? 4 then 0x8F else 0xBF), []).
Proof.
  intros H. unfold utf8_handler. cbn [utf8_initial bytes_needed N.eqb].
  unfold utf8_lead, pending.
  change 0x7 with (N.ones 3). rewrite N.land_ones. change (2 ^ 3) with 8.
  replace ((240 + q) mod 8) with q by arith.
  tests; reflexivity.
Qed.

Lemma serialize_nil (f : bool) : serialize f [] = (f, []).
Proof. reflexivity. Qed.

Ltac step_lead L :=
  rewrite decode_cons; cbv zeta; rewrite L by arith;
  rewrite ?serialize_nil; cbn [fst snd app].

Ltac step_more :=
  rewrite decode_cons; cbv zeta;
  rewrite handler_more; [|discriminate|lia|arith|tests; arith];
  rewrite ?serialize_nil; cbn [fst snd app].

Ltac step_last :=
  rewrite decode_cons; cbv zeta;
  rewrite handler_last; [|discriminate|lia|arith|tests; arith];
  cbn [fst snd app].

Lemma decode_scalar (cp : N) (f : bool) :
  is_scalar cp = true ->
  f = true \/ cp <> 0xFEFF ->
  decode {| decoder := utf8_initial; BOM_seen := f |} (utf8_encode_scalar cp)
  = ({| decoder := utf8_initial; BOM_seen := true |}, utf16_units cp).
Proof.
  unfold is_scalar, utf8_encode_scalar. intros H HB.
  assert (R : cp < 0xD800 \/ 0xDFFF < cp < 0x110000).
  { apply orb_prop in H as [H|H]; [left; now apply N.ltb_lt|right].
    apply andb_prop in H as [H1 H2]. split; now apply N.ltb_lt. }
  clear H.
  rewrite !N.shiftr_div_pow2.
  change 0x3F with (N.ones 6). rewrite !N.land_ones.
  change (2 ^ 6) with 64. change (2 ^ 12) with 4096. change (2 ^ 18) with 262144.
  destruct (N.leb_spec cp 0x7F) as [A|A].
  { step_lead lead_1. rewrite serialize_one by assumption.
    cbn [fst snd decode]. now rewrite app_nil_r. }
  destruct (N.leb_spec cp 0x7FF) as [B|B].
  { step_lead lead_2. step_last.
    replace (cp / 64 * 64 + cp mod 64) with cp by arith.
    rewrite serialize_one by assumption.
    cbn [fst snd decode]. now rewrite app_nil_r. }
  destruct (N.leb_spec cp 0xFFFF) as [C|C].
  { step_lead lead_3. step_more. step_last.
    replace ((cp / 4096 * 64 + cp / 64 mod 64) * 64 + cp mod 64) with cp
      by arith.
    rewrite serialize_one by assumption.
    cbn [fst snd decode]. now rewrite app_nil_r. }
  step_lead lead_4. step_more. step_more. step_last.
  replace (((cp / 262144 * 64 + cp / 4096 mod 64) * 64 + cp / 64 mod 64) * 64
           + cp mod 64) with cp by arith.
  rewrite serialize_one by assumption.
  cbn [fst snd decode]. now rewrite app_nil_r.
Qed.

Lemma surrogate_pair (c d : N) :
  is_high_surrogate c = true -> is_low_surrogate d = true ->
  let cp := 0x10000 + N.shiftl (c - 0xD800) 10 + (d - 0xDC00) in
  is_scalar cp = true /\ cp <> 0xFEFF /\ utf16_units cp = [c; d].
Proof.
  unfold is_high_surrogate, is_low_surrogate, is_scalar, utf16_units.
  intros Hc Hd. apply andb_prop in Hc as [C1 C2]. apply andb_prop in Hd as [D1 D2].
  apply N.leb_le in C1, C2, D1, D2.
  rewrite N.shiftl_mul_pow2. change (2 ^ 10) with 1024. cbv zeta.
  rewrite N.shiftr_div_pow2. change 0x3FF with (N.ones 10).
  rewrite N.land_ones. change (2 ^ 10) with 1024.
  split; [|split].
  - apply orb_true_iff. right. apply andb_true_iff.
    split; apply N.ltb_lt; lia.
  - lia.
  - destruct (N.ltb_spec (65536 + (c - 55296) * 1024 + (d - 56320)) 65536);
      [lia|].
    f_equal; [|f_equal]; arith.
Qed.

Lemma BMP_scalar (c : N) :
  is_high_surrogate c = false -> is_low_surrogate c = false ->
  (c <? 0x10000) = true ->
  is_scalar c = true /\ utf16_units c = [c].
Proof.
  unfold is_high_surrogate, is_low_surrogate, is_scalar, utf16_units.
  intros H L B. rewrite B. split; [|reflexivity].
  destruct (N.ltb_spec c 1114112); [|apply N.ltb_lt in B; lia].
  destruct (N.ltb_spec c 55296); [reflexivity|].
  destruct (N.ltb_spec 57343 c); [reflexivity|].
  exfalso. revert H L. tests; simpl; congruence.
Qed.

(** The scalar values of a well-formed string, as code units again. *)
Lemma scalar_values_well_formed (n : nat) (s : jsstring) :
  (List.length s <= n)%nat ->
  well_formed s = true ->
  forallb is_scalar (scalar_values s) = true
  /\ flat_map utf16_units (scalar_values s) = s
  /\ (no_BOM s = true -> no_BOM (scalar_values s) = true).
Proof.
  revert s. induction n as [|n IH]; intros s L W.
  { destruct s; [auto|simpl in L; lia]. }
  destruct s as [|c s]; [auto|].
  cbn [well_formed scalar_values] in *.
  destruct (is_high_surrogate c) eqn:H.
  - destruct s as [|d s]; [discriminate|].
    apply andb_prop in W as [D W]. rewrite D.
    destruct (surrogate_pair c d H D) as (S1 & S2 & S3).
    destruct (IH s) as (I1 & I2 & _); [simpl in L; lia|assumption|].
    cbn [forallb flat_map no_BOM]. rewrite S1, S3, I1, I2.
    repeat split. intros _. now apply negb_true_iff, N.eqb_neq.
  - apply andb_prop in W as [W1 W]. apply andb_prop in W1 as [Lo B].
    apply negb_true_iff in Lo. rewrite Lo.
    destruct (BMP_scalar c H Lo B) as [S1 S3].
    destruct (IH s) as (I1 & I2 & _); [simpl in L; lia|assumption|].
    cbn [forallb flat_map no_BOM]. rewrite S1, S3, I1, I2.
    repeat split. auto.
Qed.

Lemma decode_scalars (cps : list N) (f : bool) :
  forallb is_scalar cps = true ->
  f = true \/ no_BOM cps = true ->
  snd (decode {| decoder := utf8_initial; BOM_seen := f |}
         (flat_map utf8_encode_scalar cps))
  = flat_map utf16_units cps.
Proof.
  revert f. induction cps as [|cp cps IH]; intros f S B; [reflexivity|].
  cbn [forallb flat_map] in *. apply andb_prop in S as [S1 S2].
  rewrite decode_app, decode_scalar; trivial.
  - cbn [fst snd]. now rewrite IH by auto.
  - destruct B as [B|B]; [now left|right].
    cbn [no_BOM] in B. now apply N.eqb_neq, negb_true_iff.
Qed.

(** Decoding the UTF-8 encoding of a well-formed text that does not start
    with a byte order mark gives the text back. *)
Lemma decoded_encode (s : jsstring) :
  well_formed s = true -> no_BOM s = true ->
  decoded (Encoding.encode s) = s.
Proof.
  intros W B.
  destruct (scalar_values_well_formed (List.length s) s (le_n _) W)
    as (S1 & S2 & S3).
  unfold decoded, Encoding.encode, new_TextDecoder.
  rewrite decode_scalars; auto.
Qed.

End UTF8.

(** ** Streams that are the UTF-8 encoding of their frames *)

Section UTF8Streams.

Lemma well_formed_app (a b : jsstring) :
  Encoding.well_formed a = true -> Encoding.well_formed b = true ->
  Encoding.well_formed (a ++ b) = true.
Proof.
  remember (List.length a) as n eqn:E. revert a E.
  induction n as [n IH] using lt_wf_ind. intros a E Ha Hb. subst n.
  destruct a as [|c a]; [assumption|].
  cbn [Encoding.well_formed app] in *.
  destruct (Encoding.is_high_surrogate c).
  - destruct a as [|d a]; [discriminate|]. cbn [app].
    apply andb_prop in Ha as [D Ha]. rewrite D. cbn [andb].
    apply (IH (List.length a)); simpl; auto.
  - apply andb_prop in Ha as [C Ha]. rewrite C. cbn [andb].
    apply (IH (List.length a)); simpl; auto.
Qed.

Lemma well_formed_frames (payloads : list jsstring) :
  forallb Encoding.well_formed payloads = true ->
  Encoding.well_formed (flat_map frame payloads) = true.
Proof.
  induction payloads as [|p ps IH]; [reflexivity|].
  cbn [forallb flat_map]. intros H. apply andb_prop in H as [Hp Hps].
  unfold frame at 1.
  repeat apply well_formed_app; auto.
Qed.

Lemma well_formed_serialize (payloads : list jsstring) :
  forallb Encoding.well_formed payloads = true ->
  Encoding.well_formed (serialize payloads) = true
  /\ Encoding.no_BOM (serialize payloads) = true.
Proof.
  intros H. split.
  - unfold serialize. apply well_formed_app; [|reflexivity].
    now apply well_formed_frames.
  - destruct payloads; reflexivity.
Qed.

(** Chunk-boundary invariance for the stream of bytes that encodes the
    frames and the sentinel in UTF-8. *)
Corollary utf8_stream_invariance
  (payloads : list jsstring) (chunks : list bytes) :
  forallb valid_payload payloads = true ->
  forallb Encoding.well_formed payloads = true ->
  List.concat chunks = Encoding.encode (serialize payloads) ->
  deltas chunks = deltas [Encoding.encode (serialize payloads)].
Proof.
  intros Hv Hw Hc.
  destruct (well_formed_serialize _ Hw) as [W B].
  rewrite (deltas_of_frames payloads chunks),
          (deltas_of_frames payloads [Encoding.encode (serialize payloads)]);
    auto; right; simpl; rewrite ?app_nil_r, ?Hc; now apply decoded_encode.
Qed.

(** Ordering for the stream of bytes that encodes the frames in UTF-8. *)
Corollary utf8_stream_ordering
  (frames : list (jsstring * jsstring)) (chunks : list bytes) :
  forallb (fun f => carries (fst f) (snd f)) frames = true ->
  forallb Encoding.well_formed (map fst frames) = true ->
  List.concat chunks = Encoding.encode (serialize (map fst frames)) ->
  deltas chunks = map (fun f => Encoding.encode (snd f)) frames.
Proof.
  intros Hc Hw E.
  destruct (well_formed_serialize _ Hw) as [W B].
  rewrite (deltas_of_frames (map fst frames)).
  - rewrite frame_lines_effects by assumption.
    apply enqueued_map_Enqueue with (f := fun f => Encoding.encode (snd f)).
  - rewrite forallb_forall in *. intros p Hp.
    apply in_map_iff in Hp as ([p' c] & <- & Hin).
    apply (carries_valid _ c). apply (Hc _ Hin).
  - right. rewrite E. now apply decoded_encode.
Qed.

End UTF8Streams.

(* ================================================================== *)
(** * Further properties of the parser *)
(* ================================================================== *)

Import Streams.

Section ParserMore.

Lemma feed_effects_no_DONE (texts : list jsstring) (cur : jsstring) :
  existsb is_DONE (fst (scan cur (List.concat texts))) = false ->
  feed_effects cur texts = lines_effects (fst (scan cur (List.concat texts))).
Proof.
  revert cur. induction texts as [|t ts IH]; intros cur; [reflexivity|].
  cbn [List.concat feed_effects]. rewrite scan_app. cbn [fst snd].
  rewrite existsb_app, lines_effects_app. intros H.
  apply orb_false_elim in H as [H1 H2]. now rewrite H1, IH.
Qed.

Lemma pipeThrough_store (chunks : list bytes) :
  pipeThrough chunks
  = (Normal tt,
     {| buffer := stream_rest (List.concat chunks);
        textDecoder :=
          fst (Encoding.decode Encoding.new_TextDecoder (List.concat chunks));
        effects :=
          feed_effects [] (decode_chunks Encoding.new_TextDecoder chunks) |}).
Proof.
  unfold pipeThrough, stream_rest, decoded.
  rewrite transform_scan by reflexivity. cbn [createParser buffer textDecoder effects app].
  destruct (concat_decode_chunks chunks Encoding.new_TextDecoder) as [E _].
  now rewrite E.
Qed.

(** X1. Without a sentinel line in it, a byte stream has the same effects
    on the controller and the console, and leaves the same store, however
    it is cut into chunks. *)
Theorem sentinel_free_invariance (chunks : list bytes) :
  existsb is_DONE (stream_lines (List.concat chunks)) = false ->
  pipeThrough chunks = pipeThrough [List.concat chunks].
Proof.
  intros H. rewrite !pipeThrough_store.
  cbn [List.concat]. rewrite !app_nil_r.
  destruct (concat_decode_chunks chunks Encoding.new_TextDecoder) as [E _].
  unfold stream_lines, decoded in H. rewrite <- E in H.
  rewrite (feed_effects_no_DONE _ _ H).
  cbn [decode_chunks feed_effects]. rewrite app_nil_r, E. reflexivity.
Qed.

End ParserMore.

(** Scenarios of the properties above. *)

Lemma sentinel_free_invariance_witness :
  pipeThrough ABC_chunks = pipeThrough [List.concat ABC_chunks].
Proof. apply sentinel_free_invariance. vm_compute. reflexivity. Defined.

Section ParserLines.

Lemma scan_LF_free_text (s cur : jsstring) :
  LF_free s = true -> scan cur s = ([], cur ++ s).
Proof.
  revert cur. induction s as [|c s IH]; intros cur H; simpl.
  - now rewrite app_nil_r.
  - simpl in H. apply andb_prop in H as [Hc Hs].
    destruct (N.eqb c LF); [discriminate|].
    rewrite IH by assumption. now rewrite <- app_assoc.
Qed.

Lemma lines_effects_no_DONE (lines : list jsstring) :
  existsb is_DONE lines = false ->
  lines_effects lines = flat_map line_effects lines.
Proof.
  induction lines as [|l ls IH]; [reflexivity|]. cbn [existsb lines_effects flat_map].
  intros H. apply orb_false_elim in H as [-> H]. now rewrite IH.
Qed.

Lemma enqueued_flat_map (lines : list jsstring) :
  enqueued (flat_map line_effects lines) = flat_map line_deltas lines.
Proof.
  induction lines as [|l ls IH]; [reflexivity|].
  cbn [flat_map]. now rewrite enqueued_app, IH.
Qed.

(** X2. What follows the last line feed of a stream is kept in the buffer
    and never processed, whatever it is: the effects are those of the
    complete lines. *)
Theorem unterminated_line_unprocessed
  (lines : list jsstring) (rest : jsstring) (chunks : list bytes) :
  forallb LF_free lines = true ->
  LF_free rest = true ->
  existsb is_DONE lines = false ->
  decoded (List.concat chunks) = unlines lines ++ rest ->
  effects (snd (pipeThrough chunks)) = flat_map line_effects lines
  /\ deltas chunks = flat_map line_deltas lines
  /\ buffer (snd (pipeThrough chunks)) = rest.
Proof.
  intros HL HR HD E.
  assert (S : scan [] (decoded (List.concat chunks)) = (lines, rest)).
  { rewrite E, scan_unlines by assumption.
    rewrite scan_LF_free_text by assumption. cbn [fst snd app].
    now rewrite app_nil_r. }
  assert (X : effects (snd (pipeThrough chunks)) = flat_map line_effects lines).
  { rewrite pipeThrough_store. cbn [snd effects].
    destruct (concat_decode_chunks chunks Encoding.new_TextDecoder) as [C _].
    rewrite feed_effects_no_DONE; rewrite C; fold (decoded (List.concat chunks));
      rewrite S; cbn [fst]; [|assumption].
    now apply lines_effects_no_DONE. }
  split; [exact X|]. split.
  - unfold deltas. rewrite X. apply enqueued_flat_map.
  - rewrite pipeThrough_store. cbn [snd buffer]. unfold stream_rest.
    now rewrite S.
Qed.

(** ** White space around a line *)

Lemma trimStart_blank (a x : jsstring) :
  blank a = true -> trimStart (a ++ x) = trimStart x.
Proof.
  induction a as [|c a IH]; [reflexivity|]. cbn [blank forallb app trimStart].
  intros H. apply andb_prop in H as [-> H]. now apply IH.
Qed.

Lemma trimEnd_blank (b : jsstring) : blank b = true -> trimEnd b = [].
Proof.
  induction b as [|c b IH]; [reflexivity|]. cbn [blank forallb trimEnd].
  intros H. apply andb_prop in H as [-> H]. now rewrite IH.
Qed.

Lemma trimStart_app (l b : jsstring) :
  trimStart (l ++ b)
  = match trimStart l with
    | [] => trimStart b
    | _ :: _ => trimStart l ++ b
    end.
Proof.
  induction l as [|c l IH]; [reflexivity|].
  cbn [app trimStart]. destruct (is_white_space c); [exact IH|reflexivity].
Qed.

Lemma trim_padding (a l b : jsstring) :
  blank a = true -> blank b = true -> trim (a ++ l ++ b) = trim l.
Proof.
  intros Ha Hb. unfold trim. rewrite trimStart_blank by assumption.
  rewrite trimStart_app. destruct (trimStart l) as [|c t] eqn:E.
  - rewrite <- (app_nil_r b), trimStart_blank by assumption. reflexivity.
  - rewrite trimEnd_app.
    rewrite (trimEnd_blank _ Hb). reflexivity.
Qed.

End ParserLines.

(** Scenarios of the properties above. *)

Lemma unterminated_line_unprocessed_witness :
  effects (snd (pipeThrough [split_chunk_1])) = flat_map line_effects a_lines
  /\ deltas [split_chunk_1] = flat_map line_deltas a_lines
  /\ buffer (snd (pipeThrough [split_chunk_1])) = resp_rest.
Proof.
  apply unterminated_line_unprocessed; vm_compute; reflexivity.
Defined.

Import Padding.

Section ParserTolerance.

Lemma padded_line (l l' : jsstring) :
  padded l l' ->
  is_DONE l' = is_DONE l /\ line_effects l' = line_effects l
  /\ (LF_free l = true -> LF_free l' = true).
Proof.
  intros (a & b & Ha & Hb & La & Lb & ->).
  unfold is_DONE, line_effects. rewrite trim_padding by assumption.
  repeat split. intros H. now rewrite !LF_free_app, La, Lb, H.
Qed.

Lemma padded_lines (lines lines' : list jsstring) :
  Forall2 padded lines lines' ->
  lines_effects lines' = lines_effects lines
  /\ forallb silent (after_DONE lines') = forallb silent (after_DONE lines)
  /\ forallb silent lines' = forallb silent lines
  /\ (forallb LF_free lines = true -> forallb LF_free lines' = true).
Proof.
  induction 1 as [|l l' ls ls' P _ (I1 & I2 & I3 & I4)]; [auto|].
  destruct (padded_line P) as (D & E & F).
  cbn [lines_effects after_DONE forallb]. rewrite D, E, I1, I3.
  unfold silent at 1 3, line_deltas. rewrite E.
  repeat split.
  - now destruct (is_DONE l).
  - intros H. apply andb_prop in H as [H1 H2]. now rewrite F, I4.
Qed.

Lemma transform_dispatches (chunks : list bytes) (w : world) :
  fst (transform chunks w) = Normal tt
  /\ effects (snd (transform chunks w))
     = effects w ++ flat_map lines_effects (dispatches chunks w).
Proof.
  revert w. induction chunks as [|chunk chunks IH]; intros w.
  - cbn. now rewrite app_nil_r.
  - cbn [transform dispatches flat_map]. unfold bind.
    destruct (IH (snd (parse chunk w))) as [I1 I2]. revert I1 I2.
    rewrite parse_split. cbn [snd effects]. intros I1 I2.
    now rewrite I1, I2, app_assoc.
Qed.

Lemma deltas_dispatches (chunks : list bytes) :
  deltas chunks = enqueued (flat_map lines_effects (stream_dispatches chunks)).
Proof.
  unfold deltas, pipeThrough, stream_dispatches.
  destruct (transform_dispatches chunks (createParser Encoding.new_TextDecoder))
    as [_ ->].
  reflexivity.
Qed.

Lemma padded_calls (calls calls' : list (list jsstring)) :
  Forall2 (Forall2 padded) calls calls' ->
  flat_map lines_effects calls' = flat_map lines_effects calls.
Proof.
  induction 1 as [|ls ls' cs cs' P _ IH]; [reflexivity|].
  cbn [flat_map]. destruct (padded_lines P) as [-> _]. now rewrite IH.
Qed.

(** X3. White space around the lines of a stream, such as the carriage
    return of a CRLF line ending or an indentation, changes no delta:
    when the calls of the parser get the same lines in both streams, up
    to that white space, wherever the sentinel stands; and, however the
    two streams are cut, when they are complete lines none of which
    yields a delta after a sentinel. *)
Theorem padding_tolerance (chunks chunks' : list bytes) :
  Forall2 (Forall2 padded) (stream_dispatches chunks) (stream_dispatches chunks')
  \/ (exists lines lines',
        Forall2 padded lines lines'
        /\ forallb LF_free lines = true
        /\ forallb silent (after_DONE lines) = true
        /\ decoded (List.concat chunks) = unlines lines
        /\ decoded (List.concat chunks') = unlines lines') ->
  deltas chunks' = deltas chunks.
Proof.
  intros [P|(lines & lines' & P & HL & HS & E & E')].
  - rewrite !deltas_dispatches. now rewrite (padded_calls P).
  - destruct (padded_lines P) as (I1 & I2 & _ & I4).
    rewrite (deltas_chunked chunks), (deltas_chunked chunks').
    + rewrite E, E', !scan_unlines_all by auto. cbn [fst]. now rewrite I1.
    + rewrite E', scan_unlines_all by auto. cbn [fst]. now rewrite I2.
    + rewrite E, scan_unlines_all by auto. exact HS.
Qed.

Lemma lines_effects_insert (l1 l2 : list jsstring) (x : jsstring) :
  is_DONE x = false -> line_effects x = [] ->
  lines_effects (l1 ++ x :: l2) = lines_effects (l1 ++ l2)
  /\ forallb silent (after_DONE (l1 ++ x :: l2))
     = forallb silent (after_DONE (l1 ++ l2)).
Proof.
  intros D Z. rewrite !lines_effects_app, !after_DONE_app.
  cbn [lines_effects after_DONE]. rewrite D, Z. cbn [app].
  split; [reflexivity|].
  destruct (existsb is_DONE l1); [|reflexivity].
  rewrite !forallb_app. cbn [forallb]. unfold silent at 2, line_deltas.
  now rewrite Z.
Qed.

(** X4. A line that is not a data line - a blank line, a comment, another
    field of the event stream - changes no delta wherever it is put:
    among the lines that a call of the parser gets, before or after a
    sentinel; and, however the two streams are cut, among complete lines
    none of which yields a delta after a sentinel. *)
Theorem other_lines_ignored (x : jsstring) (chunks chunks' : list bytes) :
  other_line x = true ->
  (exists calls1 calls2 l1 l2,
      stream_dispatches chunks = calls1 ++ (l1 ++ l2) :: calls2
      /\ stream_dispatches chunks' = calls1 ++ (l1 ++ x :: l2) :: calls2)
  \/ (exists l1 l2,
        LF_free x = true
        /\ forallb LF_free (l1 ++ l2) = true
        /\ forallb silent (after_DONE (l1 ++ l2)) = true
        /\ decoded (List.concat chunks) = unlines (l1 ++ l2)
        /\ decoded (List.concat chunks') = unlines (l1 ++ x :: l2)) ->
  deltas chunks' = deltas chunks.
Proof.
  intros O H.
  apply negb_true_iff in O. destruct (not_data_line _ O) as [D Z].
  destruct H as [(calls1 & calls2 & l1 & l2 & E & E')
                |(l1 & l2 & Lx & HL & HS & E & E')].
  - rewrite !deltas_dispatches, E, E', !flat_map_app. cbn [flat_map].
    now destruct (lines_effects_insert l1 l2 x D Z) as [-> _].
  - destruct (lines_effects_insert l1 l2 x D Z) as [I1 I2].
    assert (HL' : forallb LF_free (l1 ++ x :: l2) = true).
    { rewrite forallb_app in *. cbn [forallb].
      apply andb_prop in HL as [-> ->]. now rewrite Lx. }
    rewrite (deltas_chunked chunks), (deltas_chunked chunks').
    + rewrite E, E', !scan_unlines_all by auto. cbn [fst]. now rewrite I1.
    + rewrite E', scan_unlines_all by auto. cbn [fst]. now rewrite I2.
    + rewrite E, scan_unlines_all by auto. exact HS.
Qed.

End ParserTolerance.

(** Scenarios of the properties above. *)

Lemma padding_tolerance_witness :
  deltas late_chunks_padded = deltas late_chunks.
Proof.
  apply padding_tolerance. left.
  constructor; [|constructor; [|constructor]].
  - constructor; [|constructor].
    exists [], [Streams.CR]. repeat split; vm_compute; reflexivity.
  - constructor; [|constructor].
    exists (lit "  "), [Streams.CR]. repeat split; vm_compute; reflexivity.
Defined.

Lemma other_lines_ignored_witness :
  deltas late_chunks_kept_alive = deltas late_chunks.
Proof.
  apply (@other_lines_ignored keep_alive).
  - vm_compute. reflexivity.
  - left. exists [[DONE]], [], [], [json_lit "data: {'response':'Hi'}"].
    split; vm_compute; reflexivity.
Defined.

Section TextFidelity.

Lemma scalar_values_app (a b : jsstring) :
  Encoding.well_formed a = true ->
  Encoding.scalar_values (a ++ b)
  = Encoding.scalar_values a ++ Encoding.scalar_values b.
Proof.
  remember (List.length a) as n eqn:E. revert a E.
  induction n as [n IH] using lt_wf_ind. intros a E Ha. subst n.
  destruct a as [|c a]; [reflexivity|].
  cbn [Encoding.well_formed Encoding.scalar_values app] in *.
  destruct (Encoding.is_high_surrogate c).
  - destruct a as [|d a]; [discriminate|]. cbn [app].
    apply andb_prop in Ha as [D Ha]. rewrite D. cbn [app]. f_equal.
    apply (IH (List.length a)); simpl; auto.
  - apply andb_prop in Ha as [C Ha].
    destruct (Encoding.is_low_surrogate c); cbn [app]; f_equal;
      apply (IH (List.length a)); simpl; auto.
Qed.

Lemma encode_app (a b : jsstring) :
  Encoding.well_formed a = true ->
  Encoding.encode (a ++ b) = Encoding.encode a ++ Encoding.encode b.
Proof.
  intros H. unfold Encoding.encode.
  now rewrite scalar_values_app, flat_map_app.
Qed.

Lemma concat_encode (cs : list jsstring) :
  forallb Encoding.well_formed cs = true ->
  List.concat (map Encoding.encode cs) = Encoding.encode (List.concat cs)
  /\ Encoding.well_formed (List.concat cs) = true.
Proof.
  induction cs as [|c cs IH]; [auto|]. cbn [forallb map List.concat].
  intros H. apply andb_prop in H as [Hc Hcs]. destruct (IH Hcs) as [I1 I2].
  rewrite encode_app, I1 by assumption. split; [reflexivity|].
  now apply well_formed_app.
Qed.

(** The deltas of frames that carry content, in any chunks. *)
Lemma carried_deltas (frames : list (jsstring * jsstring)) (chunks : list bytes) :
  forallb (fun f => carries (fst f) (snd f)) frames = true ->
  decoded (List.concat chunks) = flat_map frame (map fst frames)
  \/ decoded (List.concat chunks) = serialize (map fst frames) ->
  deltas chunks = map Encoding.encode (map snd frames).
Proof.
  intros Hc Hd. rewrite (deltas_of_frames (map fst frames)); [|
    rewrite forallb_forall in *; intros p Hp;
    apply in_map_iff in Hp as ([p' c] & <- & Hin);
    apply (carries_valid _ c); apply (Hc _ Hin) | assumption].
  rewrite frame_lines_effects by assumption. rewrite map_map.
  apply enqueued_map_Enqueue with (f := fun f => Encoding.encode (snd f)).
Qed.

(** X5. When the frames of a stream carry well-formed texts, the bytes
    that the parser enqueues, put together and decoded as UTF-8 by the
    reader of the stream, are these texts one after the other, whatever
    the chunks. *)
Theorem text_fidelity
  (frames : list (jsstring * jsstring)) (chunks : list bytes) :
  forallb (fun f => carries (fst f) (snd f)) frames = true ->
  forallb Encoding.well_formed (map snd frames) = true ->
  Encoding.no_BOM (List.concat (map snd frames)) = true ->
  decoded (List.concat chunks) = flat_map frame (map fst frames)
  \/ decoded (List.concat chunks) = serialize (map fst frames) ->
  decoded (List.concat (deltas chunks)) = List.concat (map snd frames).
Proof.
  intros Hc Hw Hb Hd. rewrite (carried_deltas frames chunks) by assumption.
  destruct (concat_encode _ Hw) as [-> W]. now apply decoded_encode.
Qed.

End TextFidelity.

(** Scenarios of the properties above. *)

Lemma text_fidelity_witness :
  decoded (List.concat (deltas cafe_chunks)) = List.concat (map snd cafe_frames).
Proof.
  apply text_fidelity; try (vm_compute; reflexivity).
  left. vm_compute. reflexivity.
Defined.

(* ================================================================== *)
(** * Properties of transformCloudflareStream *)
(* ================================================================== *)

Import Cloudflare CloudflareSummary.

Section CloudflareStream.

Lemma cf_add_effects_nil (w : cf_world) : cf_add_effects w [] = w.
Proof. destruct w. unfold cf_add_effects. simpl. now rewrite app_nil_r. Qed.

Lemma cf_add_effects_app (w : cf_world) (a b : list cf_effect) :
  cf_add_effects (cf_add_effects w a) b = cf_add_effects w (a ++ b).
Proof. unfold cf_add_effects. simpl. now rewrite app_assoc. Qed.

Lemma cf_try_statement (data : jsstring) (w : cf_world) :
  cf_state w = Readable ->
  cf_try_catch (cf_try_body data) cf_catch_handler w
  = (Normal tt, cf_add_effects w (cf_frame_effects data)).
Proof.
  intros R.
  unfold cf_try_catch, cf_try_body, cf_catch_handler, cf_frame_effects,
    cf_bind, cf_lift, cf_console_error.
  destruct (JSON.parse data) as [parsed|e]; cbn [and_then]; [|reflexivity].
  destruct (cf_content_of parsed) as [content|e]; cbn [and_then];
    [|reflexivity].
  destruct (ToBoolean content).
  - destruct (TextEncoder_encode content) as [chunk|e]; cbn [and_then];
      [|reflexivity].
    unfold cf_enqueue. rewrite R. reflexivity.
  - unfold cf_ret. now rewrite cf_add_effects_nil.
Qed.

Lemma cf_for_lines_effects (lines : list jsstring) (w : cf_world) :
  cf_state w = Readable ->
  cf_for_lines lines w
  = (Normal tt, cf_add_effects w (flat_map cf_line_effects lines)).
Proof.
  revert w. induction lines as [|line lines IH]; intros w R.
  - cbn. unfold cf_ret. now rewrite cf_add_effects_nil.
  - cbn [cf_for_lines flat_map]. unfold cf_line_effects at 1.
    destruct (startsWith line data_prefix); [|now apply IH].
    destruct (strict_eq (slice 6 line) (lit "[DONE]")); [now apply IH|].
    unfold cf_bind. rewrite cf_try_statement by assumption.
    rewrite IH by assumption. now rewrite cf_add_effects_app.
Qed.

Lemma cf_read_loop_effects
  (chunks : list bytes) (ending : option exn) (w : cf_world) :
  cf_state w = Readable ->
  cf_read_loop chunks ending w
  = (match ending with None => Normal tt | Some e => Throw e end,
     {| cf_textDecoder :=
          fst (Encoding.decode (cf_textDecoder w) (List.concat chunks));
        cf_state := Readable;
        cf_effects :=
          cf_effects w
          ++ flat_map cf_text_effects (decode_chunks (cf_textDecoder w) chunks) |}).
Proof.
  revert w. induction chunks as [|value chunks IH]; intros w R.
  - cbn. rewrite app_nil_r. destruct w; simpl in *; subst.
    now destruct ending.
  - cbn [cf_read_loop]. unfold cf_bind, cf_decode.
    destruct (Encoding.decode (cf_textDecoder w) value) as [t s] eqn:D.
    rewrite cf_for_lines_effects by assumption.
    rewrite IH by assumption.
    cbn [List.concat decode_chunks flat_map cf_add_effects cf_textDecoder
         cf_effects cf_state].
    rewrite decode_app, D. cbn [fst snd].
    unfold cf_text_effects at 2. now rewrite <- app_assoc.
Qed.

(** The run of [start] on a stream. *)
Lemma cf_start_run (stream : source) :
  transformCloudflareStream stream
  = match ending stream with
    | None =>
        (Normal tt,
         {| cf_textDecoder :=
              fst (Encoding.decode Encoding.new_TextDecoder
                     (List.concat (reads stream)));
            cf_state := Closed;
            cf_effects := cf_stream_effects stream ++ [CfClose] |})
    | Some e =>
        (Throw (EngineError TypeError),
         {| cf_textDecoder :=
              fst (Encoding.decode Encoding.new_TextDecoder
                     (List.concat (reads stream)));
            cf_state := Errored e;
            cf_effects := cf_stream_effects stream ++ cf_failure_effects e |})
    end.
Proof.
  unfold transformCloudflareStream, start, cf_try_finally, cf_try_catch.
  rewrite cf_read_loop_effects by reflexivity.
  cbn [cf_textDecoder cf_effects app]. fold (cf_stream_effects stream).
  destruct (ending stream) as [e|].
  - unfold cf_bind, cf_console_error, cf_error, cf_close, record, set_state.
    cbn. rewrite <- app_assoc. reflexivity.
  - unfold cf_close, record, set_state. cbn. reflexivity.
Qed.

(** X6. However the reading ends, what was enqueued stays enqueued.  When
    the reading ends with [done], the stream is closed and [start]
    completes normally.  When a read fails, the failure is logged and the
    stream is put in error with it; the [close] of the [finally] block
    then finds the stream no longer readable and [start] ends with that
    TypeError. *)
Theorem cf_stream_completion (stream : source) :
  fst (transformCloudflareStream stream)
  = match ending stream with
    | None => Normal tt
    | Some _ => Throw (EngineError TypeError)
    end
  /\ cf_state (snd (transformCloudflareStream stream))
     = match ending stream with
       | None => Closed
       | Some e => Errored e
       end
  /\ cf_effects (snd (transformCloudflareStream stream))
     = cf_stream_effects stream
       ++ match ending stream with
          | None => [CfClose]
          | Some e => cf_failure_effects e
          end.
Proof.
  rewrite cf_start_run. now destruct (ending stream).
Qed.

End CloudflareStream.

Section CloudflareLines.

Lemma cf_enqueued_app (a b : list cf_effect) :
  cf_enqueued (a ++ b) = cf_enqueued a ++ cf_enqueued b.
Proof.
  induction a as [|[chunk|args|e|] a IH]; simpl; try assumption;
    [reflexivity|]. now rewrite IH.
Qed.

Lemma cf_deltas_stream (stream : source) :
  cf_deltas stream = cf_enqueued (cf_stream_effects stream).
Proof.
  unfold cf_deltas. rewrite cf_start_run.
  destruct (ending stream); cbn [snd cf_effects]; rewrite cf_enqueued_app;
    cbn; now rewrite app_nil_r.
Qed.

(** A blank line is not a data line. *)
Lemma cf_blank_line (line : jsstring) :
  trim line = [] -> cf_line_effects line = [].
Proof.
  intros H. unfold cf_line_effects.
  destruct (startsWith line data_prefix) eqn:S; [|reflexivity].
  exfalso. destruct line as [|c l]; [discriminate|].
  change (startsWith (c :: l) data_prefix)
    with (N.eqb 100 c && startsWith l (lit "ata: ")) in S.
  apply andb_prop in S as [S _]. apply N.eqb_eq in S. subst c.
  change (trim (100%N :: l)) with (trimEnd (100%N :: l)) in H.
  destruct (@trimEnd_head 100%N l eq_refl) as [t E].
  discriminate (eq_trans (eq_sym E) H).
Qed.

Lemma cf_filter_lines (lines : list jsstring) :
  flat_map cf_line_effects
    (filter (fun line => match trim line with [] => false | _ :: _ => true end)
            lines)
  = flat_map cf_line_effects lines.
Proof.
  induction lines as [|l ls IH]; [reflexivity|]. cbn [filter flat_map].
  destruct (trim l) eqn:E.
  - now rewrite (cf_blank_line _ E).
  - cbn [flat_map]. now rewrite IH.
Qed.

(** The effects of a read that holds whole lines. *)
Lemma cf_text_effects_unlines (lines : list jsstring) :
  forallb LF_free lines = true ->
  cf_text_effects (unlines lines) = flat_map cf_line_effects lines.
Proof.
  intros H. unfold cf_text_effects, non_blank_lines.
  rewrite cf_filter_lines, split_lines_whole, scan_unlines_all by assumption.
  cbn [fst snd]. rewrite flat_map_app. cbn. now rewrite app_nil_r.
Qed.

Lemma cf_text_effects_line (line : jsstring) :
  LF_free line = true -> cf_text_effects line = cf_line_effects line.
Proof.
  intros H. unfold cf_text_effects, non_blank_lines.
  rewrite cf_filter_lines, split_lines_whole, scan_LF_free_text by assumption.
  cbn. now rewrite app_nil_r.
Qed.

Lemma cf_DONE_line : cf_line_effects DONE = [].
Proof. reflexivity. Qed.

(** X7. The sentinel line is passed over and the lines after it in the
    same read are processed: the deltas of a read are those of the lines
    before the sentinel and of the lines after it. *)
Theorem cf_sentinel_not_terminal
  (pre post : list jsstring) (chunk : bytes) (ending : option exn) :
  forallb LF_free (pre ++ post) = true ->
  decoded chunk = unlines (pre ++ DONE :: post) ->
  cf_deltas {| reads := [chunk]; ending := ending |}
  = flat_map cf_line_deltas pre ++ flat_map cf_line_deltas post.
Proof.
  intros HL E. rewrite cf_deltas_stream. unfold cf_stream_effects.
  cbn [reads decode_chunks flat_map]. fold (decoded chunk).
  rewrite app_nil_r, E, cf_text_effects_unlines.
  - rewrite flat_map_app. cbn [flat_map]. rewrite cf_DONE_line. cbn [app].
    rewrite cf_enqueued_app.
    f_equal; clear; match goal with |- _ = flat_map _ ?l => induction l as [|x l IH] end;
      try reflexivity; cbn [flat_map]; now rewrite cf_enqueued_app, IH.
  - rewrite forallb_app in *. cbn [forallb].
    apply andb_prop in HL as [-> ->]. reflexivity.
Qed.

End CloudflareLines.

(** Scenarios of the properties above. *)

Lemma cf_sentinel_not_terminal_witness :
  cf_deltas around_DONE
  = flat_map cf_line_deltas
      (map (fun p => data_prefix ++ p) (firstn 1 hello_payloads))
    ++ flat_map cf_line_deltas
         (map (fun p => data_prefix ++ p) (skipn 1 hello_payloads)).
Proof.
  apply (@cf_sentinel_not_terminal
           (map (fun p => data_prefix ++ p) (firstn 1 hello_payloads))
           (map (fun p => data_prefix ++ p) (skipn 1 hello_payloads)));
    vm_compute; reflexivity.
Defined.

Section CloudflareFrames.

Lemma slice_data_prefix (p : jsstring) : slice 6 (data_prefix ++ p) = p.
Proof. reflexivity. Qed.

Lemma parsed_not_DONE (p : jsstring) (v : value) :
  JSON.parse p = Normal v -> strict_eq p (lit "[DONE]") = false.
Proof.
  intros H. destruct (strict_eq p (lit "[DONE]")) eqn:E; [|reflexivity].
  apply strict_eq_true in E. subst p. discriminate H.
Qed.

Lemma choices_frame_carries (p c : jsstring) :
  choices_frame p c -> carries p c = true.
Proof.
  intros (HL & HT & Hc & parsed & HP & HC).
  unfold carries, frame_content. rewrite HL, trim_data_line, HT.
  destruct p as [|x p]; [discriminate HP|].
  rewrite slice_data_prefix, HP. unfold content_of. rewrite HC.
  destruct c as [|y c]; [congruence|]. cbn.
  rewrite N.eqb_refl. apply strict_eq_true. reflexivity.
Qed.

Lemma choices_frame_cf_line (p c : jsstring) :
  choices_frame p c ->
  cf_line_effects (data_prefix ++ p) = [CfEnqueue (Encoding.encode c)].
Proof.
  intros (HL & HT & Hc & parsed & HP & HC).
  unfold cf_line_effects. rewrite startsWith_app, slice_data_prefix.
  rewrite (parsed_not_DONE _ HP). unfold cf_frame_effects, cf_content_of.
  rewrite HP. cbn [and_then]. rewrite HC.
  destruct c as [|y c]; [congruence|]. reflexivity.
Qed.

Lemma choices_frames_cf (frames : list (jsstring * jsstring)) :
  Forall (fun f => choices_frame (fst f) (snd f)) frames ->
  cf_text_effects (flat_map frame (map fst frames))
  = map (fun f => CfEnqueue (Encoding.encode (snd f))) frames
  /\ forallb (fun f => carries (fst f) (snd f)) frames = true.
Proof.
  intros H. rewrite frames_unlines.
  assert (A : forallb LF_free (frame_lines (map fst frames)) = true
              /\ flat_map cf_line_effects (frame_lines (map fst frames))
                 = map (fun f => CfEnqueue (Encoding.encode (snd f))) frames
              /\ forallb (fun f => carries (fst f) (snd f)) frames = true).
  { induction H as [|[p c] fs Hf _ (I1 & I2 & I3)]; [auto|].
    cbn [fst snd] in Hf.
    pose proof (choices_frame_carries Hf) as K.
    destruct (carries_line _ _ K) as (L & _ & _).
    cbn [map fst snd frame_lines flat_map app forallb].
    fold (frame_lines (map fst fs)).
    rewrite L, I1, (choices_frame_cf_line Hf), I2, K, I3. auto. }
  destruct A as (A1 & A2 & A3).
  now rewrite cf_text_effects_unlines.
Qed.

Lemma cf_enqueued_map (A : Type) (f : A -> bytes) (l : list A) :
  cf_enqueued (map (fun x => CfEnqueue (f x)) l) = map f l.
Proof. induction l; simpl; [reflexivity|]. now rewrite IHl. Qed.

Lemma Forall_concat (A : Type) (P : A -> Prop) (ls : list (list A)) :
  Forall P (List.concat ls) -> Forall (Forall P) ls.
Proof.
  induction ls as [|l ls IH]; [constructor|]. cbn [List.concat].
  intros H. apply Forall_app in H as [H1 H2]. constructor; auto.
Qed.

(** X8. When every read holds whole frames in the shape of the cloud
    gateway, [transformCloudflareStream] enqueues the content of each
    frame, in order, and so does the parser of [createParser] on the same
    reads. *)
Theorem cf_agrees_on_aligned_frames
  (groups : list (list (jsstring * jsstring))) (stream : source) :
  Forall (fun f => choices_frame (fst f) (snd f)) (List.concat groups) ->
  aligned groups stream ->
  cf_deltas stream = map Encoding.encode (map snd (List.concat groups))
  /\ deltas (reads stream) = cf_deltas stream.
Proof.
  intros HF HA. unfold aligned in HA.
  assert (C : cf_deltas stream
              = map Encoding.encode (map snd (List.concat groups))).
  { rewrite cf_deltas_stream. unfold cf_stream_effects. rewrite HA.
    apply Forall_concat in HF. clear HA.
    induction HF as [|g gs Hg _ IH]; [reflexivity|].
    cbn [map flat_map List.concat]. rewrite cf_enqueued_app, IH.
    destruct (choices_frames_cf Hg) as [-> _].
    rewrite (cf_enqueued_map (fun f => Encoding.encode (snd f))).
    now rewrite !map_app, !map_map. }
  split; [exact C|]. rewrite C.
  apply carried_deltas.
  - apply Forall_concat in HF. clear - HF.
    induction HF as [|g gs Hg _ IH]; [reflexivity|].
    cbn [List.concat]. rewrite forallb_app, IH.
    now destruct (choices_frames_cf Hg) as [_ ->].
  - left. unfold decoded.
    destruct (concat_decode_chunks (reads stream) Encoding.new_TextDecoder)
      as [<- _].
    rewrite HA. clear. induction groups as [|g gs IH]; [reflexivity|].
    cbn [map List.concat]. now rewrite IH, map_app, flat_map_app.
Qed.

(** X9. Nothing is carried from one read to the next: when a frame is cut
    in two reads, so that the first piece is not a JSON text and the
    second does not start with the data prefix, [transformCloudflareStream]
    enqueues nothing for it, while the parser of [createParser] enqueues
    its content. *)
Theorem cf_split_frame_lost
  (p c a b : jsstring) (chunk1 chunk2 : bytes) (ending : option exn) :
  choices_frame p c ->
  a ++ b = data_prefix ++ p ->
  (exists e, JSON.parse (slice 6 a) = Throw e) ->
  startsWith b data_prefix = false ->
  decode_chunks Encoding.new_TextDecoder [chunk1; chunk2] = [a; b ++ [LF; LF]] ->
  cf_deltas {| reads := [chunk1; chunk2]; ending := ending |} = []
  /\ deltas [chunk1; chunk2] = [Encoding.encode c].
Proof.
  intros HF Hab [e He] Hb HD.
  pose proof (choices_frame_carries HF) as K.
  destruct (carries_line _ _ K) as (L & _ & _).
  rewrite <- Hab, LF_free_app in L. apply andb_prop in L as [La Lb].
  split.
  - rewrite cf_deltas_stream. unfold cf_stream_effects. cbn [reads].
    rewrite HD. cbn [flat_map]. rewrite app_nil_r, cf_enqueued_app.
    rewrite cf_text_effects_line by assumption.
    change (b ++ [LF; LF]) with (b ++ [LF] ++ [] ++ [LF]).
    replace (b ++ [LF] ++ [] ++ [LF]) with (unlines [b; []])
      by (cbn; now rewrite <- app_assoc).
    rewrite cf_text_effects_unlines by (cbn; now rewrite Lb).
    cbn [flat_map]. unfold cf_line_effects. rewrite Hb. cbn [app].
    destruct (startsWith a data_prefix); [|reflexivity].
    destruct (strict_eq (slice 6 a) (lit "[DONE]")); [reflexivity|].
    unfold cf_frame_effects. rewrite He. reflexivity.
  - rewrite (carried_deltas [(p, c)]); [reflexivity|cbn; now rewrite K|].
    left. unfold decoded.
    destruct (concat_decode_chunks [chunk1; chunk2] Encoding.new_TextDecoder)
      as [<- _].
    rewrite HD. cbn [List.concat map fst flat_map]. unfold frame.
    rewrite !app_nil_r, app_assoc, Hab, <- app_assoc. reflexivity.
Qed.

(** X10. Only the shape of the cloud gateway is read: a payload whose
    content lies in [message.content] or [response] yields no delta in
    [transformCloudflareStream], and its content in the parser of
    [createParser]. *)
Theorem cf_only_choices_shape
  (p c : jsstring) (data v : value) (chunk : bytes) (ending : option exn) :
  carries p c = true ->
  JSON.parse p = Normal data ->
  choices_0_delta_content data = Normal v ->
  ToBoolean v = false ->
  decoded chunk = frame p ->
  cf_deltas {| reads := [chunk]; ending := ending |} = []
  /\ deltas [chunk] = [Encoding.encode c].
Proof.
  intros K HP HC HV HD.
  destruct (carries_line _ _ K) as (L & _ & _).
  split.
  - rewrite cf_deltas_stream. unfold cf_stream_effects.
    cbn [reads decode_chunks flat_map]. fold (decoded chunk).
    rewrite app_nil_r, HD.
    replace (frame p) with (unlines [data_prefix ++ p; []])
      by (unfold frame; cbn; now rewrite <- !app_assoc).
    rewrite cf_text_effects_unlines by (cbn [forallb]; now rewrite L).
    cbn [flat_map]. unfold cf_line_effects at 1.
    rewrite startsWith_app, slice_data_prefix, (parsed_not_DONE _ HP).
    unfold cf_frame_effects, cf_content_of. rewrite HP. cbn [and_then].
    rewrite HC. cbn [logical_or and_then]. rewrite HV. reflexivity.
  - rewrite (carried_deltas [(p, c)]); [reflexivity|cbn; now rewrite K|].
    left. cbn [List.concat map fst flat_map]. now rewrite !app_nil_r.
Qed.

End CloudflareFrames.

(** Scenarios of the properties above. *)

Lemma cf_agrees_on_aligned_frames_witness :
  cf_deltas hello_reads
  = map Encoding.encode
      (map snd (List.concat (map (fun f => [f]) hello_frames)))
  /\ deltas (Cloudflare.reads hello_reads) = cf_deltas hello_reads.
Proof.
  apply cf_agrees_on_aligned_frames.
  - repeat constructor; try (vm_compute; reflexivity); try discriminate;
      eexists; split; vm_compute; reflexivity.
  - vm_compute. reflexivity.
Defined.

Lemma cf_split_frame_lost_witness :
  cf_deltas {| Cloudflare.reads :=
                 [Encoding.encode Hi_head;
                  Encoding.encode (Hi_tail ++ [LF; LF])];
               Cloudflare.ending := None |} = []
  /\ deltas [Encoding.encode Hi_head; Encoding.encode (Hi_tail ++ [LF; LF])]
     = [Encoding.encode (lit "Hi")].
Proof.
  apply (@cf_split_frame_lost Hi_payload (lit "Hi") Hi_head Hi_tail).
  - repeat split; try (vm_compute; reflexivity); try discriminate.
    eexists; split; vm_compute; reflexivity.
  - vm_compute. reflexivity.
  - eexists. vm_compute. reflexivity.
  - vm_compute. reflexivity.
  - vm_compute. reflexivity.
Defined.

Lemma cf_only_choices_shape_witness :
  cf_deltas {| Cloudflare.reads := [Encoding.encode (frame there_payload)];
               Cloudflare.ending := None |} = []
  /\ deltas [Encoding.encode (frame there_payload)]
     = [Encoding.encode (lit " there")].
Proof.
  eapply (@cf_only_choices_shape there_payload (lit " there")).
  - vm_compute. reflexivity.
  - vm_compute. reflexivity.
  - vm_compute. reflexivity.
  - vm_compute. reflexivity.
  - vm_compute. reflexivity.
Defined.


(* ------------------------------------------------------------------ *)
(** ** The handler of the chat route *)

Import Chat.

(** The [try] block of [POST], step by step. *)
Lemma POST_try_steps
  (env : jsstring -> option jsstring)
  (req_json : completion request)
  (fetch : fetch_request -> completion upstream_response) :
  POST_try env req_json fetch
  = and_then req_json (fun r =>
    and_then (sent_messages env fetch r) (fun final =>
    and_then (fetch (upstream_request env r final)) (answer env r))).
Proof.
  unfold POST_try, sent_messages, additionalContext_of,
    contextEnhancedMessages, finalMessages, upstream_request, answer,
    error_label, reply_content, context_message.
  destruct req_json as [r|e]; [|reflexivity]. cbn [and_then].
  destruct (CONTEXT_INJECTION env).
  - destruct (Get (last_message (messages r)) (Name (lit "content")))
      as [q|e]; [|reflexivity].
    cbn [and_then].
    destruct (ToBoolean (performSemanticSearch env fetch q)).
    + destruct (ToString (performSemanticSearch env fetch q)) as [c|e];
        [|reflexivity].
      cbn [and_then]. destruct (strict_eq (provider env) (lit "ollama"));
      match goal with
      | |- context [fetch ?rq] => destruct (fetch rq) as [response|e]
      end; try reflexivity; cbn [and_then];
      destruct (negb (ok response)); try reflexivity;
      destruct (ToBoolean (stream r)); try reflexivity;
      destruct (json response) as [data|e]; try reflexivity; cbn [and_then];
      repeat match goal with
      | |- context [and_then (Get ?v ?k)] =>
          destruct (Get v k); cbn [and_then]; try reflexivity
      end.
    + cbn [and_then]. destruct (strict_eq (provider env) (lit "ollama"));
      match goal with
      | |- context [fetch ?rq] => destruct (fetch rq) as [response|e]
      end; try reflexivity; cbn [and_then];
      destruct (negb (ok response)); try reflexivity;
      destruct (ToBoolean (stream r)); try reflexivity;
      destruct (json response) as [data|e]; try reflexivity; cbn [and_then];
      repeat match goal with
      | |- context [and_then (Get ?v ?k)] =>
          destruct (Get v k); cbn [and_then]; try reflexivity
      end.
  - cbn [and_then ToBoolean].
    destruct (strict_eq (provider env) (lit "ollama"));
      match goal with
      | |- context [fetch ?rq] => destruct (fetch rq) as [response|e]
      end; try reflexivity; cbn [and_then];
      destruct (negb (ok response)); try reflexivity;
      destruct (ToBoolean (stream r)); try reflexivity;
      destruct (json response) as [data|e]; try reflexivity; cbn [and_then];
      repeat match goal with
      | |- context [and_then (Get ?v ?k)] =>
          destruct (Get v k); cbn [and_then]; try reflexivity
      end.
Qed.

Section ChatHandler.

Variable env : jsstring -> option jsstring.
Variable engine_message : error_kind -> jsstring.

Lemma search_fails_empty
  (fetch : fetch_request -> completion upstream_response) (q : value) :
  search_fails (fetch (search_request env q)) ->
  performSemanticSearch env fetch q = VString [].
Proof.
  unfold search_fails, performSemanticSearch, search_request.
  destruct (fetch _) as [response|e]; [|reflexivity].
  intros [H|[e H]]; cbn [and_then].
  - now rewrite H.
  - rewrite H. now destruct (negb (ok response)).
Qed.

Lemma injection_off_CONTEXT_INJECTION :
  CONTEXT_INJECTION (injection_off env) = false.
Proof. reflexivity. Qed.

(** X11. A failure of the semantic search does not fail the chat: when the
    search call is rejected, answers with a status that is not a success,
    or answers with a body that is not JSON, the handler responds as it
    does with context injection turned off. *)
Theorem failed_search_is_ignored
  (r : request) (fetch : fetch_request -> completion upstream_response)
  (q : value) :
  CONTEXT_INJECTION env = true ->
  Get (last_message (messages r)) (Name (lit "content")) = Normal q ->
  search_fails (fetch (search_request env q)) ->
  POST env engine_message (Normal r) fetch
  = POST (injection_off env) engine_message (Normal r) fetch.
Proof.
  intros HC HQ HS. unfold POST. rewrite !POST_try_steps.
  cbn [and_then]. unfold sent_messages, additionalContext_of.
  rewrite HC, injection_off_CONTEXT_INJECTION, HQ. cbn [and_then].
  rewrite (search_fails_empty _ _ HS).
  reflexivity.
Qed.

Lemma message_is_system (c : value) : is_system (message "system" c).
Proof. reflexivity. Qed.

(** X12. What goes upstream keeps the conversation: the messages of the
    request stay in their order and the last of them stays last; what is
    added is at most one system message in front (the system prompt) and at
    most one system message just before the last message (the context). *)
Theorem conversation_preserved
  (r : request) (fetch : fetch_request -> completion upstream_response)
  (final : list value) :
  messages r <> [] ->
  sent_messages env fetch r = Normal final ->
  (exists prompt context : list value,
      (List.length prompt <= 1)%nat /\ (List.length context <= 1)%nat
      /\ Forall is_system (prompt ++ context)
      /\ final = prompt ++ removelast (messages r) ++ context
                 ++ [last_message (messages r)])
  /\ POST_try env (Normal r) fetch
     = and_then (fetch (upstream_request env r final)) (answer env r).
Proof.
  intros HM HS. split.
  - unfold sent_messages in HS.
    destruct (additionalContext_of env fetch r) as [a|e]; [|discriminate].
    cbn [and_then] in HS. unfold contextEnhancedMessages in HS.
    pose proof (app_removelast_last VUndefined HM) as L.
    fold (last_message (messages r)) in L.
    assert (E : exists context : list value,
                (List.length context <= 1)%nat
                /\ Forall is_system context
                /\ Normal final
                   = Normal (finalMessages r
                       (removelast (messages r) ++ context
                        ++ [last_message (messages r)]))).
    { destruct (ToBoolean a).
      - destruct (ToString a) as [c|e]; [|discriminate].
        cbn [and_then] in HS. exists [context_message c].
        split; [simpl; lia|]. split; [|now rewrite <- HS].
        constructor; [apply message_is_system|constructor].
      - cbn [and_then] in HS. exists []. split; [simpl; lia|].
        split; [constructor|]. cbn [app]. now rewrite <- L, <- HS. }
    destruct E as (context & HL & HF & E). injection E as ->.
    unfold finalMessages. destruct (ToBoolean (systemPrompt r)).
    + exists [message "system" (systemPrompt r)], context.
      split; [simpl; lia|]. split; [assumption|]. split; [|reflexivity].
      constructor; [apply message_is_system|assumption].
    + exists [], context. split; [simpl; lia|]. auto.
  - rewrite POST_try_steps. cbn [and_then]. now rewrite HS.
Qed.

(** X13. The bearer token reaches the network nowhere but in the
    Authorization header of the call to the gateway URL.  Take two
    environments that differ at most in the token; let the network answer
    alike every request without an Authorization header, and, when the
    provider is not the local server, the request to the gateway URL with
    the one token and with the other in its Authorization header.  Then
    the responses of the handler are the same: no URL, no body and no
    other request depends on the token, and with the local provider
    nothing does. *)
Theorem credentials_confined
  (env' : jsstring -> option jsstring)
  (req_json : completion request)
  (fetch fetch' : fetch_request -> completion upstream_response) :
  same_but_token env env' ->
  (forall rq, authorization rq = None -> fetch rq = fetch' rq) ->
  (strict_eq (provider env) (lit "ollama") = false ->
   forall b,
     fetch {| url := cf_url env; authorization := Some (bearer env);
              fetch_body := b |}
     = fetch' {| url := cf_url env; authorization := Some (bearer env');
                 fetch_body := b |}) ->
  POST env engine_message req_json fetch
  = POST env' engine_message req_json fetch'.
Proof.
  intros HE H1 H2.
  assert (EC : CONTEXT_INJECTION env' = CONTEXT_INJECTION env)
    by (unfold CONTEXT_INJECTION;
        now rewrite (HE (lit "NEXT_PUBLIC_CONTEXT_INJECTION") eq_refl)).
  assert (ES : SEMANTIC_SEARCH_API env' = SEMANTIC_SEARCH_API env)
    by (unfold SEMANTIC_SEARCH_API;
        now rewrite (HE (lit "NEXT_PUBLIC_SEMANTIC_SEARCH_API") eq_refl)).
  assert (EP : provider env' = provider env)
    by (unfold provider;
        now rewrite (HE (lit "NEXT_PUBLIC_DEFAULT_PROVIDER") eq_refl)).
  assert (EO : ollama_url env' = ollama_url env)
    by (unfold ollama_url, API_BASE_URL;
        now rewrite (HE (lit "NEXT_PUBLIC_API_BASE_URL") eq_refl)).
  assert (EG : cf_url env' = cf_url env)
    by (unfold cf_url;
        now rewrite (HE (lit "CLOUDFLARE_ACCOUNT_ID") eq_refl)).
  unfold POST. rewrite !POST_try_steps.
  destruct req_json as [r|e]; [|reflexivity]. cbn [and_then].
  assert (S : sent_messages env' fetch' r = sent_messages env fetch r).
  { unfold sent_messages, additionalContext_of. rewrite EC.
    destruct (CONTEXT_INJECTION env); [|reflexivity].
    destruct (Get _ _) as [q|e]; [|reflexivity]. cbn [and_then].
    unfold performSemanticSearch. rewrite ES.
    now rewrite (H1 {| url := SEMANTIC_SEARCH_API env; authorization := None;
                       fetch_body := VObject [(lit "query", q)] |} eq_refl). }
  rewrite S. destruct (sent_messages env fetch r) as [final|e];
    [|reflexivity].
  cbn [and_then].
  assert (A : answer env' r = answer env r)
    by (unfold answer, error_label, reply_content; now rewrite EP).
  assert (F : fetch' (upstream_request env' r final)
              = fetch (upstream_request env r final)).
  { unfold upstream_request. rewrite EP, EO, EG.
    destruct (strict_eq (provider env) (lit "ollama")) eqn:P.
    - symmetry. now apply H1.
    - symmetry. apply (H2 eq_refl). }
  now rewrite A, F.
Qed.

(** X14. A stream is returned exactly when the request asks for one and
    the upstream answers the chat completion call with a success status
    and a body; the stream then delivers the deltas of that body. *)
Theorem streams_exactly_when
  (req_json : completion request)
  (fetch : fetch_request -> completion upstream_response)
  (out : list bytes) :
  POST env engine_message req_json fetch = StreamingTextResponse out
  <-> exists r final response chunks,
        req_json = Normal r
        /\ sent_messages env fetch r = Normal final
        /\ fetch (upstream_request env r final) = Normal response
        /\ ok response = true
        /\ ToBoolean (stream r) = true
        /\ body response = Some chunks
        /\ out = deltas chunks.
Proof.
  unfold POST. rewrite POST_try_steps. split.
  - destruct req_json as [r|e]; [|discriminate]. cbn [and_then].
    destruct (sent_messages env fetch r) as [final|e] eqn:S; [|discriminate].
    cbn [and_then].
    destruct (fetch (upstream_request env r final)) as [response|e] eqn:F;
      [|discriminate].
    cbn [and_then]. unfold answer.
    destruct (ok response) eqn:O; cbn [negb].
    2:{ destruct (text response); discriminate. }
    destruct (ToBoolean (stream r)) eqn:T.
    + destruct (body response) as [chunks|] eqn:B; [|discriminate].
      intros [= <-]. exists r, final, response, chunks. repeat split; assumption.
    + destruct (json response); [|discriminate]. cbn [and_then].
      destruct (reply_content env a); discriminate.
  - intros (r & final & response & chunks & -> & S & F & O & T & B & ->).
    cbn [and_then]. rewrite S. cbn [and_then]. rewrite F. cbn [and_then].
    unfold answer. now rewrite O, T, B.
Qed.

(** X15. End to end: when the request asks for a stream and the body of
    the upstream's answer is a sequence of content frames, with or without
    the terminal sentinel and cut into chunks at any place, the response
    streams the UTF-8 bytes of the contents, one chunk for each frame. *)
Theorem POST_streams_contents
  (r : request) (fetch : fetch_request -> completion upstream_response)
  (final : list value) (response : upstream_response)
  (chunks : list bytes) (frames : list (jsstring * jsstring)) :
  sent_messages env fetch r = Normal final ->
  fetch (upstream_request env r final) = Normal response ->
  ok response = true ->
  ToBoolean (stream r) = true ->
  body response = Some chunks ->
  forallb (fun f => carries (fst f) (snd f)) frames = true ->
  decoded (List.concat chunks) = flat_map frame (map fst frames)
  \/ decoded (List.concat chunks) = serialize (map fst frames) ->
  POST env engine_message (Normal r) fetch
  = StreamingTextResponse (map Encoding.encode (map snd frames)).
Proof.
  intros S F O T B HC HD. unfold POST. rewrite POST_try_steps.
  cbn [and_then]. rewrite S. cbn [and_then]. rewrite F. cbn [and_then].
  unfold answer. rewrite O, T, B. cbn [negb].
  now rewrite (carried_deltas frames chunks HC HD).
Qed.

(** X16. A complete answer: when the request does not ask for a stream
    and the upstream answers with a success status and a JSON body, the
    response is [{ content }] under status 200, the content being
    [data.message.content] for the local server and
    [data.choices[0].message.content] for the gateway; a body in which
    that path cannot be read gives the error response under status 500. *)
Theorem complete_answer
  (r : request) (fetch : fetch_request -> completion upstream_response)
  (final : list value) (response : upstream_response) (data : value) :
  sent_messages env fetch r = Normal final ->
  fetch (upstream_request env r final) = Normal response ->
  ok response = true ->
  ToBoolean (stream r) = false ->
  json response = Normal data ->
  POST env engine_message (Normal r) fetch
  = match reply_content env data with
    | Normal c => NextResponse_json (VObject [(lit "content", c)]) 200
    | Throw _ =>
        NextResponse_json
          (VObject
             [(lit "error",
               VString (message_or_default engine_message (EngineError TypeError)));
              (lit "details",
               VString (error_toString engine_message (EngineError TypeError)))])
          500
    end.
Proof.
  intros S F O T J. unfold POST. rewrite POST_try_steps.
  cbn [and_then]. rewrite S. cbn [and_then]. rewrite F. cbn [and_then].
  unfold answer. rewrite O, T, J. cbn [negb and_then].
  assert (E : forall e, reply_content env data = Throw e
                        -> e = EngineError TypeError).
  { unfold reply_content. intros e.
    assert (G : forall v k e', Get v k = Throw e' -> e' = EngineError TypeError).
    { intros v k e'. destruct v; cbn [Get]; try discriminate;
        try (intros [= <-]; reflexivity).
      - destruct k; [discriminate|]. now destruct (nth_error s _).
      - now destruct (own_property _ _).
      - destruct k; [discriminate|]. now destruct (nth_error elems _). }
    destruct (strict_eq (provider env) (lit "ollama")).
    - destruct (Get data _) as [m|e1] eqn:G1; cbn [and_then].
      + apply G.
      + intros [= <-]. exact (G _ _ _ G1).
    - destruct (Get data _) as [cs|e1] eqn:G1; cbn [and_then];
        [|intros [= <-]; exact (G _ _ _ G1)].
      destruct (Get cs _) as [c0|e2] eqn:G2; cbn [and_then];
        [|intros [= <-]; exact (G _ _ _ G2)].
      destruct (Get c0 _) as [m|e3] eqn:G3; cbn [and_then];
        [|intros [= <-]; exact (G _ _ _ G3)].
      apply G. }
  destruct (reply_content env data) as [c|e]; [reflexivity|].
  cbn [and_then]. now rewrite (E e eq_refl).
Qed.

(** X17. The handler has three answers and no other: the error object
    under status 500, with a message that is not empty; [{ content }] under
    status 200; or a stream of the deltas of an upstream body. *)
Theorem POST_answers
  (req_json : completion request)
  (fetch : fetch_request -> completion upstream_response) :
  (exists message details,
      POST env engine_message req_json fetch
      = NextResponse_json
          (VObject [(lit "error", VString message);
                    (lit "details", VString details)])
          500
      /\ message <> [])
  \/ (exists content,
      POST env engine_message req_json fetch
      = NextResponse_json (VObject [(lit "content", content)]) 200)
  \/ (exists chunks,
      POST env engine_message req_json fetch
      = StreamingTextResponse (deltas chunks)).
Proof.
  unfold POST. rewrite POST_try_steps.
  assert (K : forall t : completion http_response,
            (forall x, t = Normal x ->
               (exists content,
                   x = NextResponse_json (VObject [(lit "content", content)]) 200)
               \/ exists chunks, x = StreamingTextResponse (deltas chunks)) ->
            (exists message details,
                match t with
                | Normal response => response
                | Throw error =>
                    NextResponse_json
                      (VObject
                         [(lit "error",
                           VString (message_or_default engine_message error));
                          (lit "details",
                           VString (error_toString engine_message error))])
                      500
                end
                = NextResponse_json
                    (VObject [(lit "error", VString message);
                              (lit "details", VString details)])
                    500
                /\ message <> [])
            \/ (exists content,
                match t with
                | Normal response => response
                | Throw error =>
                    NextResponse_json
                      (VObject
                         [(lit "error",
                           VString (message_or_default engine_message error));
                          (lit "details",
                           VString (error_toString engine_message error))])
                      500
                end
                = NextResponse_json (VObject [(lit "content", content)]) 200)
            \/ (exists chunks,
                match t with
                | Normal response => response
                | Throw error =>
                    NextResponse_json
                      (VObject
                         [(lit "error",
                           VString (message_or_default engine_message error));
                          (lit "details",
                           VString (error_toString engine_message error))])
                      500
                end
                = StreamingTextResponse (deltas chunks))).
  { intros [x|e] H.
    - destruct (H x eq_refl) as [[c ->]|[chunks ->]]; eauto.
    - left. eexists _, _. split; [reflexivity|].
      apply message_or_default_not_empty. }
  apply K. intros x.
  destruct req_json as [r|e]; [|discriminate]. cbn [and_then].
  destruct (sent_messages env fetch r) as [final|e]; [|discriminate].
  cbn [and_then].
  destruct (fetch (upstream_request env r final)) as [response|e];
    [|discriminate].
  cbn [and_then]. unfold answer.
  destruct (negb (ok response)).
  { destruct (text response); discriminate. }
  destruct (ToBoolean (stream r)).
  - destruct (body response) as [chunks|]; [|discriminate].
    intros [= <-]. eauto.
  - destruct (json response) as [data|e]; [|discriminate]. cbn [and_then].
    destruct (reply_content env data) as [c|e]; [|discriminate].
    intros [= <-]. eauto.
Qed.

(** X18. An empty conversation with context injection on: the handler
    reads the content of a last message that does not exist, and answers
    with the error object under status 500 whatever the upstream would
    say. *)
Theorem empty_conversation
  (r : request) (fetch : fetch_request -> completion upstream_response) :
  CONTEXT_INJECTION env = true ->
  messages r = [] ->
  POST env engine_message (Normal r) fetch
  = NextResponse_json
      (VObject
         [(lit "error",
           VString (message_or_default engine_message (EngineError TypeError)));
          (lit "details",
           VString (error_toString engine_message (EngineError TypeError)))])
      500.
Proof.
  intros HC HM. unfold POST, POST_try. cbn [and_then].
  now rewrite HC, HM.
Qed.

(** X19. The context of the semantic search: with context injection on,
    the content of the last message is the query of the search, and a
    context that the search answers goes upstream as a system message
    [Additional context: ...] placed just before the last message. *)
Theorem context_is_injected
  (r : request) (fetch : fetch_request -> completion upstream_response)
  (q context : value) (response : upstream_response) (data : value)
  (c : jsstring) :
  CONTEXT_INJECTION env = true ->
  Get (last_message (messages r)) (Name (lit "content")) = Normal q ->
  fetch (search_request env q) = Normal response ->
  ok response = true ->
  json response = Normal data ->
  Get data (Name (lit "context")) = Normal context ->
  ToBoolean context = true ->
  ToString context = Normal c ->
  POST_try env (Normal r) fetch
  = and_then
      (fetch
         (upstream_request env r
            (finalMessages r
               (removelast (messages r)
                ++ [message "system" (VString (lit "Additional context: " ++ c));
                    last_message (messages r)]))))
      (answer env r).
Proof.
  intros HC HQ F O J G T S. rewrite POST_try_steps. cbn [and_then].
  unfold sent_messages, additionalContext_of. rewrite HC, HQ.
  cbn [and_then].
  assert (E : performSemanticSearch env fetch q = context).
  { unfold performSemanticSearch. unfold search_request in F.
    rewrite F. cbn [and_then]. rewrite O, J. cbn [negb and_then].
    rewrite G. cbn [logical_or and_then]. now rewrite T. }
  rewrite E. unfold contextEnhancedMessages. rewrite T, S. reflexivity.
Qed.

End ChatHandler.

(** Scenarios of the properties above. *)

Lemma failed_search_is_ignored_witness :
  POST injection_on (fun _ => []) (Normal talk_request) search_down
  = POST (injection_off injection_on) (fun _ => []) (Normal talk_request)
         search_down.
Proof.
  eapply failed_search_is_ignored.
  - vm_compute. reflexivity.
  - vm_compute. reflexivity.
  - vm_compute. exact I.
Defined.

Lemma conversation_preserved_witness :
  (exists prompt context : list value,
      (List.length prompt <= 1)%nat /\ (List.length context <= 1)%nat
      /\ Forall is_system (prompt ++ context)
      /\ talk_sent = prompt ++ removelast (messages talk_request) ++ context
                     ++ [last_message (messages talk_request)])
  /\ POST_try injection_on (Normal talk_request) search_up
     = and_then (search_up (upstream_request injection_on talk_request talk_sent))
                (answer injection_on talk_request).
Proof.
  apply conversation_preserved.
  - discriminate.
  - vm_compute. reflexivity.
Defined.

Lemma credentials_confined_witness :
  POST gateway_env (fun _ => []) (Normal talk_request)
       (guarded (cf_url gateway_env) talk_up)
  = POST gateway_env_other (fun _ => []) (Normal talk_request)
         (guarded (cf_url gateway_env) talk_up).
Proof.
  apply credentials_confined.
  - intros name H. unfold gateway_env_other. now rewrite H.
  - reflexivity.
  - reflexivity.
Defined.

Lemma streams_exactly_when_witness :
  POST no_env (fun _ => []) (Normal stream_request) hello_up
  = StreamingTextResponse (deltas hello_chunks).
Proof.
  apply streams_exactly_when.
  eexists stream_request, _, _, hello_chunks.
  repeat split; vm_compute; reflexivity.
Defined.

Lemma POST_streams_contents_witness :
  POST no_env (fun _ => []) (Normal stream_request) hello_up
  = StreamingTextResponse (map Encoding.encode (map snd hello_frames)).
Proof.
  eapply POST_streams_contents.
  - vm_compute. reflexivity.
  - vm_compute. reflexivity.
  - vm_compute. reflexivity.
  - vm_compute. reflexivity.
  - vm_compute. reflexivity.
  - vm_compute. reflexivity.
  - right. vm_compute. reflexivity.
Defined.

Lemma complete_answer_witness :
  POST gateway_env (fun _ => []) (Normal talk_request) talk_up
  = match reply_content gateway_env talk_data with
    | Normal c => NextResponse_json (VObject [(lit "content", c)]) 200
    | Throw _ =>
        NextResponse_json
          (VObject
             [(lit "error",
               VString (message_or_default (fun _ => []) (EngineError TypeError)));
              (lit "details",
               VString (error_toString (fun _ => []) (EngineError TypeError)))])
          500
    end.
Proof.
  eapply complete_answer.
  - vm_compute. reflexivity.
  - vm_compute. reflexivity.
  - vm_compute. reflexivity.
  - vm_compute. reflexivity.
  - vm_compute. reflexivity.
Defined.

Lemma empty_conversation_witness :
  POST injection_on (fun _ => []) (Normal empty_request) talk_up
  = NextResponse_json
      (VObject
         [(lit "error",
           VString (message_or_default (fun _ => []) (EngineError TypeError)));
          (lit "details",
           VString (error_toString (fun _ => []) (EngineError TypeError)))])
      500.
Proof. apply empty_conversation; vm_compute; reflexivity. Defined.

Lemma context_is_injected_witness :
  POST_try injection_on (Normal talk_request) search_up
  = and_then
      (search_up
         (upstream_request injection_on talk_request
            (finalMessages talk_request
               (removelast (messages talk_request)
                ++ [message "system"
                      (VString (lit "Additional context: "
                                ++ lit "Lemmas are proved."));
                    last_message (messages talk_request)]))))
      (answer injection_on talk_request).
Proof.
  eapply context_is_injected.
  - vm_compute. reflexivity.
  - vm_compute. reflexivity.
  - vm_compute. reflexivity.
  - vm_compute. reflexivity.
  - vm_compute. reflexivity.
  - vm_compute. reflexivity.
  - vm_compute. reflexivity.
  - vm_compute. reflexivity.
Defined.


(* ------------------------------------------------------------------ *)
(** ** The handler of the models route *)

Import Models.

Section ModelsRoute.

Variable env : jsstring -> option jsstring.
Variable fetch : fetch_request -> completion upstream_response.

Lemma map_elements_Forall2 (f : value -> completion value)
  (ms ns : list value) :
  map_elements f ms = Normal ns <-> Forall2 (fun m n => f m = Normal n) ms ns.
Proof.
  revert ns. induction ms as [|m ms IH]; intros ns; cbn [map_elements].
  - split; [intros [= <-]; constructor|]. now inversion 1.
  - split.
    + destruct (f m) as [n|e] eqn:E; [|discriminate]. cbn [and_then].
      destruct (map_elements f ms) as [ns'|e]; [|discriminate].
      intros [= <-]. constructor; [assumption|]. now apply IH.
    + inversion 1 as [|? n ? ns' E H']; subst. rewrite E. cbn [and_then].
      apply IH in H'. now rewrite H'.
Qed.

(** X20. The models of the local server: when the provider is the local
    server and its list of tags is an answer with a success status whose
    JSON body has an array [models], the handler answers, under status
    200, the array of the [name] of each entry, in the order of the
    entries ([undefined] for an entry that has none). *)
Theorem GET_lists_names
  (response : upstream_response) (data : value) (ms ns : list value) :
  strict_eq (provider env) (lit "ollama") = true ->
  fetch (tags_request env) = Normal response ->
  ok response = true ->
  json response = Normal data ->
  Get data (Name (lit "models")) = Normal (VArray ms) ->
  Forall2 (fun m n => Get m (Name (lit "name")) = Normal n) ms ns ->
  GET env fetch = NextResponse_json (VArray ns) 200.
Proof.
  intros P F O J M N. unfold GET, GET_try.
  rewrite P, F. cbn [and_then]. rewrite O, J. cbn [negb and_then].
  rewrite M. cbn [and_then Array_map].
  apply map_elements_Forall2 in N. now rewrite N.
Qed.

(** X21. The list of defaults is the answer in every other case: the
    handler answers [CONFIG.DEFAULT_MODELS] under status 200 unless the
    provider is the local server, the call of its list of tags is answered
    with a success status and a JSON body whose [models] is an array, and
    the [name] of every entry can be read; then it answers these names. *)
Theorem GET_defaults_unless_listed :
  GET env fetch = default_models_response
  \/ exists response data ms ns,
       strict_eq (provider env) (lit "ollama") = true
       /\ fetch (tags_request env) = Normal response
       /\ ok response = true
       /\ json response = Normal data
       /\ Get data (Name (lit "models")) = Normal (VArray ms)
       /\ Forall2 (fun m n => Get m (Name (lit "name")) = Normal n) ms ns
       /\ GET env fetch = NextResponse_json (VArray ns) 200.
Proof.
  unfold GET, GET_try.
  destruct (strict_eq (provider env) (lit "ollama")) eqn:P; [|now left].
  destruct (fetch (tags_request env)) as [response|e] eqn:F; [|now left].
  cbn [and_then]. destruct (ok response) eqn:O; [|now left]. cbn [negb].
  destruct (json response) as [data|e] eqn:J; [|now left]. cbn [and_then].
  destruct (Get data (Name (lit "models"))) as [v|e] eqn:M; [|now left].
  cbn [and_then].
  destruct v as [| |b|x|s|props|ms]; try now left.
  cbn [Array_map].
  destruct (map_elements _ ms) as [ns|e] eqn:N; [|now left].
  right. exists response, data, ms, ns.
  apply map_elements_Forall2 in N. repeat split; assumption.
Qed.

End ModelsRoute.

(** Scenarios of the properties above. *)

Lemma GET_lists_names_witness :
  GET no_env tags_up
  = NextResponse_json
      (VArray [VString (lit "mistral:latest"); VString (lit "llama3");
               VUndefined])
      200.
Proof.
  eapply GET_lists_names.
  - vm_compute. reflexivity.
  - vm_compute. reflexivity.
  - vm_compute. reflexivity.
  - vm_compute. reflexivity.
  - vm_compute. reflexivity.
  - repeat constructor.
Defined.
